(** * archeco-recruit: the blog publishing script, the notification
      handler and the microCMS read client

    A shallow embedding of
    - [scripts/post-blog.mjs] in its two revisions (text only, and with
      Word [.docx] support),
    - the serverless notification handler, and
    - [src/lib/microcms.ts],
    together with the properties their specification states.

    JavaScript strings are sequences of UTF-16 code units; [.length],
    [.slice], [.split] and regular expressions without the [u] flag all work
    on code units, so a string is modelled as a list of code units. *)

From Stdlib Require Import NArith List Ascii String Bool Lia DecimalString.
From stdpp Require Import gmap.
Import ListNotations.

Open Scope N_scope.
Open Scope list_scope.

(** ** JavaScript strings *)

Module JS.

Definition char16 : Set := N.
Abbreviation jsstring := (list N).

(** *** Source literals

    The source files are UTF-8; a literal of the source is embedded by
    decoding the UTF-8 bytes of the same literal written in this file into
    UTF-16 code units. *)

Fixpoint bytes_of (s : string) : list N :=
  match s with
  | EmptyString => []
  | String a r => N_of_ascii a :: bytes_of r
  end.

Definition cont (b : N) : N := N.land b 63.

Fixpoint utf16_of_utf8 (bs : list N) : jsstring :=
  match bs with
  | [] => []
  | b0 :: r0 =>
    if b0 <? 128 then b0 :: utf16_of_utf8 r0
    else if b0 <? 224 then
      match r0 with
      | b1 :: r1 =>
        N.lor (N.shiftl (N.land b0 31) 6) (cont b1) :: utf16_of_utf8 r1
      | _ => []
      end
    else if b0 <? 240 then
      match r0 with
      | b1 :: b2 :: r2 =>
        N.lor (N.shiftl (N.land b0 15) 12)
              (N.lor (N.shiftl (cont b1) 6) (cont b2)) :: utf16_of_utf8 r2
      | _ => []
      end
    else
      match r0 with
      | b1 :: b2 :: b3 :: r3 =>
        let cp := N.lor (N.shiftl (N.land b0 7) 18)
                   (N.lor (N.shiftl (cont b1) 12)
                     (N.lor (N.shiftl (cont b2) 6) (cont b3))) in
        let v := cp - 65536 in
        (55296 + N.shiftr v 10) :: (56320 + N.land v 1023) :: utf16_of_utf8 r3
      | _ => []
      end
  end.

Definition lit (s : string) : jsstring := utf16_of_utf8 (bytes_of s).

(** *** Character classes of ECMAScript *)

(** LineTerminator: LF, CR, LS, PS. *)
Definition isLineTerminator (c : char16) : bool :=
  (c =? 10) || (c =? 13) || (c =? 8232) || (c =? 8233).

(** WhiteSpace and LineTerminator together: what [trim], [trimEnd] strip and
    what [\s] matches. *)
Definition isWhite (c : char16) : bool :=
  ((9 <=? c) && (c <=? 13)) || (c =? 32) || (c =? 160) || (c =? 5760)
  || ((8192 <=? c) && (c <=? 8202)) || (c =? 8232) || (c =? 8233)
  || (c =? 8239) || (c =? 8287) || (c =? 12288) || (c =? 65279).

(** *** String methods *)

Fixpoint dropWhile (p : char16 -> bool) (s : jsstring) : jsstring :=
  match s with
  | [] => []
  | c :: r => if p c then dropWhile p r else s
  end.

Fixpoint takeWhile (p : char16 -> bool) (s : jsstring) : jsstring :=
  match s with
  | [] => []
  | c :: r => if p c then c :: takeWhile p r else []
  end.

Definition trimStart (s : jsstring) : jsstring := dropWhile isWhite s.

Definition trimEnd (s : jsstring) : jsstring :=
  rev (dropWhile isWhite (rev s)).

Definition trim (s : jsstring) : jsstring := trimEnd (trimStart s).

(** [s.split(sep)] for a separator of one code unit: never an empty array. *)
Fixpoint split (sep : char16) (s : jsstring) : list jsstring :=
  match s with
  | [] => [[]]
  | c :: r =>
    if c =? sep then [] :: split sep r
    else match split sep r with
         | l :: ls => (c :: l) :: ls
         | [] => [[c]]
         end
  end.

(** [arr.join(sep)]. *)
Fixpoint join (sep : jsstring) (l : list jsstring) : jsstring :=
  match l with
  | [] => []
  | [x] => x
  | x :: r => x ++ sep ++ join sep r
  end.

(** [s.replace(/c/g, rep)] for a pattern of one literal code unit. *)
Definition replaceAll (c : char16) (rep : jsstring) (s : jsstring) : jsstring :=
  flat_map (fun x => if x =? c then rep else [x]) s.

(** [s.slice(0, n)]. *)
Definition slice0 (n : nat) (s : jsstring) : jsstring := firstn n s.

(** [s.startsWith(p)]. *)
Fixpoint startsWith (p s : jsstring) : bool :=
  match p, s with
  | [], _ => true
  | a :: p', b :: s' => (a =? b) && startsWith p' s'
  | _ :: _, [] => false
  end.

(** [a === b] on strings. *)
Fixpoint eqb (a b : jsstring) : bool :=
  match a, b with
  | [], [] => true
  | x :: a', y :: b' => (x =? y) && eqb a' b'
  | _, _ => false
  end.

(** *** Regular expressions of the scripts

    None carries the [u], [m] or [s] flag: [^] is the start of the string,
    [.] is any code unit but a line terminator, quantifiers are greedy and
    backtrack. *)

(** [(.+)] at the start of [s]: the longest run of non-terminators, which
    must not be empty. Nothing follows the group in the patterns below, so
    the longest run is the match. *)
Definition re_dot_plus (s : jsstring) : option jsstring :=
  match takeWhile (fun c => negb (isLineTerminator c)) s with
  | [] => None
  | g => Some g
  end.

(** [\s*(.+)] at the start of [s]: take white space as long as the rest
    still matches, give it back otherwise. *)
Fixpoint re_ws_star_group (s : jsstring) : option jsstring :=
  match s with
  | [] => None
  | c :: r =>
    if isWhite c then
      match re_ws_star_group r with
      | Some g => Some g
      | None => re_dot_plus s
      end
    else re_dot_plus s
  end.

(** [\s+(.+)] at the start of [s]; the result is capture group 1. *)
Definition re_ws_plus_group (s : jsstring) : option jsstring :=
  match s with
  | c :: r => if isWhite c then re_ws_star_group r else None
  | [] => None
  end.

(** [line.match(/^P\s+(.+)/)] for a literal prefix [P]. *)
Definition match_prefix_ws_group (P line : jsstring) : option jsstring :=
  if startsWith P line then re_ws_plus_group (skipn (length P) line)
  else None.

(** [line.match(/^[-*]\s+(.+)/)]. *)
Definition match_list_item (line : jsstring) : option jsstring :=
  match line with
  | c :: r => if (c =? 45) || (c =? 42) then re_ws_plus_group r else None
  | [] => None
  end.

(** [s.replace(/^#+\s*/, '')]. *)
Definition strip_heading_marks (s : jsstring) : jsstring :=
  match s with
  | c :: _ =>
    if c =? 35 then dropWhile isWhite (dropWhile (fun x => x =? 35) s) else s
  | [] => []
  end.

(** [s.replace(/\s+/g, ' ')]: every maximal run of white space becomes one
    space; [inRun] tells that the previous code unit was white space. *)
Fixpoint collapse_ws_from (inRun : bool) (s : jsstring) : jsstring :=
  match s with
  | [] => []
  | c :: r =>
    if isWhite c then
      if inRun then collapse_ws_from true r else 32 :: collapse_ws_from true r
    else c :: collapse_ws_from false r
  end.

Definition collapse_ws (s : jsstring) : jsstring := collapse_ws_from false s.

(** Canonicalize of the [i] flag without [u]: the upper-case mapping of one
    code unit. Only the mapping of the ASCII letters is modelled; every
    code unit of the keyword table of the script is either an ASCII
    character or a kana or kanji, which no other code unit maps to. *)
Definition canonicalize (c : char16) : char16 :=
  if (97 <=? c) && (c <=? 122) then c - 32 else c.

(** [s.toLowerCase()], on the ASCII letters. *)
Definition toLowerCase (s : jsstring) : jsstring :=
  map (fun c => if (65 <=? c) && (c <=? 90) then c + 32 else c) s.

(** The literal pattern [kw] matches at the start of [s], ignoring case. *)
Fixpoint matches_here_ci (kw s : jsstring) : bool :=
  match kw, s with
  | [], _ => true
  | a :: kw', b :: s' =>
    (canonicalize a =? canonicalize b) && matches_here_ci kw' s'
  | _ :: _, [] => false
  end.

(** The matches of [new RegExp(kw, 'gi')] in [s] for a non-empty literal
    [kw], leftmost first and not overlapping: after a match the scan resumes
    behind it ([skip] counts the code units of the last match still to be
    passed over). *)
Fixpoint regex_matches_ci (kw : jsstring) (skip : nat) (s : jsstring)
  : list jsstring :=
  match s with
  | [] => []
  | _ :: r =>
    match skip with
    | S k => regex_matches_ci kw k r
    | O =>
      if matches_here_ci kw s
      then firstn (length kw) s :: regex_matches_ci kw (length kw - 1) r
      else regex_matches_ci kw 0 r
    end
  end.

(** [text.match(regex)] with the [g] flag: [null] when nothing matches. *)
Definition match_g_ci (kw text : jsstring) : option (list jsstring) :=
  match regex_matches_ci kw 0 text with
  | [] => None
  | ms => Some ms
  end.

(** [s.indexOf(c)] for one code unit: [None] stands for [-1]. *)
Fixpoint indexOf (c : char16) (s : jsstring) : option nat :=
  match s with
  | [] => None
  | x :: r => if x =? c then Some O else option_map S (indexOf c r)
  end.

(** [arr.includes(x)] on an array of strings. *)
Definition includes (x : jsstring) (arr : list jsstring) : bool :=
  existsb (eqb x) arr.

(** A number in a template literal. *)
Definition decimal (n : N) : jsstring :=
  bytes_of (DecimalString.NilZero.string_of_uint (N.to_uint n)).

(** Truthiness of a value that is a string or [undefined]. *)
Definition truthy (v : option jsstring) : bool :=
  match v with
  | Some (_ :: _) => true
  | _ => false
  end.

(** [a || b] for such a value. *)
Definition or_else (v : option jsstring) (d : jsstring) : jsstring :=
  match v with
  | Some (c :: r) => c :: r
  | _ => d
  end.

(** A value that may be [undefined], inside a template literal. *)
Definition show (v : option jsstring) : jsstring :=
  match v with
  | Some s => s
  | None => lit "undefined"
  end.

Definition show_bool (b : bool) : jsstring :=
  if b then lit "true" else lit "false".

Definition QUOTE : jsstring := [34].

(** [res.ok] *)
Definition ok (status : N) : bool := (200 <=? status) && (status <=? 299).

(** *** [node:path], POSIX flavour, as its documentation describes it *)

Definition SLASH : char16 := 47.
Definition DOT : char16 := 46.

(** [path.basename(p)]: the last portion, trailing separators ignored. *)
Definition basename (p : jsstring) : jsstring :=
  let r := dropWhile (fun c => c =? SLASH) (rev p) in
  rev (takeWhile (fun c => negb (c =? SLASH)) r).

(** [path.extname(p)]: from the last dot of the last portion to its end;
    empty when there is no dot, when the only dot is the first character, and
    for the portion [..]. *)
Definition extname (p : jsstring) : jsstring :=
  let base := basename p in
  let tail_rev := takeWhile (fun c => negb (c =? DOT)) (rev base) in
  if (length tail_rev =? length base)%nat then []
  else if (S (length tail_rev) =? length base)%nat then []
  else if eqb base [DOT; DOT] then []
  else DOT :: rev tail_rev.

End JS.

Import JS.

(** ** The publishing script: text functions

    [generateTitle], [detectCategory], [generateDescription], [textToHtml]
    and [selectBestImage] read the same in both revisions of
    [scripts/post-blog.mjs]. *)

Module PostBlog.

Definition CATEGORIES : list jsstring :=
  [lit "インタビュー"; lit "社風"; lit "制度"; lit "イベント"].

(** An object literal keeps the order of its (non-numeric) keys, and
    [Object.entries] lists them in that order. *)
Definition CATEGORY_KEYWORDS : list (jsstring * list jsstring) :=
  [ (lit "インタビュー",
      [lit "インタビュー"; lit "聞いて"; lit "話を"; lit "Q&A"; lit "質問";
       lit "入社理由"; lit "一日の流れ"; lit "先輩"; lit "社員紹介"]);
    (lit "社風",
      [lit "社風"; lit "雰囲気"; lit "カルチャー"; lit "文化"; lit "チーム";
       lit "職場"; lit "オフィス"; lit "働き方"; lit "コミュニケーション"]);
    (lit "制度",
      [lit "制度"; lit "福利厚生"; lit "研修"; lit "評価"; lit "休暇";
       lit "手当"; lit "キャリア"; lit "教育"; lit "支援"]);
    (lit "イベント",
      [lit "イベント"; lit "懇親会"; lit "勉強会"; lit "セミナー"; lit "交流";
       lit "開催"; lit "参加"; lit "ハッカソン"; lit "忘年会"]) ].

Definition NEWLINE : char16 := 10.

(** [l.trim().length > 0] *)
Definition nonBlank (l : jsstring) : bool :=
  (0 <? length (trim l))%nat.

Definition ELLIPSIS : jsstring := lit "...".
Definition UNTITLED : jsstring := lit "無題の記事".

Definition generateTitle (text : jsstring) : jsstring :=
  let lines := List.filter nonBlank (split NEWLINE text) in
  match lines with
  | [] => UNTITLED
  | l0 :: _ =>
    let title := trim (strip_heading_marks l0) in
    if (60 <? length title)%nat then slice0 57 title ++ ELLIPSIS else title
  end.

(** *** detectCategory

    [scores] is an object used as a map from label to number, later listed
    with [Object.entries]: an association list in insertion order. *)

Definition scores_t : Type := list (jsstring * nat).

Fixpoint obj_get (k : jsstring) (o : scores_t) : option nat :=
  match o with
  | [] => None
  | (k', v) :: r => if eqb k' k then Some v else obj_get k r
  end.

Fixpoint obj_set (k : jsstring) (v : nat) (o : scores_t) : scores_t :=
  match o with
  | [] => [(k, v)]
  | (k', v') :: r =>
    if eqb k' k then (k', v) :: r else (k', v') :: obj_set k v r
  end.

(** [scores[cat] += n]; the key is always present when this runs. *)
Definition obj_add (k : jsstring) (n : nat) (o : scores_t) : scores_t :=
  match obj_get k o with
  | Some v => obj_set k (v + n)%nat o
  | None => o
  end.

(** The inner loop over the keywords of one label. *)
Definition count_keyword (text cat : jsstring) (scores : scores_t)
  (kw : jsstring) : scores_t :=
  match match_g_ci kw text with
  | Some matches => obj_add cat (length matches) scores
  | None => scores
  end.

(** The outer loop: one label of [CATEGORY_KEYWORDS]. *)
Definition score_label (text : jsstring) (scores : scores_t)
  (entry : jsstring * list jsstring) : scores_t :=
  let '(cat, keywords) := entry in
  fold_left (count_keyword text cat) keywords (obj_set cat 0%nat scores).

Definition compute_scores (text : jsstring) : scores_t :=
  fold_left (score_label text) CATEGORY_KEYWORDS [].

(** The second loop: [best] and [bestScore]. *)
Definition pick_best (acc : jsstring * nat) (entry : jsstring * nat)
  : jsstring * nat :=
  let '(best, bestScore) := acc in
  let '(cat, score) := entry in
  if (bestScore <? score)%nat then (cat, score) else (best, bestScore).

Definition detectCategory (text : jsstring) : jsstring :=
  let scores := compute_scores text in
  fst (fold_left pick_best scores (nth 0 CATEGORIES [], 0%nat)).

Definition generateDescription (text : jsstring) : jsstring :=
  let lines := List.filter nonBlank (split NEWLINE text) in
  let body := trim (collapse_ws (join (lit " ") (skipn 1 lines))) in
  match body with
  | [] => []
  | _ => if (length body <=? 120)%nat then body
         else slice0 117 body ++ ELLIPSIS
  end.

(** *** textToHtml *)

Definition esc (s : jsstring) : jsstring :=
  replaceAll 62 (lit "&gt;")
    (replaceAll 60 (lit "&lt;")
      (replaceAll 38 (lit "&amp;") s)).

(** The local variables [html] and [inList], which the loop body and the
    nested [closeList] update. *)
Record conv_state : Type := ConvState {
  html : list jsstring;
  inList : bool
}.

Definition push (x : jsstring) (st : conv_state) : conv_state :=
  {| html := html st ++ [x]; inList := inList st |}.

Definition UL_OPEN : jsstring := lit "<ul>".
Definition UL_CLOSE : jsstring := lit "</ul>".

Definition closeList (st : conv_state) : conv_state :=
  if inList st
  then {| html := html st ++ [UL_CLOSE]; inList := false |}
  else st.

Definition wrap (tag content : jsstring) : jsstring :=
  lit "<" ++ tag ++ lit ">" ++ esc content ++ lit "</" ++ tag ++ lit ">".

(** One iteration of [for (const raw of lines)]; each [continue] is a branch
    that returns. *)
Definition convert_line (st : conv_state) (raw : jsstring) : conv_state :=
  let line := trimEnd raw in
  match match_prefix_ws_group (lit "###") line with
  | Some g => push (wrap (lit "h3") g) (closeList st)
  | None =>
  match match_prefix_ws_group (lit "##") line with
  | Some g => push (wrap (lit "h2") g) (closeList st)
  | None =>
  match match_prefix_ws_group (lit "#") line with
  | Some g => push (wrap (lit "h1") g) (closeList st)
  | None =>
  match match_list_item line with
  | Some g =>
    let st1 :=
      if inList st then st
      else {| html := html st ++ [UL_OPEN]; inList := true |} in
    push (wrap (lit "li") g) st1
  | None =>
    let st1 := if inList st then closeList st else st in
    if eqb (trim line) [] then closeList st1
    else push (wrap (lit "p") line) st1
  end end end end.

(** The array [html] when the function returns: the loop, then the last
    [closeList()]. *)
Definition html_array (text : jsstring) : list jsstring :=
  let lines := split NEWLINE text in
  let st := fold_left convert_line lines {| html := []; inList := false |} in
  html (closeList st).

Definition textToHtml (text : jsstring) : jsstring :=
  join [NEWLINE] (html_array text).

(** *** selectBestImage

    [stat p] is what [fs.statSync(p).size] gives: [None] when the call
    throws. *)
Definition scan_image (stat : jsstring -> option N) (acc : jsstring * N)
  (p : jsstring) : jsstring * N :=
  let '(best, bestSize) := acc in
  match stat p with
  | Some size => if bestSize <? size then (p, size) else (best, bestSize)
  | None => (best, bestSize)
  end.

Definition selectBestImage (stat : jsstring -> option N)
  (imagePaths : list jsstring) : option jsstring :=
  match imagePaths with
  | [] => None
  | [p] => Some p
  | p0 :: _ => Some (fst (fold_left (scan_image stat) imagePaths (p0, 0)))
  end.

End PostBlog.

Import PostBlog.

(** ** Effects

    What a run does to the outside is a trace of events; a run ends by
    returning, by [process.exit] or with an exception that [try]/[catch] may
    handle. An exception carries its message; the messages the scripts build
    themselves are literal, those of the runtime and of libraries
    ([fs], [fetch], mammoth, a failed destructuring) stand for whatever text
    the engine gives. *)

Module Eff.

Inductive outcome (A : Type) : Type :=
| Return (a : A)
| Exit (code : N)
| Throw (message : jsstring).

Arguments Return {A} a.
Arguments Exit {A} code.
Arguments Throw {A} message.

Definition prog (E A : Type) : Type := list E * outcome A.

Definition ret {E A} (a : A) : prog E A := ([], Return a).

Definition bind {E A B} (m : prog E A) (k : A -> prog E B) : prog E B :=
  match m with
  | (t, Return a) => let '(t', r) := k a in (t ++ t', r)
  | (t, Exit c) => (t, Exit c)
  | (t, Throw e) => (t, Throw e)
  end.

Definition emit {E} (e : E) : prog E unit := ([e], Return tt).

(** [process.exit(code)]: no handler sees it. *)
Definition exit {E A} (code : N) : prog E A := ([], Exit code).

Definition throw {E A} (message : jsstring) : prog E A := ([], Throw message).

(** [try { m } catch (e) { h e.message }] *)
Definition try_catch {E A} (m : prog E A) (h : jsstring -> prog E A)
  : prog E A :=
  match m with
  | (t, Throw e) => let '(t', r) := h e in (t ++ t', r)
  | _ => m
  end.

Definition trace {E A} (m : prog E A) : list E := fst m.
Definition result {E A} (m : prog E A) : outcome A := snd m.

End Eff.

Import Eff.

Notation "x <- m ;; k" := (Eff.bind m (fun x => k))
  (at level 100, m at next level, right associativity).
Notation "m ;;; k" := (Eff.bind m (fun _ => k))
  (at level 100, right associativity).

(** ** The publishing script: command line, environment, network *)

Module Script.

Record postData : Type := PostData {
  pd_title : jsstring;
  pd_content : jsstring;
  pd_category : list jsstring;
  pd_description : jsstring;
  pd_is_featured : bool;
  pd_writer : option jsstring;
  pd_eyecatch : option jsstring
}.

Inductive event : Type :=
| ConsoleLog (msg : jsstring)
| ConsoleWarn (msg : jsstring)
| ConsoleError (msg : jsstring)
| ConsoleLogJson (data : postData)
    (** [console.log(JSON.stringify(postData, null, 2))] *)
| MediaUpload (domain apiKey contentType fileName : jsstring) (body : list N)
    (** the request [fetch] has built and sends to the media endpoint of
        the management API *)
| CmsCreate (domain apiKey : jsstring) (content : postData).
    (** [client.create({ endpoint: 'blogs', content })] *)

Definition isNetwork (e : event) : bool :=
  match e with
  | MediaUpload _ _ _ _ _ | CmsCreate _ _ _ => true
  | _ => false
  end.

Abbreviation run := (prog event).

Definition log (msg : jsstring) : run unit := emit (ConsoleLog msg).
Definition warn (msg : jsstring) : run unit := emit (ConsoleWarn msg).
Definition error (msg : jsstring) : run unit := emit (ConsoleError msg).

(** *** The files the run can see *)

(** An image embedded in a Word document, as mammoth hands it to the
    [convertImage] callback; [img_data] is [None] when [image.read()]
    rejects. *)
Record docx_image : Type := DocxImage {
  img_contentType : jsstring;
  img_data : option (list N)
}.

(** What mammoth makes of a [.docx] file: the images it meets in document
    order, the HTML it builds from the [src] the callback answered for each
    of them, the raw text, and its messages (type and text). *)
Record docx_doc : Type := DocxDoc {
  doc_images : list docx_image;
  doc_html : list jsstring -> jsstring;
  doc_rawText : jsstring;
  doc_messages : list (jsstring * jsstring)
}.

(** A regular file: its bytes, the same decoded as UTF-8, and the document
    mammoth reads in it ([None] when mammoth rejects the file). Paths name
    regular files or nothing. *)
Record file : Type := File {
  file_bytes : list N;
  file_text : jsstring;
  file_docx : option docx_doc
}.

(** What becomes of one upload; [url] is the [url] member of the JSON body,
    which the API returns on success. [fetch] builds a request before it
    turns to the network: when it cannot parse the URL or does not accept a
    header it rejects at once, and nothing has gone to the network. *)
Inductive media_reply : Type :=
| Responded (status : N) (text : jsstring) (url : jsstring)
    (** [res.status], [await res.text()], [(await res.json()).url] *)
| Unreachable (message : jsstring)
    (** the request goes out and fails on the network: [fetch] rejects *)
| Refused (message : jsstring).
    (** [fetch] rejects while it builds the request *)

Record world : Type := World {
  argv : list jsstring;              (** [process.argv.slice(2)] *)
  environ : gmap (list N) (list N);  (** [process.env] at start *)
  dotenv : option jsstring;          (** the [.env] of the working directory *)
  files : jsstring -> option file;
  media : jsstring -> list N -> media_reply;
    (** by file name and body *)
  cms : postData -> jsstring + jsstring
    (** the id of the created entry, or the message of the error *)
}.

(** *** loadEnv *)

Definition isQuote (c : char16) : bool := (c =? 34) || (c =? 39).

(** [s.replace(/^["']|["']$/g, '')] *)
Definition strip_quotes (s : jsstring) : jsstring :=
  let s1 := match s with
            | c :: r => if isQuote c then r else s
            | [] => []
            end in
  match rev s1 with
  | c :: r => if isQuote c then rev r else s1
  | [] => []
  end.

Definition loadEnv_line (env : gmap (list N) (list N)) (line : jsstring)
  : gmap (list N) (list N) :=
  let trimmed := trim line in
  match trimmed with
  | [] => env
  | _ =>
    if startsWith (lit "#") trimmed then env
    else match indexOf 61 trimmed with
         | None => env
         | Some idx =>
           let key := trim (firstn idx trimmed) in
           let val := strip_quotes (trim (skipn (S idx) trimmed)) in
           if truthy (env !! key) then env else <[key := val]> env
         end
  end.

Definition loadEnv (w : world) : gmap (list N) (list N) :=
  match dotenv w with
  | Some content => fold_left loadEnv_line (split 10 content) (environ w)
  | None => environ w
  end.

(** *** parseArgs *)

Record opts : Type := Opts {
  text : option jsstring;
  images : list jsstring;
  title : option jsstring;
  category : option jsstring;
  writer : option jsstring;
  featured : bool;
  dryRun : bool
}.

Definition opts0 : opts :=
  {| text := None; images := []; title := None; category := None;
     writer := None; featured := false; dryRun := false |}.

Definition set_text v o := {| text := v; images := images o; title := title o;
  category := category o; writer := writer o; featured := featured o;
  dryRun := dryRun o |}.
Definition push_image v o := {| text := text o; images := images o ++ [v];
  title := title o; category := category o; writer := writer o;
  featured := featured o; dryRun := dryRun o |}.
Definition set_title v o := {| text := text o; images := images o; title := v;
  category := category o; writer := writer o; featured := featured o;
  dryRun := dryRun o |}.
Definition set_category v o := {| text := text o; images := images o;
  title := title o; category := v; writer := writer o;
  featured := featured o; dryRun := dryRun o |}.
Definition set_writer v o := {| text := text o; images := images o;
  title := title o; category := category o; writer := v;
  featured := featured o; dryRun := dryRun o |}.
Definition set_featured o := {| text := text o; images := images o;
  title := title o; category := category o; writer := writer o;
  featured := true; dryRun := dryRun o |}.
Definition set_dryRun o := {| text := text o; images := images o;
  title := title o; category := category o; writer := writer o;
  featured := featured o; dryRun := true |}.

Definition is_opt (arg : jsstring) (names : list string) : bool :=
  existsb (fun n => eqb arg (lit n)) names.

(** The [while] loop over [args]. An option with a value takes [args[++i]],
    which is [undefined] behind the last argument. [collecting] is the inner
    loop of [--images]: it takes arguments up to the first that starts with
    [-], which the outer loop then reads as an option. *)
Fixpoint parse_loop (collecting : bool) (args : list jsstring) (o : opts)
  : run opts :=
  match args with
  | [] => ret o
  | arg :: rest =>
    if collecting && negb (startsWith (lit "-") arg)
    then parse_loop true rest (push_image arg o)
    else if is_opt arg ["--text"; "-t"]%string then
      match rest with
      | v :: rest' => parse_loop false rest' (set_text (Some v) o)
      | [] => ret (set_text None o)
      end
    else if is_opt arg ["--images"; "-i"]%string then
      parse_loop true rest o
    else if is_opt arg ["--title"]%string then
      match rest with
      | v :: rest' => parse_loop false rest' (set_title (Some v) o)
      | [] => ret (set_title None o)
      end
    else if is_opt arg ["--category"; "-c"]%string then
      match rest with
      | v :: rest' => parse_loop false rest' (set_category (Some v) o)
      | [] => ret (set_category None o)
      end
    else if is_opt arg ["--writer"; "-w"]%string then
      match rest with
      | v :: rest' => parse_loop false rest' (set_writer (Some v) o)
      | [] => ret (set_writer None o)
      end
    else if is_opt arg ["--featured"]%string then
      parse_loop false rest (set_featured o)
    else if is_opt arg ["--dry-run"]%string then
      parse_loop false rest (set_dryRun o)
    else
      warn (lit "不明なオプション: " ++ arg) ;;;
      parse_loop false rest o
  end.

Definition parseArgs (w : world) : run opts :=
  parse_loop false (argv w) opts0.

(** *** Uploads *)

Section WithWorld.

Variable w : world.
(** [MICROCMS_SERVICE_DOMAIN] and [MICROCMS_API_KEY], constants of the
    module once the start-up check has passed. *)
Variables domain apiKey : jsstring.

(** The value of a header is a ByteString: for a value with a code unit
    above 255 [fetch] rejects with a [TypeError] while it builds the
    request, whatever the world. What else it refuses (a URL it cannot
    parse, a control character in a header) is the [Refused] of the
    world. *)
Definition byteString (s : jsstring) : bool :=
  forallb (fun c => c <=? 255) s.

Definition NOT_A_BYTE_STRING : jsstring :=
  lit "Cannot convert argument to a ByteString".

(** [MediaUpload] stands in the trace when [fetch] has built the request
    and turns to the network with it. *)
Definition uploadImageBuffer (buffer : list N) (contentType fileName : jsstring)
  : run jsstring :=
  let headers :=
    [ apiKey; contentType;
      lit "attachment; filename=" ++ QUOTE ++ fileName ++ QUOTE ] in
  if negb (forallb byteString headers) then throw NOT_A_BYTE_STRING
  else
    match media w fileName buffer with
    | Refused message => throw message
    | Unreachable message =>
      emit (MediaUpload domain apiKey contentType fileName buffer) ;;;
      throw message
    | Responded status errText url =>
      emit (MediaUpload domain apiKey contentType fileName buffer) ;;;
      if negb (ok status)
      then throw (lit "画像アップロード失敗 (" ++ decimal status ++ lit "): "
                  ++ errText)
      else ret url
    end.

Definition mimeMap : list (jsstring * jsstring) :=
  [ (lit ".jpg", lit "image/jpeg"); (lit ".jpeg", lit "image/jpeg");
    (lit ".png", lit "image/png"); (lit ".webp", lit "image/webp");
    (lit ".gif", lit "image/gif") ].

Fixpoint lookup_str (k : jsstring) (m : list (jsstring * jsstring))
  : option jsstring :=
  match m with
  | [] => None
  | (k', v) :: r => if eqb k' k then Some v else lookup_str k r
  end.

(** [fs.readFileSync(p)]: throws for a path that is not there. *)
Definition readFileSync (p : jsstring) : run file :=
  match files w p with
  | Some f => ret f
  | None => throw (lit "ENOENT: no such file or directory, open '" ++ p
                   ++ lit "'")
  end.

(** [uploadImageFile] of the second revision, [uploadImage] of the first. *)
Definition uploadImageFile (imagePath : jsstring) : run jsstring :=
  let ext := toLowerCase (extname imagePath) in
  let contentType := or_else (lookup_str ext mimeMap) (lit "image/jpeg") in
  let fileName := basename imagePath in
  imageData <- readFileSync imagePath ;;
  uploadImageBuffer (file_bytes imageData) contentType fileName.

(** [fs.statSync(p).size] *)
Definition statSize (p : jsstring) : option N :=
  option_map (fun f => N.of_nat (length (file_bytes f))) (files w p).

(** *** processDocx (second revision) *)

Record embedded : Type := Embedded {
  em_fileName : jsstring;
  em_contentType : jsstring;
  em_url : option jsstring
}.

(** The [convertImage] callback, for the image that makes [imageIndex]
    become [idx]; it gives the [src] and what it pushed on
    [embeddedImages]. *)
Definition convertImage (dry : bool) (idx : N) (image : docx_image)
  : run (jsstring * list embedded) :=
  let ext := if eqb (img_contentType image) (lit "image/png")
             then lit ".png" else lit ".jpg" in
  let fileName := lit "docx-image-" ++ decimal idx ++ ext in
  if dry then
    log (lit "  画像検出: " ++ fileName ++ lit " (" ++ img_contentType image
         ++ lit ")") ;;;
    ret (lit "[画像: " ++ fileName ++ lit "]",
         [Embedded fileName (img_contentType image) None])
  else
    try_catch
      (imgBuffer <- match img_data image with
                    | Some b => ret b
                    | None => throw (lit "cannot read image")
                    end ;;
       url <- uploadImageBuffer imgBuffer (img_contentType image) fileName ;;
       log (lit "  画像アップロード: " ++ fileName ++ lit " → " ++ url) ;;;
       ret (url, [Embedded fileName (img_contentType image) (Some url)]))
      (fun message =>
         error (lit "  画像アップロード失敗: " ++ fileName ++ lit " - "
                ++ message) ;;;
         ret ([], [])).

(** mammoth calls the callback once for each image, in document order. *)
Fixpoint convertImages (dry : bool) (imageIndex : N) (imgs : list docx_image)
  : run (list jsstring * list embedded) :=
  match imgs with
  | [] => ret ([], [])
  | image :: rest =>
    r <- convertImage dry (imageIndex + 1) image ;;
    rs <- convertImages dry (imageIndex + 1) rest ;;
    ret (fst r :: fst rs, snd r ++ snd rs)
  end.

Record processed : Type := Processed {
  p_html : jsstring;
  p_rawText : jsstring;
  p_embeddedImages : list embedded
}.

Fixpoint log_all (msgs : list jsstring) : run unit :=
  match msgs with
  | [] => ret tt
  | m :: r => log m ;;; log_all r
  end.

Definition processDocx (filePath : jsstring) (dry : bool) : run processed :=
  buffer <- readFileSync filePath ;;
  match file_docx buffer with
  | None => throw (lit "Could not find file in options")
  | Some doc =>
    r <- convertImages dry 0 (doc_images doc) ;;
    let rawText := doc_rawText doc in
    (match doc_messages doc with
     | [] => ret tt
     | msgs =>
       log (lit "Word変換メッセージ:") ;;;
       log_all (map (fun m => lit "  " ++ fst m ++ lit ": " ++ snd m) msgs)
     end) ;;;
    ret {| p_html := doc_html doc (fst r); p_rawText := rawText;
           p_embeddedImages := snd r |}
  end.

Definition processText (filePath : jsstring) : run processed :=
  f <- readFileSync filePath ;;
  let rawText := file_text f in
  let html := textToHtml rawText in
  ret {| p_html := html; p_rawText := rawText; p_embeddedImages := [] |}.

End WithWorld.

(** *** The check of the configuration at start-up *)

Definition DOMAIN_VAR : jsstring := lit "MICROCMS_SERVICE_DOMAIN".
Definition KEY_VAR : jsstring := lit "MICROCMS_API_KEY".

Definition CONFIG_ERROR : jsstring :=
  lit "エラー: MICROCMS_SERVICE_DOMAIN と MICROCMS_API_KEY を .env に設定してください。".

(** The top level of the module: [loadEnv()], the two constants, the check,
    and at the very end the call of [main] ([createClient] only builds an
    object). An exception that leaves [main] is an unhandled rejection. *)
Definition start (main : world -> jsstring -> jsstring -> run unit)
  (w : world) : run unit :=
  let env := loadEnv w in
  let MICROCMS_SERVICE_DOMAIN := env !! DOMAIN_VAR in
  let MICROCMS_API_KEY := env !! KEY_VAR in
  if negb (truthy MICROCMS_SERVICE_DOMAIN) || negb (truthy MICROCMS_API_KEY)
  then
    error CONFIG_ERROR ;;;
    exit 1
  else
    main w (show MICROCMS_SERVICE_DOMAIN) (show MICROCMS_API_KEY).

Definition RULE : jsstring := lit "───────────────────────────────────────".
Definition DOUBLE_RULE : jsstring :=
  lit "═══════════════════════════════════════".

Definition category_error : jsstring :=
  lit "エラー: カテゴリは次のいずれかを指定してください: "
  ++ join (lit ", ") CATEGORIES.

(** The tail both revisions share: the record, the dry run, the creation. *)
Definition publish (w : world) (domain apiKey : jsstring) (o : opts)
  (title content category description : jsstring)
  (eyecatch : option jsstring) : run unit :=
  let postData :=
    {| pd_title := title; pd_content := content; pd_category := [category];
       pd_description := description; pd_is_featured := featured o;
       pd_writer := if truthy (writer o) then writer o else None;
       pd_eyecatch := if truthy eyecatch then eyecatch else None |} in
  if dryRun o then
    log (lit (String "010" "[dry-run] 登録データ:")) ;;;
    emit (ConsoleLogJson postData) ;;;
    log (lit (String "010"
           "--dry-run を外して再実行すると、microCMS に登録されます。"))
  else
    log (lit (String "010" "microCMS に記事を登録中...")) ;;;
    emit (CmsCreate domain apiKey postData) ;;;
    match cms w postData with
    | inl id =>
      log (lit "登録完了!") ;;;
      log (lit "記事ID: " ++ id) ;;;
      log (lit "URL: https://" ++ domain ++ lit ".microcms.io/apis/blogs/" ++ id)
    | inr message =>
      error (lit "登録エラー: " ++ message) ;;;
      exit 1
    end.

(** The choice and the upload of the eyecatch; [label] is the one word in
    which the two revisions differ. *)
Definition eyecatchUpload (w : world) (domain apiKey : jsstring) (o : opts)
  (label : jsstring) : run (option jsstring) :=
  match images o with
  | [] => ret None
  | _ =>
    match selectBestImage (statSize w) (images o) with
    | None => throw (lit "The path argument must be of type string")
    | Some bestImage =>
      log (label ++ basename bestImage) ;;;
      if negb (dryRun o) then
        try_catch
          (url <- uploadImageFile w domain apiKey bestImage ;;
           log (lit "アップロード完了: " ++ url) ;;;
           ret (Some url))
          (fun message =>
             error (lit "画像アップロードエラー: " ++ message) ;;;
             log (lit "アイキャッチなしで続行します。") ;;;
             ret None)
      else
        log (lit "(dry-run: 画像アップロードをスキップ)") ;;;
        ret None
    end
  end.

(** *** main, first revision: text sources only *)

Module TextOnly.

Definition main (w : world) (domain apiKey : jsstring) : run unit :=
  o <- parseArgs w ;;
  if negb (truthy (text o)) then
    error (lit "エラー: --text (-t) でブログ本文テキストファイルを指定してください。") ;;;
    error (lit "使い方: node scripts/post-blog.mjs --text blog.txt --images img1.jpg img2.jpg") ;;;
    exit 1
  else
  let path := show (text o) in
  match files w path with
  | None =>
    error (lit "エラー: ファイルが見つかりません: " ++ path) ;;;
    exit 1
  | Some f =>
    let rawText := file_text f in
    let title := or_else (title o) (generateTitle rawText) in
    let category := or_else (category o) (detectCategory rawText) in
    let description := generateDescription rawText in
    let content := textToHtml rawText in
    if negb (includes category CATEGORIES) then
      error category_error ;;;
      exit 1
    else
      log DOUBLE_RULE ;;;
      log (lit "  microCMS ブログ記事 自動登録") ;;;
      log DOUBLE_RULE ;;;
      log (lit "タイトル:     " ++ title) ;;;
      log (lit "カテゴリ:     " ++ category) ;;;
      log (lit "リード文:     " ++ description) ;;;
      log (lit "ライター:     " ++ or_else (writer o) (lit "(未設定)")) ;;;
      log (lit "おすすめ:     " ++ show_bool (featured o)) ;;;
      log (lit "画像数:       " ++ decimal (N.of_nat (length (images o)))) ;;;
      log RULE ;;;
      eyecatch <- eyecatchUpload w domain apiKey o (lit "アイキャッチ: ") ;;
      publish w domain apiKey o title content category description eyecatch
  end.

Definition script : world -> run unit := start main.

End TextOnly.

(** *** main, second revision: Word sources as well *)

Module Docx.

Definition main (w : world) (domain apiKey : jsstring) : run unit :=
  o <- parseArgs w ;;
  if negb (truthy (text o)) then
    error (lit "エラー: --text (-t) でブログ本文ファイルを指定してください。") ;;;
    error (lit "使い方:") ;;;
    error (lit "  node scripts/post-blog.mjs --text blog.docx --images eyecatch.jpg") ;;;
    error (lit "  node scripts/post-blog.mjs --text blog.txt --images eyecatch.jpg") ;;;
    exit 1
  else
  let path := show (text o) in
  match files w path with
  | None =>
    error (lit "エラー: ファイルが見つかりません: " ++ path) ;;;
    exit 1
  | Some _ =>
    let ext := toLowerCase (extname path) in
    log DOUBLE_RULE ;;;
    log (lit "  microCMS ブログ記事 自動登録") ;;;
    log DOUBLE_RULE ;;;
    result <-
      (if eqb ext (lit ".docx") then
         log (lit "入力形式:     Word (.docx)") ;;;
         log (lit "ファイル:     " ++ path) ;;;
         log RULE ;;;
         log (lit "Word ファイルを処理中...") ;;;
         result <- processDocx w domain apiKey path (dryRun o) ;;
         log (lit "埋め込み画像: "
              ++ decimal (N.of_nat (length (p_embeddedImages result)))
              ++ lit "件") ;;;
         ret result
       else
         log (lit "入力形式:     テキスト (" ++ ext ++ lit ")") ;;;
         log (lit "ファイル:     " ++ path) ;;;
         log RULE ;;;
         processText w path) ;;
    let html := p_html result in
    let rawText := p_rawText result in
    let title := or_else (title o) (generateTitle rawText) in
    let category := or_else (category o) (detectCategory rawText) in
    let description := generateDescription rawText in
    if negb (includes category CATEGORIES) then
      error category_error ;;;
      exit 1
    else
      log RULE ;;;
      log (lit "タイトル:     " ++ title) ;;;
      log (lit "カテゴリ:     " ++ category) ;;;
      log (lit "リード文:     " ++ description) ;;;
      log (lit "ライター:     " ++ or_else (writer o) (lit "(未設定)")) ;;;
      log (lit "おすすめ:     " ++ show_bool (featured o)) ;;;
      log (lit "アイキャッチ: " ++ decimal (N.of_nat (length (images o)))
           ++ lit "枚の候補") ;;;
      log RULE ;;;
      eyecatch <- eyecatchUpload w domain apiKey o (lit "アイキャッチ選定: ") ;;
      publish w domain apiKey o title html category description eyecatch
  end.

Definition script : world -> run unit := start main.

End Docx.

End Script.

(** ** The notification handler *)

Module Notify.

Record field : Type := Field {
  label : jsstring;
  value : option jsstring
}.

(** [req.body], when it is an object: [type] and [fields] may be missing. *)
Record body : Type := Body {
  type : option jsstring;
  fields : option (list field)
}.

Record request : Type := Request {
  method : jsstring;
  req_body : option body
}.

(** The blocks of the chat message. *)
Record blocks : Type := Blocks {
  header_text : jsstring;
  section_fields : list jsstring;
  context_text : jsstring
}.

Inductive json : Type :=
| ErrorJson (error : jsstring)    (** [{ error: ... }] *)
| OkJson.                         (** [{ ok: true }] *)

Inductive event : Type :=
| Respond (status : N) (payload : json)
    (** [res.status(status).json(payload)] *)
| ConsoleError (msg : jsstring)
| WebhookPost (url : jsstring) (message : blocks).
    (** the [fetch] to the chat webhook *)

Inductive webhook_reply : Type :=
| Answered (status : N) (text : jsstring)
| Failed (message : jsstring).

Record world : Type := World {
  SLACK_WEBHOOK_URL : option jsstring;
  now : jsstring;
    (** [new Date().toLocaleString('ja-JP', { timeZone: 'Asia/Tokyo' })] *)
  webhook : jsstring -> blocks -> webhook_reply
}.

Abbreviation run := (prog event).

Definition respond (status : N) (payload : json) : run unit :=
  emit (Respond status payload).

Definition field_text (f : field) : jsstring :=
  lit "*" ++ label f ++ lit (String "*" (String "010" EmptyString))
  ++ or_else (value f) (lit "(未入力)").

Definition handler (w : world) (req : request) : run unit :=
  if negb (eqb (method req) (lit "POST")) then
    respond 405 (ErrorJson (lit "Method not allowed"))
  else
  let webhookUrl := SLACK_WEBHOOK_URL w in
  if negb (truthy webhookUrl) then
    emit (ConsoleError (lit "SLACK_WEBHOOK_URL is not configured")) ;;;
    respond 500 (ErrorJson (lit "Slack webhook not configured"))
  else
  try_catch
    (b <- match req_body req with
          | Some b => ret b
          | None => throw (lit "Cannot destructure property 'type' of 'req.body' as it is undefined.")
          end ;;
     let title :=
       if match type b with Some t => eqb t (lit "career") | None => false end
       then lit ":briefcase: 中途採用エントリー"
       else lit ":mortar_board: インターンエントリー" in
     fs <- match fields b with
           | Some fs => ret fs
           | None => throw (lit "Cannot read properties of undefined (reading 'map')")
           end ;;
     let message :=
       {| header_text := title;
          section_fields := map field_text fs;
          context_text :=
            lit "送信元: <https://int-incubation.com|ARCHECO採用サイト> | "
            ++ now w |} in
     emit (WebhookPost (show webhookUrl) message) ;;;
     match webhook w (show webhookUrl) message with
     | Failed e => throw e
     | Answered status errText =>
       if negb (ok status) then
         emit (ConsoleError (lit "Slack webhook error: " ++ decimal status
                             ++ lit " " ++ errText)) ;;;
         respond 502 (ErrorJson (lit "Slack notification failed"))
       else respond 200 OkJson
     end)
    (fun e =>
       emit (ConsoleError (lit "Notification error: " ++ e)) ;;;
       respond 500 (ErrorJson (lit "Internal server error"))).

End Notify.

(** ** The read client, [src/lib/microcms.ts] *)

Module ReadClient.

Record Blog : Type := MkBlog {
  id : jsstring;
  blog_title : jsstring;
  blog_content : jsstring;
  blog_category : jsstring
}.

Record BlogResponse : Type := MkBlogResponse {
  totalCount : N;
  offset : N;
  limit : N;
  contents : list Blog
}.

(** The object [createClient] returns. *)
Record cmsClient : Type := MkClient {
  c_serviceDomain : jsstring;
  c_apiKey : jsstring
}.

Inductive event : Type :=
| CmsGetList (c : cmsClient) (queries : option jsstring)
| CmsGetOne (c : cmsClient) (contentId : jsstring).

Record world : Type := World {
  meta_env : gmap (list N) (list N);   (** [import.meta.env] *)
  cms_list : option jsstring -> BlogResponse + jsstring;
  cms_get : jsstring -> Blog + jsstring
}.

Abbreviation run := (prog event).

Definition serviceDomain (w : world) : jsstring :=
  or_else (meta_env w !! lit "MICROCMS_SERVICE_DOMAIN") [].

Definition apiKey (w : world) : jsstring :=
  or_else (meta_env w !! lit "MICROCMS_API_KEY") [].

(** [serviceDomain && apiKey ? createClient({...}) : null] *)
Definition client (w : world) : option cmsClient :=
  match serviceDomain w, apiKey w with
  | _ :: _, _ :: _ => Some (MkClient (serviceDomain w) (apiKey w))
  | _, _ => None
  end.

Definition getBlogs (w : world) (queries : option jsstring)
  : run BlogResponse :=
  match client w with
  | None =>
    ret {| totalCount := 0; offset := 0; limit := 0; contents := [] |}
  | Some c =>
    emit (CmsGetList c queries) ;;;
    match cms_list w queries with
    | inl r => ret r
    | inr e => throw e
    end
  end.

Definition getBlogDetail (w : world) (contentId : jsstring) : run Blog :=
  match client w with
  | None => throw (lit "microCMS client is not configured")
  | Some c =>
    emit (CmsGetOne c contentId) ;;;
    match cms_get w contentId with
    | inl b => ret b
    | inr e => throw e
    end
  end.

End ReadClient.


(** * Specification side

    Definitions that follow the words of the specification, and the inputs
    of its scenarios. *)

Module Spec.

(** The escape of one character: only [&], [<] and [>] change. *)
Definition esc_char (c : char16) : jsstring :=
  if c =? 38 then lit "&amp;"
  else if c =? 60 then lit "&lt;"
  else if c =? 62 then lit "&gt;"
  else [c].

(** The number of positions of [hay] at which [needle] occurs. *)
Fixpoint occurrences (needle hay : jsstring) : nat :=
  match hay with
  | [] => O
  | _ :: r =>
    ((if startsWith needle hay then 1 else 0) + occurrences needle r)%nat
  end.

(** The elements [textToHtml] pushes on [html]: the two list markers, and
    blocks whose content went through [esc]. *)
Definition block_tags : list jsstring :=
  [lit "h1"; lit "h2"; lit "h3"; lit "li"; lit "p"].

Inductive element : jsstring -> Prop :=
| el_open : element UL_OPEN
| el_close : element UL_CLOSE
| el_block tag content : In tag block_tags -> element (wrap tag content).

(** How many entries of an array are the string [x]. *)
Definition count_entries (x : jsstring) (l : list jsstring) : nat :=
  length (List.filter (eqb x) l).

(** The state of the conversion keeps the list markers in step: one more
    opened than closed exactly while a list is open. *)
Definition balanced (st : conv_state) : Prop :=
  Forall element (html st)
  /\ count_entries UL_OPEN (html st)
     = (count_entries UL_CLOSE (html st) + if inList st then 1 else 0)%nat.

(** *** Text, in the words of the specification

    Lines, blank lines, trimming, heading markers, collapsing and cutting
    are defined here on their own, on the code units of a text, without any
    of the functions of the embedded code. *)

(** White space: the code units ECMAScript counts as WhiteSpace or
    LineTerminator. *)
Definition white_space : list char16 :=
  [9; 10; 11; 12; 13; 32; 160; 5760;
   8192; 8193; 8194; 8195; 8196; 8197; 8198; 8199; 8200; 8201; 8202;
   8232; 8233; 8239; 8287; 12288; 65279].

Definition white (c : char16) : bool := existsb (N.eqb c) white_space.

(** The lines of a text: what stands before the first newline, between two
    newlines and behind the last. *)
Definition lines (text : jsstring) : list jsstring :=
  fold_right
    (fun c acc =>
       if c =? 10 then [] :: acc
       else match acc with
            | l :: ls => (c :: l) :: ls
            | [] => [[c]]
            end)
    [[]] text.

(** A line is blank when it holds nothing but white space. *)
Definition blank (l : jsstring) : bool := forallb white l.

(** The first non-blank line of a text. *)
Definition first_non_blank (text : jsstring) : option jsstring :=
  find (fun l => negb (blank l)) (lines text).

(** The non-blank lines of a text, in order. *)
Definition non_blank_lines (text : jsstring) : list jsstring :=
  List.filter (fun l => negb (blank l)) (lines text).

(** A string without the characters of a kind that lead it, and without
    those that end it. *)
Fixpoint without_leading (p : char16 -> bool) (s : jsstring) : jsstring :=
  match s with
  | c :: r => if p c then without_leading p r else s
  | [] => []
  end.

Definition without_trailing (p : char16 -> bool) (s : jsstring) : jsstring :=
  fold_right
    (fun c kept =>
       match kept with
       | [] => if p c then [] else [c]
       | _ :: _ => c :: kept
       end)
    [] s.

(** Surrounding white space trimmed. *)
Definition trimmed (s : jsstring) : jsstring :=
  without_trailing white (without_leading white s).

(** Leading heading markers stripped: the [#] characters the line starts
    with. *)
Definition unmarked (l : jsstring) : jsstring :=
  without_leading (fun c => c =? 35) l.

(** The ellipsis marker: three full stops. *)
Definition ellipsis : jsstring := [46; 46; 46].

(** A string cut to at most [limit] characters, the last three of which are
    the ellipsis when something was cut. *)
Definition truncated (limit : nat) (s : jsstring) : jsstring :=
  if (length s <=? limit)%nat then s
  else firstn (limit - 3) s ++ ellipsis.

(** The placeholder of a text without a title, [無題の記事], in code
    units. *)
Definition untitled : jsstring := [28961; 38988; 12398; 35352; 20107].

(** The title: the first non-blank line without its heading markers,
    trimmed and cut to 60 characters; the placeholder when every line is
    blank. *)
Definition deriveTitle (text : jsstring) : jsstring :=
  match first_non_blank text with
  | None => untitled
  | Some l => truncated 60 (trimmed (unmarked l))
  end.

(** Strings joined with single spaces. *)
Fixpoint spaced (ls : list jsstring) : jsstring :=
  match ls with
  | [] => []
  | [l] => l
  | l :: r => l ++ 32 :: spaced r
  end.

(** Consecutive white space collapsed: every run of white space is one
    space. A white character before another one goes, the last of a run
    becomes the space. *)
Fixpoint squeeze (s : jsstring) : jsstring :=
  match s with
  | [] => []
  | c :: r =>
    if white c then
      match r with
      | d :: _ => if white d then squeeze r else 32 :: squeeze r
      | [] => [32]
      end
    else c :: squeeze r
  end.

(** No white space but single spaces, none next to another. *)
Fixpoint single_spaced (s : jsstring) : bool :=
  match s with
  | [] => true
  | c :: r =>
    (if white c
     then (c =? 32) && match r with
                       | d :: _ => negb (white d)
                       | [] => true
                       end
     else true) && single_spaced r
  end.

(** The body of the description: the non-blank lines behind the first,
    joined by single spaces, white space collapsed, trimmed. *)
Definition description_body (text : jsstring) : jsstring :=
  trimmed (squeeze (spaced (skipn 1 (non_blank_lines text)))).

(** The description: the body cut to 120 characters. *)
Definition deriveDescription (text : jsstring) : jsstring :=
  truncated 120 (description_body text).

(** *** Occurrences of a keyword, case ignored *)

(** The lower-case form of an ASCII letter; every other code unit stands
    for itself. *)
Definition lower_case (c : char16) : char16 :=
  if (65 <=? c) && (c <=? 90) then c + 32 else c.

(** [kw] stands at the start of [hay], up to the case of letters. *)
Fixpoint occurs_at (kw hay : jsstring) : bool :=
  match kw, hay with
  | [], _ => true
  | a :: kw', b :: hay' =>
    (lower_case a =? lower_case b) && occurs_at kw' hay'
  | _ :: _, [] => false
  end.

(** The number of matches the scan of [detectCategory] finds for one
    keyword, and their sum over the keywords of a label. *)
Definition keyword_count (text kw : jsstring) : nat :=
  length (regex_matches_ci kw 0 text).

Definition label_score (text : jsstring) (keywords : list jsstring) : nat :=
  list_sum (map (keyword_count text) keywords).

(** The number of positions of [hay] at which [kw] occurs, case ignored. *)
Fixpoint occurrences_ci (kw hay : jsstring) : nat :=
  match hay with
  | [] => O
  | _ :: r =>
    ((if occurs_at kw hay then 1 else 0) + occurrences_ci kw r)%nat
  end.

(** The four labels in declared order, each with its keywords. *)
Definition keyword_table : list (jsstring * list jsstring) :=
  [ (lit "インタビュー",
      [lit "インタビュー"; lit "聞いて"; lit "話を"; lit "Q&A"; lit "質問";
       lit "入社理由"; lit "一日の流れ"; lit "先輩"; lit "社員紹介"]);
    (lit "社風",
      [lit "社風"; lit "雰囲気"; lit "カルチャー"; lit "文化"; lit "チーム";
       lit "職場"; lit "オフィス"; lit "働き方"; lit "コミュニケーション"]);
    (lit "制度",
      [lit "制度"; lit "福利厚生"; lit "研修"; lit "評価"; lit "休暇";
       lit "手当"; lit "キャリア"; lit "教育"; lit "支援"]);
    (lit "イベント",
      [lit "イベント"; lit "懇親会"; lit "勉強会"; lit "セミナー"; lit "交流";
       lit "開催"; lit "参加"; lit "ハッカソン"; lit "忘年会"]) ].

(** The score of the [i]-th label in declared order: the occurrences of its
    keywords in the text, case ignored, summed over the keywords. *)
Definition score (text : jsstring) (i : nat) : nat :=
  list_sum (map (fun kw => occurrences_ci kw text)
              (snd (nth i keyword_table ([], [])))).

(** A keyword none of whose proper suffixes is a prefix of it: two of its
    occurrences cannot overlap. *)
Definition unbordered (kw : jsstring) : bool :=
  forallb (fun d => negb (matches_here_ci (skipn d kw) kw))
    (seq 1 (length kw - 1)).

(** A character with a meaning of its own in a regular expression. *)
Definition regex_special (c : char16) : bool :=
  existsb (N.eqb c) (lit "\^$.|?*+()[]{}/").

(** The size that takes part in the choice of the eyecatch. *)
Definition size_or_zero (stat : jsstring -> option N) (p : jsstring) : N :=
  match stat p with
  | Some n => n
  | None => 0
  end.

(** What the loop of [selectBestImage] has settled after the paths [seen]:
    [best] is the earliest of them whose size is the largest, a size that is
    not known counting as zero. *)
Definition first_largest (stat : jsstring -> option N) (seen : list jsstring)
  (acc : jsstring * N) : Prop :=
  exists i : nat,
    nth_error seen i = Some (fst acc)
    /\ snd acc = size_or_zero stat (fst acc)
    /\ Forall (fun q => size_or_zero stat q <= snd acc) seen
    /\ Forall (fun q => size_or_zero stat q < snd acc) (firstn i seen).

(** The selector as the specification words it: a path without a known size
    takes no part, so the path returned has a known size, the largest. *)
Definition largest_known (stat : jsstring -> option N) (paths : list jsstring)
  (p : jsstring) : Prop :=
  exists n, stat p = Some n
            /\ Forall (fun q => match stat q with
                                | Some m => m <= n
                                | None => True
                                end) paths.

(** A directory in which [a.png] is missing and [b.png] is empty. *)
Definition stat_missing_and_empty (p : jsstring) : option N :=
  if eqb p (lit "b.png") then Some 0 else None.

(** Two files of 10 and 20 bytes. *)
Definition stat_10_20 (p : jsstring) : option N :=
  if eqb p (lit "small.png") then Some 10
  else if eqb p (lit "large.png") then Some 20
  else None.

(** The scenario of the specification. *)
Definition SAMPLE : jsstring :=
  lit "# Hello" ++ [NEWLINE; NEWLINE] ++ lit "This is a test about 研修."
  ++ [NEWLINE].

(** A machine on which the script is configured and [post.md] holds the
    scenario; the content service answers every creation with an id. *)
Definition configured : gmap (list N) (list N) :=
  <[Script.DOMAIN_VAR := lit "archeco"]>
    (<[Script.KEY_VAR := lit "secret"]> ∅).

Definition text_file (content : jsstring) : Script.file :=
  {| Script.file_bytes := []; Script.file_text := content;
     Script.file_docx := None |}.

Definition sample_files (p : jsstring) : option Script.file :=
  if eqb p (lit "post.md") then Some (text_file SAMPLE) else None.

Definition sample_world : Script.world :=
  {| Script.argv := [lit "--text"; lit "post.md"];
     Script.environ := configured;
     Script.dotenv := None;
     Script.files := sample_files;
     Script.media := fun _ _ => Script.Unreachable (lit "offline");
     Script.cms := fun _ => inl (lit "entry-1") |}.

Definition sample_record : Script.postData :=
  {| Script.pd_title := lit "Hello";
     Script.pd_content :=
       lit "<h1>Hello</h1>" ++ [NEWLINE]
       ++ lit "<p>This is a test about 研修.</p>";
     Script.pd_category := [lit "制度"];
     Script.pd_description := lit "This is a test about 研修.";
     Script.pd_is_featured := false;
     Script.pd_writer := None;
     Script.pd_eyecatch := None |}.

(** The same machine with a Word document that embeds one PNG image, and a
    category on the command line that is not one of the four labels; the
    media endpoint accepts every upload. *)
Definition one_image_doc : Script.docx_doc :=
  {| Script.doc_images :=
       [ {| Script.img_contentType := lit "image/png";
            Script.img_data := Some [137; 80; 78; 71] |} ];
     Script.doc_html := fun srcs =>
       flat_map (fun src => lit "<p><img src=" ++ QUOTE ++ src ++ QUOTE
                           ++ lit " /></p>") srcs;
     Script.doc_rawText := SAMPLE;
     Script.doc_messages := [] |}.

Definition docx_files (p : jsstring) : option Script.file :=
  if eqb p (lit "post.docx")
  then Some {| Script.file_bytes := [80; 75; 3; 4]; Script.file_text := [];
               Script.file_docx := Some one_image_doc |}
  else None.

Definition docx_world : Script.world :=
  {| Script.argv := [lit "--text"; lit "post.docx";
                     lit "--category"; lit "ニュース"];
     Script.environ := configured;
     Script.dotenv := None;
     Script.files := docx_files;
     Script.media := fun _ _ =>
       Script.Responded 200 [] (lit "https://images.example/1.png");
     Script.cms := fun _ => inl (lit "entry-1") |}.

(** The same command line on a text source. *)
Definition bad_category_world : Script.world :=
  {| Script.argv := [lit "--text"; lit "post.md";
                     lit "--category"; lit "ニュース"];
     Script.environ := configured;
     Script.dotenv := None;
     Script.files := sample_files;
     Script.media := fun _ _ =>
       Script.Responded 200 [] (lit "https://images.example/1.png");
     Script.cms := fun _ => inl (lit "entry-1") |}.

(** The same text source with an empty string for the category. *)
Definition empty_category_world : Script.world :=
  {| Script.argv := [lit "--text"; lit "post.md"; lit "--category"; []];
     Script.environ := configured;
     Script.dotenv := None;
     Script.files := sample_files;
     Script.media := fun _ _ => Script.Unreachable (lit "offline");
     Script.cms := fun _ => inl (lit "entry-1") |}.

(** The options the command line of a run amounts to. *)
Definition parsed (w : Script.world) : Script.opts :=
  match result (Script.parseArgs w) with
  | Return o => o
  | _ => Script.opts0
  end.

(** The command line names a category, and it is not one of the four. *)
Definition bad_override (w : Script.world) : Prop :=
  truthy (Script.category (parsed w)) = true
  /\ includes (show (Script.category (parsed w))) CATEGORIES = false.

(** Nothing in the trace went to the network. *)
Definition offline (t : list Script.event) : Prop :=
  List.filter Script.isNetwork t = [].

(** A string of code units below 256, which can be the value of a header. *)
Definition latin1 (s : jsstring) : bool := forallb (fun c => c <? 256) s.

(** The upload of [buffer] under [fileName] is sent: the key, the content
    type and the file name can stand in headers, and [fetch] does not
    refuse the request. *)
Definition sent (w : Script.world) (apiKey contentType fileName : jsstring)
  (buffer : list N) : bool :=
  latin1 apiKey && latin1 contentType && latin1 fileName
  && match Script.media w fileName buffer with
     | Script.Refused _ => false
     | _ => true
     end.

(** A [.env] file with a comment, quotes and spaces. *)
Definition sample_dotenv : jsstring :=
  lit "# microCMS" ++ [NEWLINE]
  ++ lit "MICROCMS_SERVICE_DOMAIN = archeco " ++ [NEWLINE]
  ++ lit "MICROCMS_API_KEY='secret'" ++ [NEWLINE].

Definition dotenv_world : Script.world :=
  {| Script.argv := [lit "--text"; lit "post.md"; lit "--dry-run"];
     Script.environ := ∅;
     Script.dotenv := Some sample_dotenv;
     Script.files := sample_files;
     Script.media := fun _ _ => Script.Unreachable (lit "offline");
     Script.cms := fun _ => inr (lit "offline") |}.

(** A form submission. *)
Definition career_request : Notify.request :=
  {| Notify.method := lit "POST";
     Notify.req_body :=
       Some {| Notify.type := Some (lit "career");
               Notify.fields :=
                 Some [ {| Notify.label := lit "name";
                           Notify.value := Some (lit "Aoki") |};
                        {| Notify.label := lit "note";
                           Notify.value := None |} ] |} |}.

(** A machine without any configuration. *)
Definition bare_world : Script.world :=
  {| Script.argv := [lit "--text"; lit "post.md"];
     Script.environ := ∅;
     Script.dotenv := None;
     Script.files := sample_files;
     Script.media := fun _ _ => Script.Unreachable (lit "offline");
     Script.cms := fun _ => inl (lit "entry-1") |}.

Definition bare_site : ReadClient.world :=
  {| ReadClient.meta_env := ∅;
     ReadClient.cms_list := fun _ => inr (lit "unauthorized");
     ReadClient.cms_get := fun _ => inr (lit "unauthorized") |}.

(** The configuration is missing: after [.env] has been read, the service
    domain or the key is absent or empty. *)
Definition script_unconfigured (w : Script.world) : Prop :=
  truthy (Script.loadEnv w !! Script.DOMAIN_VAR) = false
  \/ truthy (Script.loadEnv w !! Script.KEY_VAR) = false.

Definition site_unconfigured (w : ReadClient.world) : Prop :=
  truthy (ReadClient.meta_env w !! lit "MICROCMS_SERVICE_DOMAIN") = false
  \/ truthy (ReadClient.meta_env w !! lit "MICROCMS_API_KEY") = false.

Definition empty_response : ReadClient.BlogResponse :=
  {| ReadClient.totalCount := 0; ReadClient.offset := 0;
     ReadClient.limit := 0; ReadClient.contents := [] |}.

(** A request to the notification handler that is not a POST. *)
Definition get_request : Notify.request :=
  {| Notify.method := lit "GET"; Notify.req_body := None |}.

Definition notify_world : Notify.world :=
  {| Notify.SLACK_WEBHOOK_URL := Some (lit "https://hooks.example/T0");
     Notify.now := lit "2025/1/1 9:00:00";
     Notify.webhook := fun _ _ => Notify.Answered 200 (lit "ok") |}.

End Spec.

Import Spec.

(** * Further specification-side definitions *)

Module Runs.

(** What may happen before the record is assembled: console output, and
    uploads unless the run is a dry run; never a creation. *)
Definition before_publish (dry : bool) (e : Script.event) : Prop :=
  match e with
  | Script.CmsCreate _ _ _ => False
  | Script.MediaUpload _ _ _ _ _ => dry = false
  | _ => True
  end.

Definition isCreate (e : Script.event) : bool :=
  match e with
  | Script.CmsCreate _ _ _ => true
  | _ => false
  end.

Definition isUpload (e : Script.event) : bool :=
  match e with
  | Script.MediaUpload _ _ _ _ _ => true
  | _ => false
  end.

(** A record the content service may receive: one category, of the four,
    and a description of at most 120 characters. *)
Definition valid_record (d : Script.postData) : bool :=
  match Script.pd_category d with
  | [c] => includes c CATEGORIES
  | _ => false
  end && (length (Script.pd_description d) <=? 120)%nat.

(** The embedded images whose data mammoth can read. *)
Definition readable (imgs : list Script.docx_image) : nat :=
  length (List.filter
            (fun i => match Script.img_data i with
                      | Some _ => true
                      | None => false
                      end) imgs).

Definition uploads (t : list Script.event) : nat :=
  length (List.filter isUpload t).

(** The file name of the [idx]-th embedded image. *)
Definition docx_image_name (idx : N) (image : Script.docx_image) : jsstring :=
  lit "docx-image-" ++ decimal idx
  ++ (if eqb (Script.img_contentType image) (lit "image/png")
      then lit ".png" else lit ".jpg").

(** The [idx]-th embedded image goes to the media endpoint: its data can be
    read and its upload is sent. *)
Definition image_sent (w : Script.world) (apiKey : jsstring) (idx : N)
  (image : Script.docx_image) : bool :=
  match Script.img_data image with
  | Some data =>
    sent w apiKey (Script.img_contentType image) (docx_image_name idx image)
      data
  | None => false
  end.

(** How many of the images behind the first [idx] go to the media
    endpoint. *)
Fixpoint images_sent (w : Script.world) (apiKey : jsstring) (idx : N)
  (imgs : list Script.docx_image) : nat :=
  match imgs with
  | [] => 0
  | image :: rest =>
    ((if image_sent w apiKey (idx + 1) image then 1 else 0)
     + images_sent w apiKey (idx + 1) rest)%nat
  end.

(** [fetch] refuses no upload: the URL of the media endpoint is one it can
    parse, and it takes the headers it is given. *)
Definition accepting (w : Script.world) : Prop :=
  forall fileName buffer,
    match Script.media w fileName buffer with
    | Script.Refused _ => False
    | _ => True
    end.

(** The record [main] assembles. *)
Definition assemble (o : Script.opts)
  (title content category description : jsstring)
  (eyecatch : option jsstring) : Script.postData :=
  {| Script.pd_title := title; Script.pd_content := content;
     Script.pd_category := [category];
     Script.pd_description := description;
     Script.pd_is_featured := Script.featured o;
     Script.pd_writer :=
       if truthy (Script.writer o) then Script.writer o else None;
     Script.pd_eyecatch := if truthy eyecatch then eyecatch else None |}.

(** How a run of [main] can end: refused or failed before the record exists,
    or with [publish] on a record whose fields come from the source text
    [raw] and the options. *)
Definition main_shape (w : Script.world) (domain apiKey : jsstring)
  (m : Script.run unit) : Prop :=
  exists t,
    Forall (before_publish (Script.dryRun (parsed w))) t
    /\ (m = (t, Exit 1)
        \/ (exists e, m = (t, Throw e))
        \/ (exists raw content eyecatch,
              let title :=
                or_else (Script.title (parsed w)) (generateTitle raw) in
              let category :=
                or_else (Script.category (parsed w)) (detectCategory raw) in
              let p := Script.publish w domain apiKey (parsed w) title content
                         category (generateDescription raw) eyecatch in
              includes category CATEGORIES = true
              /\ m = (t ++ trace p, result p))).

(** The events of a trace that are worth a check when they are creations. *)
Definition creations_satisfy (P : Script.postData -> Prop)
  (t : list Script.event) : Prop :=
  Forall (fun e => match e with
                   | Script.CmsCreate _ _ d => P d
                   | _ => True
                   end) t.

(** A command line without a source, on the configured machine. *)
Definition no_source_world : Script.world :=
  {| Script.argv := [lit "--featured"; lit "--text"];
     Script.environ := configured;
     Script.dotenv := None;
     Script.files := sample_files;
     Script.media := fun _ _ => Script.Unreachable (lit "offline");
     Script.cms := fun _ => inl (lit "entry-1") |}.

(** What a run shows of its work: what it sends, and the record a dry run
    prints. *)
Definition observable (e : Script.event) : bool :=
  match e with
  | Script.MediaUpload _ _ _ _ _ | Script.CmsCreate _ _ _
  | Script.ConsoleLogJson _ => true
  | _ => false
  end.

(** A machine whose [.env] tries to replace a key that is already set. *)
Definition override_world : Script.world :=
  {| Script.argv := [];
     Script.environ := configured;
     Script.dotenv := Some (lit "MICROCMS_API_KEY=from-file");
     Script.files := sample_files;
     Script.media := fun _ _ => Script.Unreachable (lit "offline");
     Script.cms := fun _ => inl (lit "entry-1") |}.


(** The options after the arguments [imgs] have been taken as images. *)
Definition add_images (imgs : list jsstring) (o : Script.opts) : Script.opts :=
  fold_left (fun o i => Script.push_image i o) imgs o.

(** An argument that ends the list of images: it starts with [-]. *)
Definition dashed (arg : jsstring) : bool := startsWith (lit "-") arg.

Definition images_world : Script.world :=
  {| Script.argv := [lit "--images"; lit "a.png"; lit "b.png";
                     lit "--dry-run"; lit "--text"; lit "post.md"];
     Script.environ := configured;
     Script.dotenv := None;
     Script.files := sample_files;
     Script.media := fun _ _ => Script.Unreachable (lit "offline");
     Script.cms := fun _ => inl (lit "entry-1") |}.

(** Events of the notification handler. *)
Definition isRespond (e : Notify.event) : bool :=
  match e with
  | Notify.Respond _ _ => true
  | _ => false
  end.

Definition isPost (e : Notify.event) : bool :=
  match e with
  | Notify.WebhookPost _ _ => true
  | _ => false
  end.

(** The submission reached the chat: the webhook was posted to and answered
    with a success status. *)
Definition delivered (w : Notify.world) (t : list Notify.event) : Prop :=
  exists url message status text,
    Notify.SLACK_WEBHOOK_URL w = Some url
    /\ In (Notify.WebhookPost url message) t
    /\ Notify.webhook w url message = Notify.Answered status text
    /\ ok status = true.

(** The status the handler answers with once the webhook has replied. *)
Definition reply_status (r : Notify.webhook_reply) : N :=
  match r with
  | Notify.Answered status _ => if ok status then 200 else 502
  | Notify.Failed _ => 500
  end.

(** The content types of the images the media endpoint is sent. *)
Definition image_types : list jsstring :=
  [lit "image/jpeg"; lit "image/png"; lit "image/webp"; lit "image/gif"].

(** The content type that goes with an extension in lower case: PNG, WebP
    and GIF by their extension, JPEG for everything else. *)
Definition image_type (ext : jsstring) : jsstring :=
  if eqb ext (lit ".png") then lit "image/png"
  else if eqb ext (lit ".webp") then lit "image/webp"
  else if eqb ext (lit ".gif") then lit "image/gif"
  else lit "image/jpeg".

(** A directory with a cover in PNG under a Japanese and under an ASCII
    name; the media endpoint accepts every upload. *)
Definition cover_files (p : jsstring) : option Script.file :=
  if eqb p (lit "img/表紙.PNG") || eqb p (lit "img/cover.PNG")
  then Some {| Script.file_bytes := [137; 80; 78; 71];
               Script.file_text := []; Script.file_docx := None |}
  else None.

Definition cover_world : Script.world :=
  {| Script.argv := [];
     Script.environ := configured;
     Script.dotenv := None;
     Script.files := cover_files;
     Script.media := fun _ _ =>
       Script.Responded 200 [] (lit "https://images.example/1.png");
     Script.cms := fun _ => inl (lit "entry-1") |}.

End Runs.

Module Html.

(** What an entry of the array [html] is, by its opening tag. *)
Inductive kind : Set := KOpen | KClose | KItem | KBlock | KOther.

Definition classify (e : jsstring) : kind :=
  if eqb e UL_OPEN then KOpen
  else if eqb e UL_CLOSE then KClose
  else if startsWith (lit "<li>") e then KItem
  else if startsWith (lit "<h1>") e || startsWith (lit "<h2>") e
          || startsWith (lit "<h3>") e || startsWith (lit "<p>") e
  then KBlock
  else KOther.

(** A reader of the array: outside a list, just behind [<ul>], or behind an
    item of a list. *)
Inductive mode : Set := Outside | Opened | Inside.

Definition read (m : option mode) (e : jsstring) : option mode :=
  match m, classify e with
  | Some Outside, KOpen => Some Opened
  | Some Outside, KBlock => Some Outside
  | Some Opened, KItem => Some Inside
  | Some Inside, KItem => Some Inside
  | Some Inside, KClose => Some Outside
  | _, _ => None
  end.

(** The array is a sequence of headings, paragraphs and lists, where a list
    is [<ul>], one item or more, and [</ul>]: no list inside a list, no item
    outside a list, no list left open. *)
Definition well_nested (l : list jsstring) : bool :=
  match fold_left read l (Some Outside) with
  | Some Outside => true
  | _ => false
  end.

(** During the conversion the reader is inside a list exactly when
    [inList] says so. *)
Definition reads_to (st : conv_state) : Prop :=
  fold_left read (html st) (Some Outside)
  = Some (if inList st then Inside else Outside).

(** The characters that follow [<] in the tags of [textToHtml]:
    [h], [l], [p], [u] and [/]. *)
Definition tag_letters : list char16 := [104; 108; 112; 117; 47].

(** The text of a heading or of an item as the patterns capture it whole:
    not empty, no white space at either end, no line terminator inside. *)
Definition plain_content (s : jsstring) : bool :=
  match s, rev s with
  | c :: _, d :: _ =>
    negb (isWhite c) && negb (isWhite d)
    && forallb (fun x => negb (isLineTerminator x)) s
  | _, _ => false
  end.

(** The tag of the heading of level [n]. *)
Definition heading_tag (n : nat) : jsstring := [104; 48 + N.of_nat n].

End Html.

Import Html.

Import Runs.

(** * [optimizeImage], of the revision of [src/lib/microcms.ts] that has it *)

Module Imgix.

(** ** [URLSearchParams]: the serializer of the URL standard *)

(** The UTF-8 bytes of a string; a surrogate that is not half of a pair
    becomes U+FFFD. *)
Definition utf8_of_code_point (cp : N) : list N :=
  if cp <? 128 then [cp]
  else if cp <? 2048 then
    [N.lor 192 (N.shiftr cp 6); N.lor 128 (N.land cp 63)]
  else if cp <? 65536 then
    [N.lor 224 (N.shiftr cp 12); N.lor 128 (N.land (N.shiftr cp 6) 63);
     N.lor 128 (N.land cp 63)]
  else
    [N.lor 240 (N.shiftr cp 18); N.lor 128 (N.land (N.shiftr cp 12) 63);
     N.lor 128 (N.land (N.shiftr cp 6) 63); N.lor 128 (N.land cp 63)].

Definition isHigh (c : char16) : bool := (55296 <=? c) && (c <=? 56319).
Definition isLow (c : char16) : bool := (56320 <=? c) && (c <=? 57343).

Fixpoint utf8_of_utf16 (s : jsstring) : list N :=
  match s with
  | [] => []
  | c :: r =>
    if isHigh c then
      match r with
      | d :: r' =>
        if isLow d
        then utf8_of_code_point (65536 + (c - 55296) * 1024 + (d - 56320))
             ++ utf8_of_utf16 r'
        else utf8_of_code_point 65533 ++ utf8_of_utf16 r
      | [] => utf8_of_code_point 65533
      end
    else if isLow c then utf8_of_code_point 65533 ++ utf8_of_utf16 r
    else utf8_of_code_point c ++ utf8_of_utf16 r
  end.

(** The bytes the form serializer leaves as they are: ASCII letters and
    digits, [*], [-], [.] and [_]. *)
Definition unreserved (b : N) : bool :=
  ((48 <=? b) && (b <=? 57)) || ((65 <=? b) && (b <=? 90))
  || ((97 <=? b) && (b <=? 122))
  || (b =? 42) || (b =? 45) || (b =? 46) || (b =? 95).

Definition hex_digit (n : N) : char16 :=
  if n <? 10 then 48 + n else 55 + n.

Definition encode_byte (b : N) : jsstring :=
  if b =? 32 then [43]
  else if unreserved b then [b]
  else [37; hex_digit (N.land (N.shiftr b 4) 15); hex_digit (N.land b 15)].

Definition form_encode (s : jsstring) : jsstring :=
  flat_map encode_byte (utf8_of_utf16 s).

(** [params.toString()] for a list of names and values. *)
Definition serialize (params : list (jsstring * jsstring)) : jsstring :=
  join (lit "&")
    (map (fun p => form_encode (fst p) ++ lit "=" ++ form_encode (snd p))
       params).

(** [params.set(name, value)] for a name that is not yet there; the five
    names of the function differ. *)
Definition set (name value : jsstring) (params : list (jsstring * jsstring))
  : list (jsstring * jsstring) :=
  params ++ [(name, value)].

Section Numbers.

(** A JavaScript number, with [String(n)], its truthiness, and 80. *)
Variable number : Type.
Variable String_of : number -> jsstring.
Variable truthy_number : number -> bool.
Variable eighty : number.

Record options : Type := Options {
  w : option number;
  h : option number;
  q : option number;
  fm : option jsstring;
  fit : option jsstring
}.

(** [options = {}] *)
Definition no_options : options :=
  {| w := None; h := None; q := None; fm := None; fit := None |}.

(** [v = d] in a destructuring pattern: the default stands in for
    [undefined] only. *)
Definition default {A} (v : option A) (d : A) : A :=
  match v with
  | Some x => x
  | None => d
  end.

Definition set_if_truthy (name : jsstring) (v : option number)
  (params : list (jsstring * jsstring)) : list (jsstring * jsstring) :=
  match v with
  | Some n => if truthy_number n then set name (String_of n) params else params
  | None => params
  end.

Definition build_params (o : options) : list (jsstring * jsstring) :=
  let q := default (q o) eighty in
  let fm := default (fm o) (lit "webp") in
  let fit := default (fit o) (lit "crop") in
  let params := [] in
  let params := set_if_truthy (lit "w") (w o) params in
  let params := set_if_truthy (lit "h") (h o) params in
  let params := set (lit "fm") fm params in
  let params := set (lit "q") (String_of q) params in
  set (lit "fit") fit params.

Definition optimizeImage (url : jsstring) (o : options) : jsstring :=
  let params := build_params o in
  let separator := if existsb (N.eqb 63) url then lit "&" else lit "?" in
  url ++ separator ++ serialize params.

End Numbers.

(** Whole numbers as an instance. *)
Definition optimizeImageN : jsstring -> options N -> jsstring :=
  optimizeImage N decimal (fun n => negb (n =? 0)) 80.

(** How often a character occurs. *)
Definition count_char (c : char16) (s : jsstring) : nat :=
  length (List.filter (N.eqb c) s).

(** The characters of a serialized value: unreserved ones, [+] and [%]. *)
Definition value_char (c : char16) : bool :=
  unreserved c || (c =? 43) || (c =? 37).

(** The characters of a serialized list of parameters. *)
Definition query_char (c : char16) : bool :=
  value_char c || (c =? 61) || (c =? 38).

Definition cover_options : options N :=
  {| w := Some 640; h := Some 0; q := None;
     fm := Some (lit "avif&w=9"); fit := Some (lit "fill max") |}.

End Imgix.
(** * Properties *)

(** ** Strings *)

Lemma eqb_eq (a b : jsstring) : eqb a b = true <-> a = b.
Proof.
  revert b; induction a as [|x a IH]; intros [|y b]; simpl; split;
    try congruence; try reflexivity.
  - intros H. apply andb_true_iff in H as [Hx Hab].
    apply N.eqb_eq in Hx. apply IH in Hab. congruence.
  - intros H. injection H as -> ->. rewrite N.eqb_refl. simpl.
    now apply IH.
Qed.

Lemma eqb_neq (a b : jsstring) : eqb a b = false <-> a <> b.
Proof.
  rewrite <- eqb_eq. destruct (eqb a b); split; congruence.
Qed.

(** ** Runs *)

Lemma bind_ret_l {E A B} (a : A) (k : A -> prog E B) :
  Eff.bind (ret a) k = k a.
Proof. unfold Eff.bind, ret. now destruct (k a). Qed.

Lemma bind_ret_r {E A} (m : prog E A) : Eff.bind m ret = m.
Proof.
  destruct m as [t [a | c | e]]; cbn; [|reflexivity..].
  now rewrite app_nil_r.
Qed.

Lemma bind_assoc {E A B C} (m : prog E A) (k : A -> prog E B)
  (h : B -> prog E C) :
  Eff.bind (Eff.bind m k) h = Eff.bind m (fun a => Eff.bind (k a) h).
Proof.
  destruct m as [t [a | c | e]]; cbn; [|reflexivity..].
  destruct (k a) as [t1 [b | c | e]]; cbn; [|reflexivity..].
  destruct (h b) as [t2 r]. now rewrite app_assoc.
Qed.

(** [process.exit] ends the run whatever follows, also inside [try]. *)
Lemma exit_bind {E A B} (code : N) (k : A -> prog E B) :
  Eff.bind (exit code) k = exit code.
Proof. reflexivity. Qed.

Lemma exit_try_catch {E A} (code : N) (h : jsstring -> prog E A) :
  try_catch (exit code) h = exit code.
Proof. reflexivity. Qed.

(** ** Escaping *)

Lemma replaceAll_app (c : char16) (rep a b : jsstring) :
  replaceAll c rep (a ++ b) = replaceAll c rep a ++ replaceAll c rep b.
Proof. unfold replaceAll. apply flat_map_app. Qed.

Lemma esc_app (a b : jsstring) : esc (a ++ b) = esc a ++ esc b.
Proof. unfold esc. now rewrite !replaceAll_app. Qed.

Lemma esc_one (c : char16) : esc [c] = esc_char c.
Proof.
  unfold esc, esc_char, replaceAll. simpl.
  destruct (c =? 38) eqn:E38; [reflexivity|].
  simpl. destruct (c =? 60) eqn:E60; [reflexivity|].
  simpl. destruct (c =? 62) eqn:E62; reflexivity.
Qed.

(** The three replacements in a row are one pass that escapes each
    character once. *)
Lemma esc_flat_map (s : jsstring) : esc s = flat_map esc_char s.
Proof.
  induction s as [|c s IH]; [reflexivity|].
  change (c :: s) with ([c] ++ s).
  rewrite esc_app, esc_one, IH. reflexivity.
Qed.

Lemma esc_char_no_lt (c x : char16) : In x (esc_char c) -> x <> 60.
Proof.
  unfold esc_char.
  destruct (c =? 38) eqn:E38; [simpl; intuition lia|].
  destruct (c =? 60) eqn:E60; [simpl; intuition lia|].
  destruct (c =? 62) eqn:E62; [simpl; intuition lia|].
  simpl. apply N.eqb_neq in E60. intuition congruence.
Qed.

Lemma esc_no_lt (s : jsstring) (x : char16) : In x (esc s) -> x <> 60.
Proof.
  rewrite esc_flat_map. intros H. apply in_flat_map in H as (c & _ & Hx).
  eapply esc_char_no_lt; eassumption.
Qed.

(** Were [&] replaced last, the [&] of an earlier escape would be escaped
    again. *)
Example ampersand_last_escapes_twice :
  replaceAll 38 (lit "&amp;") (replaceAll 60 (lit "&lt;") (lit "<"))
  = lit "&amp;lt;"
  /\ esc (lit "<") = lit "&lt;".
Proof. split; reflexivity. Qed.


(** ** List markers in the output of [textToHtml] *)

Section Markers.

(** A marker is [<ul>] or [</ul>]; both start with [<]. *)
Variable marker : jsstring.
Hypothesis marker_cases : marker = UL_OPEN \/ marker = UL_CLOSE.

Lemma occurrences_skip (s r : jsstring) :
  (forall x, In x s -> x <> 60) ->
  occurrences marker (s ++ r) = occurrences marker r.
Proof.
  induction s as [|c s IH]; intros Hs; [reflexivity|].
  simpl app. cbn [occurrences]. rewrite IH by (intros x Hx; apply Hs; now right).
  assert (Hc : (60 =? c) = false).
  { apply N.eqb_neq. intros E. apply (Hs c); [now left|congruence]. }
  destruct marker_cases as [-> | ->];
    [change UL_OPEN with [60; 117; 108; 62]
    |change UL_CLOSE with [60; 47; 117; 108; 62]];
    cbn [startsWith]; now rewrite Hc.
Qed.

Lemma occurrences_newline (r : jsstring) :
  occurrences marker (NEWLINE :: r) = occurrences marker r.
Proof.
  change (NEWLINE :: r) with ([NEWLINE] ++ r). apply occurrences_skip.
  intros x [<- | []]. discriminate.
Qed.

Lemma wrap_unfold (tag content : jsstring) :
  wrap tag content
  = (60 :: tag) ++ 62 :: esc content ++ (60 :: 47 :: tag) ++ [62].
Proof.
  unfold wrap. change (lit "<") with [60]. change (lit ">") with [62].
  change (lit "</") with [60; 47]. simpl.
  now rewrite <- ?app_assoc.
Qed.

(** Behind an element, the count goes on as before, plus one when the
    element is the marker itself. *)
Lemma occurrences_element (e r : jsstring) :
  element e ->
  occurrences marker (e ++ r)
  = ((if eqb marker e then 1 else 0) + occurrences marker r)%nat.
Proof.
  intros He.
  destruct He as [ | | tag content Htag].
  - destruct marker_cases as [-> | ->]; reflexivity.
  - destruct marker_cases as [-> | ->]; reflexivity.
  - assert (Hesc : forall t,
      occurrences marker (esc content ++ t) = occurrences marker t).
    { intros t. apply occurrences_skip. intros x. apply esc_no_lt. }
    rewrite wrap_unfold.
    change block_tags
      with [[104; 49]; [104; 50]; [104; 51]; [108; 105]; [112]] in Htag.
    cbn [In] in Htag.
    destruct marker_cases as [Hm | Hm]; rewrite Hm in *;
      [change UL_OPEN with [60; 117; 108; 62] in *
      |change UL_CLOSE with [60; 47; 117; 108; 62] in *];
      destruct Htag as [<- | [<- | [<- | [<- | [<- | []]]]]];
      cbn -[esc occurrences];
      rewrite <- ?app_assoc;
      cbn [occurrences startsWith N.eqb Pos.eqb andb Nat.add app];
      rewrite Hesc; reflexivity.
Qed.

Lemma occurrences_join (l : list jsstring) :
  Forall element l ->
  occurrences marker (join [NEWLINE] l) = count_entries marker l.
Proof.
  induction 1 as [|e l He Hl IH]; [reflexivity|].
  unfold count_entries in *. cbn [List.filter].
  destruct l as [|e' l'].
  - cbn [join List.filter]. rewrite <- (app_nil_r e) at 1.
    rewrite occurrences_element by assumption.
    destruct (eqb marker e); reflexivity.
  - change (join [NEWLINE] (e :: e' :: l'))
      with (e ++ NEWLINE :: join [NEWLINE] (e' :: l')).
    rewrite occurrences_element by assumption.
    rewrite occurrences_newline, IH.
    destruct (eqb marker e); reflexivity.
Qed.

End Markers.

Lemma count_entries_snoc (x e : jsstring) (l : list jsstring) :
  count_entries x (l ++ [e])
  = (count_entries x l + if eqb x e then 1 else 0)%nat.
Proof.
  unfold count_entries. rewrite List.filter_app, length_app. cbn [List.filter].
  destruct (eqb x e); reflexivity.
Qed.

Lemma wrap_not_marker (tag content : jsstring) :
  In tag block_tags ->
  eqb UL_OPEN (wrap tag content) = false
  /\ eqb UL_CLOSE (wrap tag content) = false.
Proof.
  intros Htag. rewrite wrap_unfold.
  change block_tags
    with [[104; 49]; [104; 50]; [104; 51]; [108; 105]; [112]] in Htag.
  cbn [In] in Htag.
  destruct Htag as [<- | [<- | [<- | [<- | [<- | []]]]]];
    split; reflexivity.
Qed.

Lemma balanced_init : balanced {| html := []; inList := false |}.
Proof. split; [constructor | reflexivity]. Qed.

Lemma balanced_push_block (st : conv_state) (tag content : jsstring) :
  In tag block_tags -> balanced st -> balanced (push (wrap tag content) st).
Proof.
  intros Htag [Hel Hcnt]. destruct (wrap_not_marker tag content Htag) as [Ho Hc].
  split; cbn [push html inList].
  - apply Forall_app. split; [assumption|].
    constructor; [now apply el_block | constructor].
  - rewrite !count_entries_snoc, Ho, Hc. lia.
Qed.

Lemma balanced_closeList (st : conv_state) :
  balanced st -> balanced (closeList st) /\ inList (closeList st) = false.
Proof.
  intros [Hel Hcnt]. unfold closeList.
  destruct (inList st) eqn:Hin; rewrite ?Hin in Hcnt; cbn [html inList].
  - split; [split|reflexivity]; cbn [html inList].
    + apply Forall_app. split; [assumption|].
      constructor; [apply el_close | constructor].
    + rewrite !count_entries_snoc.
      change (eqb UL_OPEN UL_CLOSE) with false.
      change (eqb UL_CLOSE UL_CLOSE) with true. cbv iota. lia.
  - split; [split|]; [assumption| |assumption]. now rewrite Hin.
Qed.

Lemma balanced_open (st : conv_state) :
  balanced st -> inList st = false ->
  balanced {| html := html st ++ [UL_OPEN]; inList := true |}.
Proof.
  intros [Hel Hcnt] Hin. split; cbn [html inList].
  - apply Forall_app. split; [assumption|].
    constructor; [apply el_open | constructor].
  - rewrite !count_entries_snoc, Hcnt, Hin.
    change (eqb UL_OPEN UL_OPEN) with true.
    change (eqb UL_CLOSE UL_OPEN) with false. cbv iota. lia.
Qed.

(** One line of input keeps the markers in step. *)
Lemma balanced_convert_line (st : conv_state) (raw : jsstring) :
  balanced st -> balanced (convert_line st raw).
Proof.
  intros Hst. unfold convert_line.
  destruct (match_prefix_ws_group (lit "###") (trimEnd raw)).
  { apply balanced_push_block; [cbn; tauto|]. now apply balanced_closeList. }
  destruct (match_prefix_ws_group (lit "##") (trimEnd raw)).
  { apply balanced_push_block; [cbn; tauto|]. now apply balanced_closeList. }
  destruct (match_prefix_ws_group (lit "#") (trimEnd raw)).
  { apply balanced_push_block; [cbn; tauto|]. now apply balanced_closeList. }
  destruct (match_list_item (trimEnd raw)).
  { apply balanced_push_block; [cbn; tauto|].
    destruct (inList st) eqn:Hin; [assumption|]. now apply balanced_open. }
  assert (H1 : balanced (if inList st then closeList st else st)).
  { destruct (inList st); [now apply balanced_closeList | assumption]. }
  destruct (eqb (trim (trimEnd raw)) []).
  - now apply balanced_closeList.
  - apply balanced_push_block; [cbn; tauto | assumption].
Qed.

Lemma balanced_fold (lines : list jsstring) (st : conv_state) :
  balanced st -> balanced (fold_left convert_line lines st).
Proof.
  revert st. induction lines as [|l lines IH]; intros st Hst; [assumption|].
  cbn [fold_left]. apply IH. now apply balanced_convert_line.
Qed.

Lemma html_array_balanced (text : jsstring) :
  Forall element (html_array text)
  /\ count_entries UL_OPEN (html_array text)
     = count_entries UL_CLOSE (html_array text).
Proof.
  unfold html_array.
  destruct (balanced_closeList
              (fold_left convert_line (split NEWLINE text)
                 {| html := []; inList := false |})) as [[Hel Hcnt] Hin].
  { apply balanced_fold, balanced_init. }
  split; [assumption|]. rewrite Hcnt, Hin. lia.
Qed.

(** C4. For every input text, the HTML of [textToHtml] holds as many
    list-open markers [<ul>] as list-close markers [</ul>]. *)
Theorem C4_list_markers_balanced (text : jsstring) :
  occurrences UL_OPEN (textToHtml text)
  = occurrences UL_CLOSE (textToHtml text).
Proof.
  destruct (html_array_balanced text) as [Hel Hcnt].
  unfold textToHtml.
  rewrite (occurrences_join UL_OPEN) by auto.
  rewrite (occurrences_join UL_CLOSE) by auto.
  exact Hcnt.
Qed.

(** ** The words of the specification and the functions of the script *)

Lemma isWhite_white (c : char16) : isWhite c = white c.
Proof.
  apply eq_true_iff_eq. unfold isWhite, white, white_space.
  cbn [existsb].
  rewrite !orb_true_iff, !andb_true_iff, !N.leb_le, !N.eqb_eq. lia.
Qed.

Lemma split_lines (text : jsstring) : split NEWLINE text = lines text.
Proof.
  unfold lines. induction text as [|c r IH]; [reflexivity|].
  cbn [split fold_right]. rewrite IH. reflexivity.
Qed.

Lemma dropWhile_without_leading (p : char16 -> bool) (s : jsstring) :
  dropWhile p s = without_leading p s.
Proof.
  induction s as [|c r IH]; [reflexivity|].
  cbn. now rewrite IH.
Qed.

Lemma dropWhile_ext (p q : char16 -> bool) (s : jsstring) :
  (forall c, p c = q c) -> dropWhile p s = dropWhile q s.
Proof.
  intros H. induction s as [|c r IH]; [reflexivity|].
  cbn. now rewrite H, IH.
Qed.

Lemma dropWhile_snoc (p : char16 -> bool) (s : jsstring) (c : char16) :
  dropWhile p (s ++ [c])
  = match dropWhile p s with
    | [] => if p c then [] else [c]
    | kept => kept ++ [c]
    end.
Proof.
  induction s as [|x s IH]; [reflexivity|].
  cbn [app dropWhile]. destruct (p x); [exact IH | reflexivity].
Qed.

Lemma trimEnd_without_trailing (s : jsstring) :
  trimEnd s = without_trailing white s.
Proof.
  unfold trimEnd, without_trailing.
  induction s as [|c r IH]; [reflexivity|].
  cbn [rev fold_right]. rewrite <- IH. clear IH.
  rewrite dropWhile_snoc, isWhite_white.
  destruct (dropWhile isWhite (rev r)) as [|x kept].
  - cbn [rev]. now destruct (white c).
  - rewrite rev_app_distr. cbn [rev app].
    destruct (rev kept ++ [x]) eqn:E; [|reflexivity].
    now destruct (rev kept).
Qed.

Lemma trim_trimmed (s : jsstring) : trim s = trimmed s.
Proof.
  unfold trim, trimmed, trimStart.
  rewrite trimEnd_without_trailing, (dropWhile_ext isWhite white)
    by exact isWhite_white.
  now rewrite dropWhile_without_leading.
Qed.

Lemma without_leading_idem (p : char16 -> bool) (s : jsstring) :
  without_leading p (without_leading p s) = without_leading p s.
Proof.
  induction s as [|c r IH]; [reflexivity|].
  cbn. destruct (p c) eqn:E; [exact IH|]. cbn. now rewrite E.
Qed.

(** The pattern [/^#+\s*/] takes the marks and the white space behind them;
    the white space goes with the trimming anyway. *)
Lemma strip_heading_marks_unmarked (l : jsstring) :
  trim (strip_heading_marks l) = trimmed (unmarked l).
Proof.
  rewrite trim_trimmed. unfold strip_heading_marks, unmarked.
  destruct l as [|c r]; [reflexivity|].
  destruct (c =? 35) eqn:E.
  - rewrite (dropWhile_ext isWhite white) by exact isWhite_white.
    rewrite !dropWhile_without_leading.
    unfold trimmed. now rewrite without_leading_idem.
  - cbn [without_leading]. now rewrite E.
Qed.

Lemma join_spaced (ls : list jsstring) : join (lit " ") ls = spaced ls.
Proof.
  change (lit " ") with [32].
  induction ls as [|l r IH]; [reflexivity|].
  cbn [join spaced]. destruct r; [reflexivity|]. now rewrite IH.
Qed.

Lemma squeeze_cons (c : N) (r : jsstring) :
  squeeze (c :: r)
  = if white c then
      match r with
      | d :: _ => if white d then squeeze r else 32 :: squeeze r
      | [] => [32]
      end
    else c :: squeeze r.
Proof. reflexivity. Qed.

Lemma squeeze_white_head (r : jsstring) :
  forall c : N, white c = true -> exists rest, squeeze (c :: r) = 32 :: rest.
Proof.
  induction r as [|d r IH]; intros c Hc; rewrite squeeze_cons, Hc.
  - now exists [].
  - destruct (white d) eqn:Hd; [exact (IH d Hd) | eauto].
Qed.

Lemma collapse_ws_from_squeeze (s : jsstring) :
  collapse_ws_from false s = squeeze s
  /\ collapse_ws_from true s
     = match s with
       | c :: _ => if white c then tl (squeeze s) else squeeze s
       | [] => []
       end.
Proof.
  induction s as [|c r [IH1 IH2]]; [split; reflexivity|].
  cbn [collapse_ws_from]. rewrite isWhite_white, squeeze_cons.
  destruct (white c) eqn:Hc.
  - rewrite IH2. destruct r as [|d r]; [split; reflexivity|].
    destruct (white d) eqn:Hd; [|split; reflexivity].
    destruct (squeeze_white_head r d Hd) as [rest ->]. split; reflexivity.
  - rewrite IH1. split; reflexivity.
Qed.

Lemma collapse_ws_squeeze (s : jsstring) : collapse_ws s = squeeze s.
Proof. apply collapse_ws_from_squeeze. Qed.

Lemma canonicalize_lower_case (a b : char16) :
  (canonicalize a =? canonicalize b) = (lower_case a =? lower_case b).
Proof.
  apply eq_true_iff_eq. rewrite !N.eqb_eq.
  unfold canonicalize, lower_case.
  destruct (N.leb_spec 97 a), (N.leb_spec a 122), (N.leb_spec 97 b),
    (N.leb_spec b 122), (N.leb_spec 65 a), (N.leb_spec a 90),
    (N.leb_spec 65 b), (N.leb_spec b 90); cbn [andb]; lia.
Qed.

Lemma matches_here_ci_occurs_at (kw s : jsstring) :
  matches_here_ci kw s = occurs_at kw s.
Proof.
  revert s. induction kw as [|a kw IH]; intros s; [reflexivity|].
  destruct s as [|b s]; [reflexivity|].
  cbn [matches_here_ci occurs_at]. now rewrite canonicalize_lower_case, IH.
Qed.

(** ** Blank lines, trimming, truncation *)

Lemma dropWhile_nil_iff (p : char16 -> bool) (s : jsstring) :
  dropWhile p s = [] <-> forallb p s = true.
Proof.
  induction s as [|c s IH]; cbn; [tauto|].
  destruct (p c); cbn; [exact IH|]. split; discriminate.
Qed.

Lemma dropWhile_head (p : char16 -> bool) (s : jsstring) (c : char16)
  (r : jsstring) :
  dropWhile p s = c :: r -> p c = false.
Proof.
  induction s as [|x s IH]; cbn; [discriminate|].
  destruct (p x) eqn:E; [exact IH|]. intros [= <- _]. exact E.
Qed.

Lemma forallb_rev_true (p : char16 -> bool) (s : jsstring) :
  forallb p (rev s) = true <-> forallb p s = true.
Proof.
  rewrite !forallb_forall. split; intros H x Hx; apply H;
    [now apply -> in_rev | now apply in_rev].
Qed.

Lemma blank_isWhite (l : jsstring) : blank l = forallb isWhite l.
Proof.
  unfold blank. induction l as [|c l IH]; [reflexivity|].
  cbn [forallb]. now rewrite IH, isWhite_white.
Qed.

Lemma trim_nil_iff (s : jsstring) : trim s = [] <-> blank s = true.
Proof.
  rewrite blank_isWhite. unfold trim, trimEnd, trimStart.
  rewrite <- dropWhile_nil_iff.
  split.
  - intros H. apply (f_equal (@rev N)) in H. rewrite rev_involutive in H.
    cbn [rev] in H. apply dropWhile_nil_iff in H. rewrite forallb_rev_true in H.
    destruct (dropWhile isWhite s) as [|c r] eqn:E; [reflexivity|].
    apply dropWhile_head in E. cbn [forallb] in H. now rewrite E in H.
  - intros ->. reflexivity.
Qed.

Lemma nonBlank_blank (l : jsstring) : nonBlank l = negb (blank l).
Proof.
  unfold nonBlank. destruct (blank l) eqn:E.
  - apply trim_nil_iff in E. now rewrite E.
  - destruct (trim l) eqn:T; [|reflexivity].
    apply trim_nil_iff in T. congruence.
Qed.

Lemma filter_nonBlank (text : jsstring) :
  List.filter nonBlank (split NEWLINE text) = non_blank_lines text.
Proof.
  unfold non_blank_lines. rewrite <- split_lines.
  apply List.filter_ext. exact nonBlank_blank.
Qed.

Lemma find_head_filter {A} (p : A -> bool) (l : list A) :
  find p l = match List.filter p l with
             | [] => None
             | x :: _ => Some x
             end.
Proof.
  induction l as [|a l IH]; [reflexivity|].
  cbn. destruct (p a); [reflexivity | exact IH].
Qed.

Lemma truncated_length (limit : nat) (s : jsstring) :
  (3 <= limit)%nat -> (length (truncated limit s) <= limit)%nat.
Proof.
  intros Hl. unfold truncated.
  destruct (Nat.leb_spec (length s) limit); [assumption|].
  rewrite length_app, firstn_length_le by lia.
  change (length ellipsis) with 3%nat. lia.
Qed.

Lemma truncated_long (limit : nat) (s : jsstring) :
  (3 <= limit)%nat -> (limit < length s)%nat ->
  truncated limit s = firstn (limit - 3) s ++ ellipsis
  /\ length (truncated limit s) = limit.
Proof.
  intros Hl Hs. unfold truncated.
  destruct (Nat.leb_spec (length s) limit); [lia|].
  split; [reflexivity|].
  rewrite length_app, firstn_length_le by lia.
  change (length ellipsis) with 3%nat. lia.
Qed.

(** [generateTitle] against the words of the specification. *)
Lemma generateTitle_spec (text : jsstring) :
  generateTitle text
  = match first_non_blank text with
    | None => UNTITLED
    | Some l => truncated 60 (trim (strip_heading_marks l))
    end.
Proof.
  unfold generateTitle, first_non_blank.
  rewrite find_head_filter, filter_nonBlank. fold (non_blank_lines text).
  destruct (non_blank_lines text) as [|l0 ls]; [reflexivity|].
  unfold truncated, slice0. cbn [Nat.sub].
  destruct (Nat.ltb_spec 60 (length (trim (strip_heading_marks l0))));
    destruct (Nat.leb_spec (length (trim (strip_heading_marks l0))) 60);
    try lia; reflexivity.
Qed.

(** The title in the words of the specification alone. *)
Lemma generateTitle_deriveTitle (text : jsstring) :
  generateTitle text = deriveTitle text.
Proof.
  rewrite generateTitle_spec. unfold deriveTitle.
  destruct (first_non_blank text); [|vm_compute; reflexivity].
  now rewrite strip_heading_marks_unmarked.
Qed.

(** The markers are stripped where they lead the line, before it is
    trimmed: marks behind white space stay, as do marks behind the first
    white space. *)
Example heading_marks_of_a_title :
  generateTitle (lit "##  Our culture  ") = lit "Our culture"
  /\ generateTitle (lit "#Hello") = lit "Hello"
  /\ generateTitle (lit "  # Hello") = lit "# Hello"
  /\ generateTitle (lit "# # Hello") = lit "# Hello".
Proof. repeat split; vm_compute; reflexivity. Qed.

(** C6. [generateTitle] takes the first non-blank line, strips the heading
    marks that lead it, then trims it; without a non-blank line it gives the
    placeholder; a title of more than 60 characters is cut to its first 57,
    followed by the ellipsis, which makes 60. A text of a hundred [A] gives
    57 of them and the ellipsis. Lines, blank lines, marks, trimming and
    the ellipsis are those of the specification, defined without the
    functions of the script. *)
Theorem C6_generateTitle (text : jsstring) :
  generateTitle text = deriveTitle text
  /\ match first_non_blank text with
     | None => generateTitle text = untitled
     | Some l =>
       let title := trimmed (unmarked l) in
       if (60 <? length title)%nat
       then generateTitle text = firstn 57 title ++ ellipsis
            /\ length (generateTitle text) = 60%nat
            /\ skipn 57 (generateTitle text) = ellipsis
       else generateTitle text = title
     end
  /\ generateTitle [] = untitled
  /\ generateTitle (repeat 65 100) = repeat 65 57 ++ ellipsis
  /\ length (generateTitle (repeat 65 100)) = 60%nat.
Proof.
  split; [apply generateTitle_deriveTitle|].
  split; [|repeat split; vm_compute; reflexivity].
  rewrite generateTitle_deriveTitle. unfold deriveTitle.
  destruct (first_non_blank text) as [l|]; [|reflexivity].
  cbv zeta.
  destruct (Nat.ltb_spec 60 (length (trimmed (unmarked l)))) as [Hlong | Hshort].
  - destruct (truncated_long 60 (trimmed (unmarked l))) as [E L];
      [lia | assumption |].
    split; [exact E|]. split; [exact L|].
    rewrite E. cbn [Nat.sub].
    rewrite skipn_app, firstn_length_le by lia.
    rewrite skipn_firstn_comm. cbn. reflexivity.
  - unfold truncated.
    destruct (Nat.leb_spec (length (trimmed (unmarked l))) 60);
      [reflexivity | lia].
Qed.

(** ** The description *)

Lemma collapse_ws_from_spaced (s : jsstring) :
  single_spaced (collapse_ws_from false s) = true
  /\ single_spaced (collapse_ws_from true s) = true
  /\ match collapse_ws_from true s with
     | d :: _ => white d = false
     | [] => True
     end.
Proof.
  induction s as [|c s (IH1 & IH2 & IH3)]; [cbn; tauto|].
  cbn [collapse_ws_from]. rewrite isWhite_white. destruct (white c) eqn:Ec.
  - repeat split; try assumption.
    cbn [single_spaced]. change (white 32) with true.
    rewrite IH2, N.eqb_refl, andb_true_r. cbn [andb].
    destruct (collapse_ws_from true s); [reflexivity|]. now rewrite IH3.
  - cbn [single_spaced]. rewrite Ec, IH1. repeat split; reflexivity || assumption.
Qed.

Lemma single_spaced_app (a b : jsstring) :
  single_spaced (a ++ b) = true ->
  single_spaced a = true /\ single_spaced b = true.
Proof.
  induction a as [|c a IH]; [cbn; tauto|].
  cbn [app single_spaced]. intros H.
  apply andb_true_iff in H as [Hc Hr]. destruct (IH Hr) as [Ha Hb].
  split; [|assumption]. rewrite Ha, andb_true_r.
  destruct (white c); [|reflexivity].
  apply andb_true_iff in Hc as [Hc1 Hc2]. rewrite Hc1. cbn [andb].
  destruct a; [reflexivity | exact Hc2].
Qed.

Lemma takeWhile_dropWhile (p : char16 -> bool) (s : jsstring) :
  s = takeWhile p s ++ dropWhile p s.
Proof.
  induction s as [|c s IH]; [reflexivity|].
  cbn. destruct (p c); [|reflexivity]. cbn. now rewrite <- IH.
Qed.

Lemma trimEnd_prefix (s : jsstring) :
  s = trimEnd s ++ rev (takeWhile isWhite (rev s)).
Proof.
  unfold trimEnd. rewrite <- rev_app_distr, <- takeWhile_dropWhile.
  now rewrite rev_involutive.
Qed.

Lemma single_spaced_trim (s : jsstring) :
  single_spaced s = true -> single_spaced (trim s) = true.
Proof.
  intros H. unfold trim, trimStart.
  rewrite (takeWhile_dropWhile isWhite s) in H.
  apply single_spaced_app in H as [_ H].
  rewrite (trimEnd_prefix (dropWhile isWhite s)) in H.
  now apply single_spaced_app in H as [H _].
Qed.

(** [generateDescription] against the words of the specification. *)
Lemma generateDescription_spec (text : jsstring) :
  generateDescription text = truncated 120 (description_body text).
Proof.
  unfold generateDescription, description_body.
  rewrite filter_nonBlank, join_spaced, collapse_ws_squeeze, trim_trimmed.
  destruct (trimmed _) as [|c body]; [reflexivity|].
  unfold truncated, slice0. reflexivity.
Qed.

Example description_of_a_text :
  generateDescription
    (lit "Title" ++ [10] ++ lit "first  line " ++ [10; 10; 9]
     ++ lit "second" ++ [13; 10])
  = lit "first line second".
Proof. vm_compute. reflexivity. Qed.

(** C8. [generateDescription] joins the non-blank lines behind the first
    with single spaces, collapses white space and trims; an empty body gives
    the empty string; a body of more than 120 characters is cut to its first
    117, followed by the ellipsis; the result never has more than 120
    characters. The body is the one of the specification, defined without
    the functions of the script. *)
Theorem C8_generateDescription (text : jsstring) :
  let body := description_body text in
  generateDescription text = deriveDescription text
  /\ generateDescription text
     = (if (120 <? length body)%nat then firstn 117 body ++ ellipsis
        else body)
  /\ match body with
     | [] => generateDescription text = []
     | _ => True
     end
  /\ single_spaced body = true
  /\ (length (generateDescription text) <= 120)%nat.
Proof.
  cbv zeta. rewrite generateDescription_spec.
  split; [reflexivity|]. split; [|split; [|split]].
  - unfold truncated. cbn [Nat.sub].
    destruct (Nat.ltb_spec 120 (length (description_body text)));
      destruct (Nat.leb_spec (length (description_body text)) 120);
      try lia; reflexivity.
  - destruct (description_body text); [reflexivity | exact I].
  - unfold description_body.
    rewrite <- trim_trimmed, <- collapse_ws_squeeze.
    apply single_spaced_trim. apply collapse_ws_from_spaced.
  - apply truncated_length. lia.
Qed.

(** ** The scores of [detectCategory] *)

Lemma obj_get_snoc_fresh (k : jsstring) (v : nat) (o : scores_t) :
  obj_get k o = None -> obj_get k (o ++ [(k, v)]) = Some v.
Proof.
  induction o as [|[k' v'] o IH]; cbn.
  - intros _. now rewrite (proj2 (eqb_eq k k) eq_refl).
  - destruct (eqb k' k); [discriminate | exact IH].
Qed.

Lemma obj_set_fresh (k : jsstring) (v : nat) (o : scores_t) :
  obj_get k o = None -> obj_set k v o = o ++ [(k, v)].
Proof.
  induction o as [|[k' v'] o IH]; cbn; [reflexivity|].
  destruct (eqb k' k); [discriminate|]. intros H. now rewrite IH.
Qed.

Lemma obj_set_snoc (k : jsstring) (v v' : nat) (o : scores_t) :
  obj_get k o = None -> obj_set k v' (o ++ [(k, v)]) = o ++ [(k, v')].
Proof.
  induction o as [|[k1 v1] o IH]; cbn.
  - intros _. now rewrite (proj2 (eqb_eq k k) eq_refl).
  - destruct (eqb k1 k); [discriminate|]. intros H. now rewrite IH.
Qed.

Lemma obj_get_snoc_other (k k' : jsstring) (v : nat) (o : scores_t) :
  eqb k' k = false -> obj_get k (o ++ [(k', v)]) = obj_get k o.
Proof.
  intros Hk. induction o as [|[k1 v1] o IH]; cbn.
  - now rewrite Hk.
  - destruct (eqb k1 k); [reflexivity | exact IH].
Qed.

(** One keyword adds its number of matches to the entry of its label. *)
Lemma count_keyword_snoc (text cat kw : jsstring) (v : nat) (o : scores_t) :
  obj_get cat o = None ->
  count_keyword text cat (o ++ [(cat, v)]) kw
  = o ++ [(cat, (v + keyword_count text kw)%nat)].
Proof.
  intros Hfresh. unfold count_keyword, match_g_ci, keyword_count.
  destruct (regex_matches_ci kw 0 text) as [|m ms].
  - cbn [length]. now rewrite Nat.add_0_r.
  - unfold obj_add. rewrite obj_get_snoc_fresh by assumption.
    now apply obj_set_snoc.
Qed.

Lemma count_keywords_snoc (text cat : jsstring) (kws : list jsstring)
  (v : nat) (o : scores_t) :
  obj_get cat o = None ->
  fold_left (count_keyword text cat) kws (o ++ [(cat, v)])
  = o ++ [(cat, (v + label_score text kws)%nat)].
Proof.
  intros Hfresh. revert v. induction kws as [|kw kws IH]; intros v.
  - cbn. now rewrite Nat.add_0_r.
  - cbn [fold_left]. rewrite count_keyword_snoc by assumption.
    rewrite IH.
    change (label_score text (kw :: kws))
      with (keyword_count text kw + label_score text kws)%nat.
    now rewrite Nat.add_assoc.
Qed.

Lemma score_label_fresh (text : jsstring) (o : scores_t)
  (entry : jsstring * list jsstring) :
  obj_get (fst entry) o = None ->
  score_label text o entry
  = o ++ [(fst entry, label_score text (snd entry))].
Proof.
  destruct entry as [cat kws]. cbn [fst snd]. intros Hfresh.
  unfold score_label. rewrite obj_set_fresh by assumption.
  now rewrite count_keywords_snoc.
Qed.

(** The object [scores] after the first loop: the labels in declared order,
    each with the sum of the counts of its keywords. *)
Lemma compute_scores_spec (text : jsstring) :
  compute_scores text
  = map (fun e => (fst e, label_score text (snd e))) CATEGORY_KEYWORDS.
Proof.
  unfold compute_scores, CATEGORY_KEYWORDS. cbn [fold_left map].
  rewrite (score_label_fresh text []) by reflexivity.
  cbn [app fst snd].
  rewrite (score_label_fresh text [_]) by reflexivity.
  cbn [app fst snd].
  rewrite (score_label_fresh text [_; _]) by reflexivity.
  cbn [app fst snd].
  rewrite (score_label_fresh text [_; _; _]) by reflexivity.
  reflexivity.
Qed.

Lemma declared_order : map fst CATEGORY_KEYWORDS = CATEGORIES.
Proof. reflexivity. Qed.

Lemma pick_best_eq (b c : jsstring) (s x : nat) :
  pick_best (b, s) (c, x) = if (s <? x)%nat then (c, x) else (b, s).
Proof. reflexivity. Qed.

Ltac step_pick :=
  rewrite pick_best_eq;
  match goal with
  | |- context [(?a <? ?b)%nat] => destruct (Nat.ltb_spec a b)
  end.

Ltac solve_pick :=
  split; [lia|]; split; [reflexivity|];
  split; intros [|[|[|[|?]]]] ?; cbn [nth]; lia.

(** The second loop over four entries in order picks the first entry whose
    score is the largest, and keeps the initial label when every score is
    zero. *)
Lemma pick_best_four (c0 c1 c2 c3 : jsstring) (s0 s1 s2 s3 : nat) :
  let s := fun i : nat => nth i [s0; s1; s2; s3] 0%nat in
  exists i : nat,
    (i < 4)%nat
    /\ fst (fold_left pick_best [(c0, s0); (c1, s1); (c2, s2); (c3, s3)]
              (c0, 0%nat))
       = nth i [c0; c1; c2; c3] []
    /\ (forall j, (j < 4)%nat -> (s j <= s i)%nat)
    /\ (forall j, (j < i)%nat -> (s j < s i)%nat).
Proof.
  intros s. subst s. cbn [fold_left].
  do 4 step_pick;
    first [ exists 0%nat; solve_pick | exists 1%nat; solve_pick
          | exists 2%nat; solve_pick | exists 3%nat; solve_pick ].
Qed.

Example keyword_count_ignores_case :
  keyword_count (lit "q&a, Q&a, 研修の研修") (lit "Q&A") = 2%nat
  /\ keyword_count (lit "q&a, Q&a, 研修の研修") (lit "研修") = 2%nat.
Proof. split; reflexivity. Qed.

(** *** Matches of the scan and occurrences *)

(** The keywords are plain text for [new RegExp], none is empty, and none
    can overlap itself. *)
Lemma keywords_plain :
  forallb (fun e =>
    forallb (fun kw =>
      negb (existsb regex_special kw) && (0 <? length kw)%nat && unbordered kw)
      (snd e)) CATEGORY_KEYWORDS = true.
Proof. vm_compute. reflexivity. Qed.

Lemma matches_here_ci_skipn (d : nat) :
  forall kw s,
    matches_here_ci kw s = true ->
    matches_here_ci (skipn d kw) (skipn d s) = true.
Proof.
  induction d as [|d IH]; intros kw s H; [exact H|].
  destruct kw as [|a kw]; [now destruct s|].
  destruct s as [|b s]; [discriminate|].
  cbn [matches_here_ci] in H. apply andb_true_iff in H as [_ H].
  cbn [skipn]. now apply IH.
Qed.

(** Of two patterns that match at the same place, the shorter matches at the
    start of the longer. *)
Lemma matches_here_ci_shorter :
  forall b a s,
    matches_here_ci a s = true ->
    matches_here_ci b s = true ->
    (length b <= length a)%nat ->
    matches_here_ci b a = true.
Proof.
  induction b as [|x b IH]; intros a s Ha Hb Hlen; [reflexivity|].
  destruct a as [|y a]; [cbn in Hlen; lia|].
  destruct s as [|z s]; [discriminate|].
  cbn [matches_here_ci] in *.
  apply andb_true_iff in Ha as [Ha1 Ha2].
  apply andb_true_iff in Hb as [Hb1 Hb2].
  apply N.eqb_eq in Ha1, Hb1.
  apply andb_true_iff. split.
  - apply N.eqb_eq. congruence.
  - apply (IH a s); [assumption | assumption | cbn in Hlen; lia].
Qed.

Section Unbordered.

Variable kw : jsstring.
Hypothesis kw_unbordered : unbordered kw = true.

Lemma no_overlap (s : jsstring) (d : nat) :
  (0 < d < length kw)%nat ->
  matches_here_ci kw s = true ->
  matches_here_ci kw (skipn d s) = false.
Proof.
  intros Hd Hs.
  destruct (matches_here_ci kw (skipn d s)) eqn:Hds; [|reflexivity].
  assert (Hborder : matches_here_ci (skipn d kw) kw = true).
  { apply (matches_here_ci_shorter _ _ (skipn d s)).
    - exact Hds.
    - now apply matches_here_ci_skipn.
    - rewrite length_skipn. lia. }
  unfold unbordered in kw_unbordered.
  rewrite forallb_forall in kw_unbordered.
  specialize (kw_unbordered d). rewrite Hborder in kw_unbordered.
  assert (Hin : In d (seq 1 (length kw - 1))) by (apply in_seq; lia).
  specialize (kw_unbordered Hin). discriminate.
Qed.

(** While [skip] code units of a match are still to be passed, there is no
    occurrence to miss. *)
Lemma regex_matches_ci_count (s : jsstring) :
  forall skip,
    (forall d, (d < skip)%nat -> matches_here_ci kw (skipn d s) = false) ->
    length (regex_matches_ci kw skip s) = occurrences_ci kw s.
Proof.
  induction s as [|c r IH]; intros skip Hclear; [reflexivity|].
  cbn [regex_matches_ci occurrences_ci]. rewrite <- matches_here_ci_occurs_at.
  destruct skip as [|k].
  - destruct (matches_here_ci kw (c :: r)) eqn:Hm.
    + cbn [length]. rewrite IH; [reflexivity|].
      intros d Hd. apply (no_overlap (c :: r) (S d)); [lia | exact Hm].
    + apply IH. intros d Hd. lia.
  - pose proof (Hclear 0%nat ltac:(lia)) as H0. cbn [skipn] in H0.
    rewrite H0. cbn [Nat.add].
    apply IH. intros d Hd. apply (Hclear (S d)). lia.
Qed.

Lemma keyword_count_occurrences (text : jsstring) :
  keyword_count text kw = occurrences_ci kw text.
Proof.
  unfold keyword_count. apply regex_matches_ci_count. intros d Hd. lia.
Qed.

End Unbordered.

Lemma keyword_table_eq : CATEGORY_KEYWORDS = keyword_table.
Proof. reflexivity. Qed.

Lemma label_score_occurrences (text : jsstring) (i : nat) :
  label_score text (snd (nth i CATEGORY_KEYWORDS ([], []))) = score text i.
Proof.
  unfold label_score, score. rewrite <- keyword_table_eq.
  f_equal. apply map_ext_in. intros kw Hkw.
  apply keyword_count_occurrences.
  pose proof keywords_plain as Hall. rewrite forallb_forall in Hall.
  destruct (Nat.lt_ge_cases i (length CATEGORY_KEYWORDS)) as [Hi | Hi].
  - specialize (Hall _ (nth_In CATEGORY_KEYWORDS ([], []) Hi)).
    rewrite forallb_forall in Hall.
    specialize (Hall kw Hkw). now apply andb_true_iff in Hall as [_ Hall].
  - rewrite nth_overflow in Hkw by assumption. destruct Hkw.
Qed.

(** The object [scores] in terms of occurrences. *)
Lemma compute_scores_score (text : jsstring) :
  compute_scores text
  = [ (lit "インタビュー", score text 0); (lit "社風", score text 1);
      (lit "制度", score text 2); (lit "イベント", score text 3) ].
Proof.
  rewrite compute_scores_spec.
  rewrite <- !label_score_occurrences. reflexivity.
Qed.

(** C7. [detectCategory] gives each of the four labels the sum, over its
    keywords, of the case-insensitive matches in the whole text, and returns
    the label of the highest score, the first in declared order among equal
    ones; when every score is zero that is the first label. The score is
    the one of the specification: the positions of the text at which a
    keyword stands, up to the case of letters, counted without the regular
    expressions of the script. In [研修 q&a] a keyword of the third label
    and, in lower case, one of the first stand once each, and the first
    label wins; a second [研修] makes it the third. *)
Theorem C7_detectCategory (text : jsstring) :
  map fst keyword_table = CATEGORIES
  /\ (exists i : nat,
        (i < 4)%nat
        /\ detectCategory text = nth i CATEGORIES []
        /\ Forall (fun j => (score text j <= score text i)%nat) (seq 0 4)
        /\ Forall (fun j => (score text j < score text i)%nat) (seq 0 i))
  /\ (if forallb (fun j => (score text j =? 0)%nat) (seq 0 4)
      then detectCategory text = nth 0 CATEGORIES []
      else True)
  /\ detectCategory (lit "研修 q&a") = lit "インタビュー"
  /\ detectCategory (lit "研修 q&a 研修") = lit "制度".
Proof.
  assert (Hex : exists i : nat,
     (i < 4)%nat
     /\ detectCategory text = nth i CATEGORIES []
     /\ (forall j, (j < 4)%nat -> (score text j <= score text i)%nat)
     /\ (forall j, (j < i)%nat -> (score text j < score text i)%nat)).
  { unfold detectCategory. rewrite compute_scores_score.
    destruct (pick_best_four
                (lit "インタビュー") (lit "社風") (lit "制度") (lit "イベント")
                (score text 0) (score text 1) (score text 2) (score text 3))
      as (i & Hi & Hbest & Hmax & Hfirst).
    exists i. split; [exact Hi|]. split; [exact Hbest|].
    split.
    - intros j Hj. specialize (Hmax j Hj).
      destruct i as [|[|[|[|i]]]]; try lia;
        destruct j as [|[|[|[|j]]]]; try lia; exact Hmax.
    - intros j Hj. specialize (Hfirst j Hj).
      destruct i as [|[|[|[|i]]]]; try lia;
        destruct j as [|[|[|[|j]]]]; try lia; exact Hfirst. }
  destruct Hex as (i & Hi & Hbest & Hmax & Hfirst).
  split; [reflexivity|].
  split; [|split; [|split; vm_compute; reflexivity]].
  - exists i. repeat split; try assumption.
    + apply List.Forall_forall. intros j Hj. apply in_seq in Hj. apply Hmax. lia.
    + apply List.Forall_forall. intros j Hj. apply in_seq in Hj. apply Hfirst. lia.
  - destruct (forallb _ _) eqn:Hz; [|exact I].
    rewrite forallb_forall in Hz.
    destruct i as [|i]; [exact Hbest|].
    assert (H0 : (score text 0 < score text (S i))%nat) by (apply Hfirst; lia).
    assert (Hi0 : (score text (S i) =? 0)%nat = true).
    { apply Hz. apply in_seq. lia. }
    apply Nat.eqb_eq in Hi0. lia.
Qed.

(** ** The choice of the eyecatch *)

Section SelectBest.

Variable stat : jsstring -> option N.

Lemma scan_image_size (b p : jsstring) (s : N) :
  scan_image stat (b, s) p
  = if s <? size_or_zero stat p then (p, size_or_zero stat p) else (b, s).
Proof.
  unfold scan_image, size_or_zero. destruct (stat p); [reflexivity|].
  destruct (N.ltb_spec s 0); [lia | reflexivity].
Qed.

Lemma first_largest_step (seen : list jsstring) (acc : jsstring * N)
  (p : jsstring) :
  first_largest stat seen acc ->
  first_largest stat (seen ++ [p]) (scan_image stat acc p).
Proof.
  destruct acc as [b s]. intros (i & Hi & Hs & Hall & Hbefore).
  cbn [fst snd] in *. rewrite scan_image_size.
  assert (Hlt : (i < length seen)%nat).
  { apply nth_error_Some. congruence. }
  destruct (N.ltb_spec s (size_or_zero stat p)) as [Hgt | Hle].
  - exists (length seen). cbn [fst snd]. repeat split.
    + rewrite nth_error_app2, Nat.sub_diag by lia. reflexivity.
    + apply List.Forall_app. split.
      * eapply List.Forall_impl; [|exact Hall]. cbn. intros q Hq. lia.
      * constructor; [lia | constructor].
    + rewrite firstn_app, firstn_all, Nat.sub_diag. cbn [firstn].
      rewrite app_nil_r.
      eapply List.Forall_impl; [|exact Hall]. cbn. intros q Hq. lia.
  - exists i. cbn [fst snd]. repeat split.
    + rewrite nth_error_app1 by assumption. exact Hi.
    + exact Hs.
    + apply List.Forall_app. split; [exact Hall|].
      constructor; [exact Hle | constructor].
    + rewrite firstn_app.
      replace (i - length seen)%nat with 0%nat by lia.
      cbn [firstn]. rewrite app_nil_r. exact Hbefore.
Qed.

Lemma first_largest_fold (rest seen : list jsstring) (acc : jsstring * N) :
  first_largest stat seen acc ->
  first_largest stat (seen ++ rest) (fold_left (scan_image stat) rest acc).
Proof.
  revert seen acc. induction rest as [|p rest IH]; intros seen acc Hacc.
  - now rewrite app_nil_r.
  - cbn [fold_left].
    replace (seen ++ p :: rest) with ((seen ++ [p]) ++ rest)
      by now rewrite <- app_assoc.
    apply IH. now apply first_largest_step.
Qed.

(** The first turn of the loop meets the initial [best] itself. *)
Lemma first_largest_start (p0 : jsstring) :
  first_largest stat [p0] (scan_image stat (p0, 0) p0).
Proof.
  rewrite scan_image_size.
  destruct (N.ltb_spec 0 (size_or_zero stat p0)) as [Hgt | Hle];
    exists 0%nat; cbn [fst snd nth_error firstn]; repeat split;
    try constructor; try constructor; lia.
Qed.

Lemma selectBestImage_first_largest (p0 p1 : jsstring) (rest : list jsstring) :
  exists p,
    selectBestImage stat (p0 :: p1 :: rest) = Some p
    /\ first_largest stat (p0 :: p1 :: rest) (p, size_or_zero stat p).
Proof.
  pose proof (first_largest_fold (p1 :: rest) [p0] _ (first_largest_start p0))
    as H.
  cbn [app] in H.
  change (fold_left (scan_image stat) (p1 :: rest) (scan_image stat (p0, 0) p0))
    with (fold_left (scan_image stat) (p0 :: p1 :: rest) (p0, 0)) in H.
  destruct (fold_left (scan_image stat) (p0 :: p1 :: rest) (p0, 0))
    as [b s] eqn:E.
  exists b. split.
  - cbn [selectBestImage]. now rewrite E.
  - destruct H as (i & Hi & Hs & Hrest). cbn [fst snd] in *.
    rewrite <- Hs. exists i. cbn [fst snd]. auto.
Qed.

End SelectBest.

Example selectBestImage_10_20 :
  selectBestImage stat_10_20 [lit "small.png"; lit "large.png"]
  = Some (lit "large.png")
  /\ selectBestImage stat_10_20 [lit "large.png"; lit "small.png"]
     = Some (lit "large.png").
Proof. split; reflexivity. Qed.

(** The selector treats a path whose size is not known exactly as an empty
    file. *)
Lemma selectBestImage_unknown_as_zero (stat : jsstring -> option N)
  (paths : list jsstring) :
  selectBestImage stat paths
  = selectBestImage (fun p => Some (size_or_zero stat p)) paths.
Proof.
  destruct paths as [|p0 [|p1 rest]]; [reflexivity | reflexivity |].
  unfold selectBestImage. f_equal. f_equal.
  generalize (p0 :: p1 :: rest). generalize (p0, 0).
  intros acc l. revert acc. induction l as [|q l IH]; intros acc;
    [reflexivity|].
  cbn [fold_left]. rewrite IH. f_equal.
  destruct acc as [b s]. unfold scan_image, size_or_zero.
  destruct (stat q); [reflexivity|].
  destruct (N.ltb_spec s 0); [lia | reflexivity].
Qed.

(** C2, as the specification has it, fails: of a missing [a.png] and an
    empty [b.png], the selector returns [a.png], whose size is not known,
    although the size of [b.png] is. *)
Lemma C2_missing_first_path_is_returned :
  ~ (forall (stat : jsstring -> option N) (paths : list jsstring)
       (p : jsstring),
       (2 <= length paths)%nat ->
       Exists (fun q => stat q <> None) paths ->
       selectBestImage stat paths = Some p ->
       largest_known stat paths p).
Proof.
  intros H.
  destruct (H stat_missing_and_empty [lit "a.png"; lit "b.png"] (lit "a.png"))
    as (n & Hn & _).
  - cbn. lia.
  - apply Exists_cons_tl, Exists_cons_hd. discriminate.
  - reflexivity.
  - discriminate Hn.
Qed.

(** C2, amended. [selectBestImage] returns nothing for no path and the path
    itself for a single one; for two or more it returns the earliest path
    whose size is the largest, where a size that cannot be determined counts
    as zero: such a path never makes the call fail, and it is returned only
    when it comes first and no path has a size above zero. *)
Theorem C2_selectBestImage (stat : jsstring -> option N) :
  selectBestImage stat [] = None
  /\ (forall p, selectBestImage stat [p] = Some p)
  /\ (forall p0 p1 rest,
        exists p,
          selectBestImage stat (p0 :: p1 :: rest) = Some p
          /\ first_largest stat (p0 :: p1 :: rest) (p, size_or_zero stat p)).
Proof.
  split; [reflexivity|]. split; [reflexivity|].
  intros p0 p1 rest. apply selectBestImage_first_largest.
Qed.

(** ** The scenario of the specification *)

(** C9. For the text of the scenario and no category on the command line,
    the category is 制度 (the only label with a match), the title [Hello],
    the description [This is a test about 研修.], and the HTML holds one
    heading and one paragraph; both revisions of the script submit exactly
    this record, and nothing else goes to the network. *)
Theorem C9_scenario :
  detectCategory SAMPLE = lit "制度"
  /\ map (score SAMPLE) (seq 0 4) = [0; 0; 1; 0]%nat
  /\ generateTitle SAMPLE = lit "Hello"
  /\ generateDescription SAMPLE = lit "This is a test about 研修."
  /\ html_array SAMPLE
     = [lit "<h1>Hello</h1>"; lit "<p>This is a test about 研修.</p>"]
  /\ List.filter Script.isNetwork (trace (Script.TextOnly.script sample_world))
     = [Script.CmsCreate (lit "archeco") (lit "secret") sample_record]
  /\ List.filter Script.isNetwork (trace (Script.Docx.script sample_world))
     = [Script.CmsCreate (lit "archeco") (lit "secret") sample_record]
  /\ result (Script.Docx.script sample_world) = Return tt.
Proof. repeat split; vm_compute; reflexivity. Qed.

(** ** The notification handler *)

(** C10. A request whose method is not POST gets status 405 with an error
    body, and the handler does nothing else: no call to the webhook, no
    output. *)
Theorem C10_method_not_allowed (w : Notify.world) (req : Notify.request) :
  Notify.method req <> lit "POST" ->
  Notify.handler w req
  = ([Notify.Respond 405 (Notify.ErrorJson (lit "Method not allowed"))],
     Return tt).
Proof.
  intros Hm. unfold Notify.handler.
  apply eqb_neq in Hm. rewrite Hm. reflexivity.
Qed.

Lemma C10_method_not_allowed_witness :
  Notify.method get_request <> lit "POST"
  /\ Notify.handler notify_world get_request
     = ([Notify.Respond 405 (Notify.ErrorJson (lit "Method not allowed"))],
        Return tt).
Proof.
  split.
  - discriminate.
  - apply (C10_method_not_allowed notify_world get_request). discriminate.
Defined.

(** ** The configuration at start-up *)

(** C3, as the specification has it, fails for the read client: without any
    configuration [getBlogs] returns a response. *)
Lemma C3_read_client_answers_unconfigured :
  ~ (forall (site : ReadClient.world) (queries : option jsstring),
       site_unconfigured site ->
       forall r, result (ReadClient.getBlogs site queries) <> Return r).
Proof.
  intros H.
  apply (H bare_site None (or_introl eq_refl) empty_response).
  reflexivity.
Qed.

Lemma or_else_falsy (v : option jsstring) (d : jsstring) :
  truthy v = false -> or_else v d = d.
Proof. destruct v as [[|c r]|]; cbn; congruence. Qed.

Lemma or_else_truthy (v : option jsstring) (d : jsstring) :
  truthy v = true -> or_else v d = show v.
Proof. destruct v as [[|c r]|]; cbn; congruence. Qed.

Lemma start_unconfigured
  (main : Script.world -> jsstring -> jsstring -> Script.run unit)
  (w : Script.world) :
  script_unconfigured w ->
  Script.start main w = ([Script.ConsoleError Script.CONFIG_ERROR], Exit 1).
Proof.
  intros H. unfold Script.start. cbv zeta.
  destruct H as [H | H].
  - rewrite H. cbn [negb orb]. reflexivity.
  - rewrite H. cbn [negb orb]. rewrite orb_true_r. reflexivity.
Qed.

Lemma client_unconfigured (site : ReadClient.world) :
  site_unconfigured site -> ReadClient.client site = None.
Proof.
  intros H. unfold ReadClient.client, ReadClient.serviceDomain,
    ReadClient.apiKey.
  destruct H as [H | H]; rewrite (or_else_falsy _ _ H).
  - reflexivity.
  - now destruct (or_else _ _).
Qed.

(** C3, amended. Both revisions of the publishing script end at start-up
    with an error message and status 1, before they read the command line or
    call anything, when the service domain or the API key is absent or empty
    once [.env] has been read. The read client does not fail at start-up:
    without either variable its client is [null], [getBlogs] returns an
    empty response without any request, and [getBlogDetail] throws. *)
Theorem C3_unconfigured (w : Script.world) (site : ReadClient.world) :
  script_unconfigured w ->
  site_unconfigured site ->
  Script.TextOnly.script w = ([Script.ConsoleError Script.CONFIG_ERROR], Exit 1)
  /\ Script.Docx.script w = ([Script.ConsoleError Script.CONFIG_ERROR], Exit 1)
  /\ ReadClient.client site = None
  /\ (forall queries,
        ReadClient.getBlogs site queries = ([], Return empty_response))
  /\ (forall contentId,
        ReadClient.getBlogDetail site contentId
        = ([], Throw (lit "microCMS client is not configured"))).
Proof.
  intros Hw Hsite.
  split; [now apply start_unconfigured|].
  split; [now apply start_unconfigured|].
  pose proof (client_unconfigured site Hsite) as Hc.
  split; [exact Hc|].
  split; intros x.
  - unfold ReadClient.getBlogs. now rewrite Hc.
  - unfold ReadClient.getBlogDetail. now rewrite Hc.
Qed.

Lemma C3_unconfigured_witness :
  script_unconfigured bare_world
  /\ site_unconfigured bare_site
  /\ Script.Docx.script bare_world
     = ([Script.ConsoleError Script.CONFIG_ERROR], Exit 1)
  /\ ReadClient.getBlogs bare_site None = ([], Return empty_response).
Proof.
  assert (Hw : script_unconfigured bare_world) by (left; reflexivity).
  assert (Hs : site_unconfigured bare_site) by (left; reflexivity).
  destruct (C3_unconfigured bare_world bare_site Hw Hs)
    as (_ & Hdocx & _ & Hlist & _).
  split; [exact Hw|]. split; [exact Hs|].
  split; [exact Hdocx | exact (Hlist None)].
Defined.

(** ** The category given on the command line *)

Lemma offline_app (a b : list Script.event) :
  offline a -> offline b -> offline (a ++ b).
Proof.
  unfold offline. intros Ha Hb. now rewrite List.filter_app, Ha, Hb.
Qed.

(** [parseArgs] always returns, and only ever warns. *)
Lemma parse_loop_returns (n : nat) :
  forall (args : list jsstring) (collecting : bool) (o : Script.opts),
    (length args <= n)%nat ->
    exists t o',
      Script.parse_loop collecting args o = (t, Return o') /\ offline t.
Proof.
  induction n as [|n IH]; intros args collecting o Hlen.
  - destruct args; [|cbn in Hlen; lia]. exists [], o. now split.
  - destruct args as [|arg rest]; [exists [], o; now split|].
    cbn [length] in Hlen.
    assert (Hrest : forall c o1, exists t o',
              Script.parse_loop c rest o1 = (t, Return o') /\ offline t).
    { intros c o1. apply IH. lia. }
    assert (Hvalue : forall (set : option jsstring -> Script.opts -> Script.opts),
              exists t o',
                match rest with
                | v :: rest' => Script.parse_loop false rest' (set (Some v) o)
                | [] => ret (set None o)
                end = (t, Return o') /\ offline t).
    { intros set. destruct rest as [|v rest'].
      - exists [], (set None o). now split.
      - apply IH. cbn [length] in Hlen. lia. }
    cbn [Script.parse_loop].
    destruct (collecting && negb (startsWith (lit "-") arg)); [apply Hrest|].
    destruct (Script.is_opt arg ["--text"; "-t"]%string);
      [apply (Hvalue Script.set_text)|].
    destruct (Script.is_opt arg ["--images"; "-i"]%string); [apply Hrest|].
    destruct (Script.is_opt arg ["--title"]%string);
      [apply (Hvalue Script.set_title)|].
    destruct (Script.is_opt arg ["--category"; "-c"]%string);
      [apply (Hvalue Script.set_category)|].
    destruct (Script.is_opt arg ["--writer"; "-w"]%string);
      [apply (Hvalue Script.set_writer)|].
    destruct (Script.is_opt arg ["--featured"]%string); [apply Hrest|].
    destruct (Script.is_opt arg ["--dry-run"]%string); [apply Hrest|].
    destruct (Hrest false o) as (t & o' & E & Ht).
    exists (Script.ConsoleWarn (lit "不明なオプション: " ++ arg) :: t), o'.
    split; [|exact Ht].
    unfold Script.warn, emit, Eff.bind. now rewrite E.
Qed.

Lemma parseArgs_returns (w : Script.world) :
  exists t, Script.parseArgs w = (t, Return (parsed w)) /\ offline t.
Proof.
  destruct (parse_loop_returns (length (Script.argv w)) (Script.argv w) false
              Script.opts0 (le_n _)) as (t & o & E & Ht).
  exists t. split; [|exact Ht].
  unfold parsed, Script.parseArgs. rewrite E. reflexivity.
Qed.

Ltac run_to_end :=
  cbn [Eff.bind Eff.emit Eff.exit Eff.ret Eff.result Eff.trace
       Script.error Script.log Script.warn negb fst snd app].

(** The first revision checks the category before anything goes to the
    network. *)
Lemma TextOnly_bad_override (w : Script.world) (domain apiKey : jsstring) :
  bad_override w ->
  result (Script.TextOnly.main w domain apiKey) = Exit 1
  /\ offline (trace (Script.TextOnly.main w domain apiKey)).
Proof.
  intros [Hcat Hbad].
  destruct (parseArgs_returns w) as (t & E & Ht).
  unfold Script.TextOnly.main. rewrite E. cbn [Eff.bind].
  destruct (truthy (Script.text (parsed w))); cbn [negb].
  2:{ run_to_end. split; [reflexivity|].
      apply offline_app; [exact Ht | reflexivity]. }
  destruct (Script.files w (show (Script.text (parsed w)))) as [f|].
  2:{ run_to_end. split; [reflexivity|].
      apply offline_app; [exact Ht | reflexivity]. }
  rewrite (or_else_truthy _ _ Hcat), Hbad. run_to_end.
  split; [reflexivity|]. apply offline_app; [exact Ht | reflexivity].
Qed.

(** So does the second revision when the source is not a Word file. *)
Lemma Docx_text_source_bad_override (w : Script.world)
  (domain apiKey : jsstring) :
  bad_override w ->
  eqb (toLowerCase (extname (show (Script.text (parsed w))))) (lit ".docx")
  = false ->
  result (Script.Docx.main w domain apiKey) = Exit 1
  /\ offline (trace (Script.Docx.main w domain apiKey)).
Proof.
  intros [Hcat Hbad] Hext.
  destruct (parseArgs_returns w) as (t & E & Ht).
  unfold Script.Docx.main. rewrite E. cbn [Eff.bind].
  destruct (truthy (Script.text (parsed w))); cbn [negb].
  2:{ run_to_end. split; [reflexivity|].
      apply offline_app; [exact Ht | reflexivity]. }
  destruct (Script.files w (show (Script.text (parsed w)))) as [f|] eqn:Hf.
  2:{ run_to_end. split; [reflexivity|].
      apply offline_app; [exact Ht | reflexivity]. }
  rewrite Hext. unfold Script.processText, Script.readFileSync. rewrite Hf.
  run_to_end. cbn [Script.p_rawText Script.p_html].
  rewrite (or_else_truthy _ _ Hcat), Hbad. run_to_end.
  split; [reflexivity|]. apply offline_app; [exact Ht | reflexivity].
Qed.

(** C1 at the failing input: a Word source with one embedded image, no dry
    run, and [--category ニュース]. The script uploads the embedded image and
    only then refuses the category and exits with status 1. *)
Theorem C1_docx_uploads_before_category_check :
  bad_override docx_world
  /\ List.filter Script.isNetwork (trace (Script.Docx.script docx_world))
     = [Script.MediaUpload (lit "archeco") (lit "secret") (lit "image/png")
          (lit "docx-image-1.png") [137; 80; 78; 71]]
  /\ List.last (trace (Script.Docx.script docx_world)) (Script.ConsoleLog [])
     = Script.ConsoleError Script.category_error
  /\ result (Script.Docx.script docx_world) = Exit 1.
Proof. repeat split; vm_compute; reflexivity. Qed.

Example bad_override_on_text_source :
  bad_override bad_category_world
  /\ offline (trace (Script.TextOnly.script bad_category_world))
  /\ result (Script.TextOnly.script bad_category_world) = Exit 1
  /\ offline (trace (Script.Docx.script bad_category_world))
  /\ result (Script.Docx.script bad_category_world) = Exit 1.
Proof. repeat split; vm_compute; reflexivity. Qed.

(** An empty string given as the category is falsy: the script takes the
    category it detects, as if none had been given. *)
Example empty_override_is_ignored :
  Script.category (parsed empty_category_world) = Some []
  /\ List.filter Script.isNetwork
       (trace (Script.Docx.script empty_category_world))
     = [Script.CmsCreate (lit "archeco") (lit "secret") sample_record]
  /\ result (Script.Docx.script empty_category_world) = Return tt.
Proof. repeat split; vm_compute; reflexivity. Qed.

(** *** Word sources: the uploads come first *)

Section WordSource.

Variable w : Script.world.
Variables domain apiKey : jsstring.

Lemma log_all_returns (msgs : list jsstring) :
  exists t, Script.log_all msgs = (t, Return tt).
Proof.
  induction msgs as [|m msgs [t IH]]; [now exists []|].
  cbn [Script.log_all]. rewrite IH. run_to_end. eauto.
Qed.

Lemma byteString_latin1 (s : jsstring) : Script.byteString s = latin1 s.
Proof.
  unfold Script.byteString, latin1. induction s as [|c s IH]; [reflexivity|].
  cbn [forallb]. rewrite IH. f_equal.
  destruct (N.leb_spec c 255), (N.ltb_spec c 256); reflexivity || lia.
Qed.

(** Of the three headers, the key, the content type and the file name
    decide: the rest of [Content-Disposition] is ASCII. *)
Lemma headers_latin1 (contentType fileName : jsstring) :
  forallb Script.byteString
    [apiKey; contentType;
     lit "attachment; filename=" ++ QUOTE ++ fileName ++ QUOTE]
  = latin1 apiKey && latin1 contentType && latin1 fileName.
Proof.
  cbn [forallb]. rewrite !byteString_latin1, andb_true_r, andb_assoc.
  f_equal. unfold latin1. rewrite !forallb_app.
  change (forallb (fun c => c <? 256) (lit "attachment; filename=")) with true.
  change (forallb (fun c => c <? 256) QUOTE) with true.
  cbn [andb]. now rewrite andb_true_r.
Qed.

(** The one request of [uploadImageBuffer] is in the trace exactly when it
    is sent, and a URL comes back only from an answer with a success
    status. *)
Lemma uploadImageBuffer_sent (buffer : list N) (contentType fileName : jsstring) :
  let m := Script.uploadImageBuffer w domain apiKey buffer contentType fileName in
  trace m
  = (if sent w apiKey contentType fileName buffer
     then [Script.MediaUpload domain apiKey contentType fileName buffer]
     else [])
  /\ ((exists url status text,
         Script.media w fileName buffer = Script.Responded status text url
         /\ ok status = true
         /\ sent w apiKey contentType fileName buffer = true
         /\ result m = Return url)
      \/ exists e, result m = Throw e).
Proof.
  unfold Script.uploadImageBuffer, sent. cbv zeta.
  rewrite headers_latin1.
  destruct (latin1 apiKey && latin1 contentType && latin1 fileName);
    cbn [negb andb].
  2:{ split; [reflexivity|]. right. now eexists. }
  destruct (Script.media w fileName buffer) as [status text url | message | message].
  - destruct (ok status) eqn:Hok; cbn [negb]; (split; [reflexivity|]).
    + left. exists url, status, text. auto.
    + right. now eexists.
  - split; [reflexivity|]. right. now eexists.
  - split; [reflexivity|]. right. now eexists.
Qed.

(** The callback swallows every failure of an upload; without a dry run its
    trace holds the request for its image when that request is sent. *)
Lemma convertImage_returns (dry : bool) (idx : N) (image : Script.docx_image) :
  let fileName :=
    lit "docx-image-" ++ decimal idx
    ++ (if eqb (Script.img_contentType image) (lit "image/png")
        then lit ".png" else lit ".jpg") in
  exists t r,
    Script.convertImage w domain apiKey dry idx image = (t, Return r)
    /\ forall data,
         dry = false ->
         Script.img_data image = Some data ->
         sent w apiKey (Script.img_contentType image) fileName data = true ->
         In (Script.MediaUpload domain apiKey (Script.img_contentType image)
               fileName data) t.
Proof.
  cbv zeta. unfold Script.convertImage. destruct dry.
  - run_to_end. eexists _, _. split; [reflexivity|]. discriminate.
  - destruct (Script.img_data image) as [b|].
    + rewrite bind_ret_l.
      match goal with
      | |- context [Script.uploadImageBuffer w domain apiKey b ?ct ?fn] =>
        destruct (uploadImageBuffer_sent b ct fn) as [Ht Hr];
        destruct (Script.uploadImageBuffer w domain apiKey b ct fn)
          as [tu ru] eqn:Eu
      end.
      cbn [trace result fst snd] in Ht, Hr. subst tu.
      destruct Hr as [(url & status & text & _ & _ & Hs & ->) | [e ->]].
      * rewrite Hs. unfold try_catch. run_to_end. eexists _, _.
        split; [reflexivity|]. intros data _ [= <-] _. now left.
      * unfold try_catch. run_to_end. eexists _, _.
        split; [reflexivity|]. intros data _ [= <-] ->. now left.
    + unfold throw, try_catch. run_to_end. eexists _, _.
      split; [reflexivity|]. discriminate.
Qed.

Lemma convertImages_returns (dry : bool) (imgs : list Script.docx_image) :
  forall idx,
  exists t r,
    Script.convertImages w domain apiKey dry idx imgs = (t, Return r)
    /\ forall image rest data,
         let fileName :=
           lit "docx-image-" ++ decimal (idx + 1)
           ++ (if eqb (Script.img_contentType image) (lit "image/png")
               then lit ".png" else lit ".jpg") in
         dry = false ->
         imgs = image :: rest ->
         Script.img_data image = Some data ->
         sent w apiKey (Script.img_contentType image) fileName data = true ->
         In (Script.MediaUpload domain apiKey (Script.img_contentType image)
               fileName data) t.
Proof.
  induction imgs as [|image imgs IH]; intros idx.
  - exists [], ([], []). split; [reflexivity|]. discriminate.
  - cbn [Script.convertImages].
    destruct (convertImage_returns dry (idx + 1) image) as (t1 & r1 & E1 & H1).
    destruct (IH (idx + 1)) as (t2 & r2 & E2 & _).
    rewrite E1. cbn [Eff.bind]. rewrite E2. run_to_end.
    eexists _, _. split; [reflexivity|].
    intros image' rest data Hdry [= <- <-] Hdata Hsent.
    apply in_or_app. left. now apply H1.
Qed.

Lemma processDocx_returns (filePath : jsstring) (dry : bool)
  (f : Script.file) (doc : Script.docx_doc) :
  Script.files w filePath = Some f ->
  Script.file_docx f = Some doc ->
  exists t r,
    Script.processDocx w domain apiKey filePath dry = (t, Return r)
    /\ forall image rest data,
         let fileName :=
           lit "docx-image-" ++ decimal 1
           ++ (if eqb (Script.img_contentType image) (lit "image/png")
               then lit ".png" else lit ".jpg") in
         dry = false ->
         Script.doc_images doc = image :: rest ->
         Script.img_data image = Some data ->
         sent w apiKey (Script.img_contentType image) fileName data = true ->
         In (Script.MediaUpload domain apiKey (Script.img_contentType image)
               fileName data) t.
Proof.
  intros Hf Hdoc. unfold Script.processDocx, Script.readFileSync.
  rewrite Hf. run_to_end. rewrite Hdoc.
  destruct (convertImages_returns dry (Script.doc_images doc) 0)
    as (t1 & r1 & E1 & H1).
  rewrite E1. cbn [Eff.bind].
  destruct (Script.doc_messages doc) as [|m msgs].
  - run_to_end. eexists _, _. split; [reflexivity|].
    intros image rest data Hdry Himgs Hdata Hsent.
    apply in_or_app. left. now apply (H1 image rest data).
  - destruct (log_all_returns
                (map (fun m => lit "  " ++ fst m ++ lit ": " ++ snd m)
                   (m :: msgs))) as [t2 E2].
    rewrite E2. run_to_end. eexists _, _. split; [reflexivity|].
    intros image rest data Hdry Himgs Hdata Hsent.
    apply in_or_app. left. now apply (H1 image rest data).
Qed.

(** With a Word source that embeds an image, no dry run, and a category on
    the command line that is not one of the four, the second revision has
    already sent the first image, when [fetch] sends it, by the time it
    refuses the category. *)
Lemma Docx_word_source_uploads_first (f : Script.file)
  (doc : Script.docx_doc) (image : Script.docx_image)
  (rest : list Script.docx_image) (data : list N) :
  let fileName :=
    lit "docx-image-" ++ decimal 1
    ++ (if eqb (Script.img_contentType image) (lit "image/png")
        then lit ".png" else lit ".jpg") in
  bad_override w ->
  truthy (Script.text (parsed w)) = true ->
  Script.files w (show (Script.text (parsed w))) = Some f ->
  eqb (toLowerCase (extname (show (Script.text (parsed w))))) (lit ".docx")
  = true ->
  Script.dryRun (parsed w) = false ->
  Script.file_docx f = Some doc ->
  Script.doc_images doc = image :: rest ->
  Script.img_data image = Some data ->
  sent w apiKey (Script.img_contentType image) fileName data = true ->
  result (Script.Docx.main w domain apiKey) = Exit 1
  /\ In (Script.MediaUpload domain apiKey (Script.img_contentType image)
           fileName data)
        (trace (Script.Docx.main w domain apiKey)).
Proof.
  intros fileName [Hcat Hbad] Htext Hf Hext Hdry Hdoc Himgs Hdata Hsent.
  destruct (parseArgs_returns w) as (t & E & Ht).
  destruct (processDocx_returns (show (Script.text (parsed w))) false f doc
              Hf Hdoc) as (tp & r & Ep & Hin).
  specialize (Hin image rest data eq_refl Himgs Hdata Hsent).
  unfold Script.Docx.main. rewrite E. cbn [Eff.bind].
  rewrite Htext. cbn [negb]. rewrite Hf, Hext, Hdry, Ep. run_to_end.
  rewrite (or_else_truthy _ _ Hcat), Hbad. run_to_end.
  split; [reflexivity|].
  rewrite !in_app_iff. cbn [In]. rewrite !in_app_iff. tauto.
Qed.

End WordSource.

(** ** Further runs of the models *)

Example loadEnv_reads_dotenv :
  Script.loadEnv dotenv_world !! Script.DOMAIN_VAR = Some (lit "archeco")
  /\ Script.loadEnv dotenv_world !! Script.KEY_VAR = Some (lit "secret")
  /\ offline (trace (Script.Docx.script dotenv_world))
  /\ result (Script.Docx.script dotenv_world) = Return tt.
Proof. repeat split; vm_compute; reflexivity. Qed.

Example handler_forwards_post :
  Notify.handler notify_world career_request
  = ([Notify.WebhookPost (lit "https://hooks.example/T0")
        {| Notify.header_text := lit ":briefcase: 中途採用エントリー";
           Notify.section_fields :=
             [lit "*name*" ++ [NEWLINE] ++ lit "Aoki";
              lit "*note*" ++ [NEWLINE] ++ lit "(未入力)"];
           Notify.context_text :=
             lit "送信元: <https://int-incubation.com|ARCHECO採用サイト> | 2025/1/1 9:00:00" |};
      Notify.Respond 200 Notify.OkJson],
     Return tt).
Proof. vm_compute. reflexivity. Qed.

(** * Further properties of the code *)

(** ** Traces of runs *)

Ltac run_cbn :=
  cbn [Eff.bind Eff.emit Eff.exit Eff.ret Eff.throw Eff.try_catch Eff.result
       Eff.trace Script.error Script.log Script.warn negb fst snd app].

Ltac solve_events :=
  repeat match goal with
  | |- Forall _ [] => constructor
  | |- Forall _ (_ :: _) =>
    constructor; [first [exact I | reflexivity | assumption]|]
  | |- Forall _ (_ ++ _) => apply List.Forall_app; split
  | |- Forall _ _ => assumption
  end.

Lemma trace_bind_return {E A B} (t : list E) (a : A) (k : A -> prog E B) :
  trace (Eff.bind (t, Return a) k) = t ++ trace (k a)
  /\ result (Eff.bind (t, Return a) k) = result (k a).
Proof. cbn. now destruct (k a). Qed.

Lemma bind_return_eq {E A B} (m : prog E A) (t : list E) (a : A)
  (k : A -> prog E B) :
  m = (t, Return a) ->
  Eff.bind m k = (t ++ trace (k a), result (k a)).
Proof. intros ->. cbn. now destruct (k a). Qed.

Lemma offline_Forall (t : list Script.event) :
  offline t <-> Forall (fun e => Script.isNetwork e = false) t.
Proof.
  unfold offline. induction t as [|e t IH]; [split; [constructor|reflexivity]|].
  cbn [List.filter]. destruct (Script.isNetwork e) eqn:He; split.
  - discriminate.
  - intros H. inversion H; subst. congruence.
  - intros H. constructor; [exact He | now apply IH].
  - intros H. inversion H; subst. now apply IH.
Qed.


Lemma offline_before_publish (dry : bool) (t : list Script.event) :
  offline t -> Forall (before_publish dry) t.
Proof.
  intros H. apply offline_Forall in H. eapply List.Forall_impl; [|exact H].
  intros [ | | | | | ]; cbn; intros; congruence || exact I.
Qed.

(** ** The eyecatch *)

Lemma scan_image_member (stat : jsstring -> option N) (l : list jsstring) :
  forall b s, In (fst (fold_left (scan_image stat) l (b, s))) (b :: l).
Proof.
  induction l as [|p l IH]; intros b s; [now left|].
  cbn [fold_left]. unfold scan_image at 2.
  destruct (stat p) as [size|].
  - destruct (s <? size).
    + specialize (IH p size). destruct IH as [<- | IH]; [right; now left|].
      right. now right.
    + specialize (IH b s). destruct IH as [<- | IH]; [now left|].
      right. now right.
  - specialize (IH b s). destruct IH as [<- | IH]; [now left|].
    right. now right.
Qed.

Lemma selectBestImage_member (stat : jsstring -> option N)
  (paths : list jsstring) :
  match selectBestImage stat paths with
  | Some p => In p paths
  | None => paths = []
  end.
Proof.
  destruct paths as [|p0 [|p1 rest]]; [reflexivity | now left |].
  cbn [selectBestImage].
  destruct (scan_image_member stat (p0 :: p1 :: rest) p0 0) as [<- | H];
    [now left | exact H].
Qed.

Section ScriptRuns.

Variable w : Script.world.
Variables domain apiKey : jsstring.

(** An eyecatch that cannot be read fails before anything is sent, and so
    does one whose request [fetch] does not send. *)
Lemma uploadImageFile_cases (imagePath : jsstring) :
  let m := Script.uploadImageFile w domain apiKey imagePath in
  (Script.files w imagePath = None /\ trace m = [] /\ exists e, result m = Throw e)
  \/ (exists f contentType,
        Script.files w imagePath = Some f
        /\ contentType
           = or_else (Script.lookup_str (toLowerCase (extname imagePath))
                        Script.mimeMap) (lit "image/jpeg")
        /\ trace m
           = (if sent w apiKey contentType (basename imagePath)
                   (Script.file_bytes f)
              then [Script.MediaUpload domain apiKey contentType
                      (basename imagePath) (Script.file_bytes f)]
              else [])
        /\ ((exists url, result m = Return url) \/ exists e, result m = Throw e)).
Proof.
  unfold Script.uploadImageFile, Script.readFileSync.
  destruct (Script.files w imagePath) as [f|].
  - right. exists f. eexists. split; [reflexivity|]. split; [reflexivity|].
    rewrite bind_ret_l.
    destruct (uploadImageBuffer_sent w domain apiKey (Script.file_bytes f)
                (or_else (Script.lookup_str (toLowerCase (extname imagePath))
                            Script.mimeMap) (lit "image/jpeg"))
                (basename imagePath)) as [Ht Hr].
    split; [exact Ht|].
    destruct Hr as [(url & _ & _ & _ & _ & _ & Hr) | Hr]; [left | right]; eauto.
  - left. split; [reflexivity|]. run_cbn. split; [reflexivity | eauto].
Qed.

(** The choice and upload of the eyecatch never ends the run: a failed
    upload is reported and the run goes on without one. *)
Lemma eyecatchUpload_returns (o : Script.opts) (label : jsstring) :
  exists t v,
    Script.eyecatchUpload w domain apiKey o label = (t, Return v)
    /\ Forall (before_publish (Script.dryRun o)) t.
Proof.
  unfold Script.eyecatchUpload.
  destruct (Script.images o) as [|i0 imgs] eqn:Himgs.
  { exists [], None. split; [reflexivity | constructor]. }
  pose proof (selectBestImage_member (Script.statSize w) (i0 :: imgs)) as Hsel.
  destruct (selectBestImage (Script.statSize w) (i0 :: imgs)) as [best|];
    [|discriminate].
  destruct (Script.dryRun o) eqn:Hdry; cbn [negb].
  { run_cbn. eexists _, _. split; [reflexivity | solve_events]. }
  destruct (Script.uploadImageFile w domain apiKey best) as [tu ru] eqn:Eu.
  pose proof (uploadImageFile_cases best) as Hu. rewrite Eu in Hu.
  cbn [trace result fst snd] in Hu.
  assert (Htu : Forall (before_publish false) tu).
  { destruct Hu as [(_ & -> & _) | (f & ct & _ & _ & -> & _)];
      [constructor|]. destruct (sent _ _ _ _ _); repeat constructor. }
  destruct ru as [url | c | e].
  - run_cbn. eexists _, _. split; [reflexivity | solve_events].
  - exfalso.
    destruct Hu as [(_ & _ & e & He)
                   | (f & ct & _ & _ & _ & [[u Hu] | [e He]])];
      discriminate.
  - run_cbn. eexists _, _. split; [reflexivity | solve_events].
Qed.

End ScriptRuns.

(** ** Word documents *)

Section DocxRuns.

Variable w : Script.world.
Variables domain apiKey : jsstring.

Lemma uploads_app (a b : list Script.event) :
  uploads (a ++ b) = (uploads a + uploads b)%nat.
Proof. unfold uploads. now rewrite List.filter_app, length_app. Qed.

Lemma convertImage_shape (dry : bool) (idx : N) (image : Script.docx_image) :
  exists t src em,
    Script.convertImage w domain apiKey dry idx image = (t, Return (src, em))
    /\ Forall (before_publish dry) t
    /\ uploads t = (if dry then 0
                    else if image_sent w apiKey idx image then 1 else 0)%nat
    /\ (length em <= 1)%nat
    /\ (if dry then length em = 1%nat else (length em <= uploads t)%nat).
Proof.
  unfold Script.convertImage, image_sent. destruct dry.
  - run_cbn. eexists _, _, _. split; [reflexivity|].
    split; [solve_events|]. repeat split; cbn [length]; lia.
  - fold (docx_image_name idx image).
    destruct (Script.img_data image) as [b|].
    + rewrite bind_ret_l.
      destruct (uploadImageBuffer_sent w domain apiKey b
                  (Script.img_contentType image) (docx_image_name idx image))
        as [Ht Hr].
      destruct (Script.uploadImageBuffer w domain apiKey b
                  (Script.img_contentType image) (docx_image_name idx image))
        as [tu ru] eqn:Eu.
      cbn [trace result fst snd] in Ht, Hr. subst tu.
      destruct Hr as [(url & status & text & _ & _ & Hs & ->) | [e ->]].
      * rewrite Hs. run_cbn. eexists _, _, _. split; [reflexivity|].
        split; [solve_events|].
        repeat split; cbn [length uploads List.filter isUpload]; lia.
      * destruct (sent _ _ _ _ _); run_cbn; eexists _, _, _;
          (split; [reflexivity|]); (split; [solve_events|]);
          repeat split; cbn [length uploads List.filter isUpload]; lia.
    + run_cbn. eexists _, _, _. split; [reflexivity|].
      split; [solve_events|].
      repeat split; cbn [length uploads List.filter isUpload]; lia.
Qed.

Lemma convertImages_shape (dry : bool) (imgs : list Script.docx_image) :
  forall idx,
  exists t srcs em,
    Script.convertImages w domain apiKey dry idx imgs = (t, Return (srcs, em))
    /\ Forall (before_publish dry) t
    /\ uploads t = (if dry then 0 else images_sent w apiKey idx imgs)%nat
    /\ length srcs = length imgs
    /\ (length em <= length imgs)%nat
    /\ (if dry then length em = length imgs else (length em <= uploads t)%nat).
Proof.
  induction imgs as [|image imgs IH]; intros idx.
  - exists [], [], []. split; [reflexivity|]. split; [constructor|].
    destruct dry; repeat split; reflexivity || (cbn; lia).
  - cbn [Script.convertImages].
    destruct (convertImage_shape dry (idx + 1) image)
      as (t1 & src & em1 & E1 & F1 & U1 & L1 & D1).
    destruct (IH (idx + 1)) as (t2 & srcs & em2 & E2 & F2 & U2 & S2 & L2 & D2).
    rewrite E1. cbn [Eff.bind]. rewrite E2. run_cbn.
    eexists _, _, _. split; [reflexivity|].
    split; [solve_events|].
    rewrite app_nil_r, uploads_app, length_app, U1, U2.
    cbn [images_sent length].
    destruct dry.
    + repeat split; cbn [length]; lia.
    + rewrite U1, U2 in *. repeat split; cbn [length] in *; lia.
Qed.

Lemma log_all_shape (dry : bool) (msgs : list jsstring) :
  exists t, Script.log_all msgs = (t, Return tt)
            /\ Forall (before_publish dry) t /\ uploads t = 0%nat.
Proof.
  induction msgs as [|m msgs (t & E & F & U)].
  - exists []. repeat split. constructor.
  - cbn [Script.log_all]. rewrite E. run_cbn. eexists. split; [reflexivity|].
    split; [solve_events | exact U].
Qed.

Lemma processDocx_shape (filePath : jsstring) (dry : bool)
  (f : Script.file) (doc : Script.docx_doc) :
  Script.files w filePath = Some f ->
  Script.file_docx f = Some doc ->
  exists t r srcs,
    Script.processDocx w domain apiKey filePath dry = (t, Return r)
    /\ Forall (before_publish dry) t
    /\ uploads t
       = (if dry then 0
          else images_sent w apiKey 0 (Script.doc_images doc))%nat
    /\ length srcs = length (Script.doc_images doc)
    /\ Script.p_html r = Script.doc_html doc srcs
    /\ Script.p_rawText r = Script.doc_rawText doc
    /\ (length (Script.p_embeddedImages r)
        <= length (Script.doc_images doc))%nat
    /\ (if dry
        then length (Script.p_embeddedImages r)
             = length (Script.doc_images doc)
        else (length (Script.p_embeddedImages r) <= uploads t)%nat).
Proof.
  intros Hf Hdoc. unfold Script.processDocx, Script.readFileSync.
  rewrite Hf. run_cbn. rewrite Hdoc.
  destruct (convertImages_shape dry (Script.doc_images doc) 0)
    as (t1 & srcs & em & E1 & F1 & U1 & S1 & L1 & D1).
  rewrite E1. cbn [Eff.bind].
  destruct (Script.doc_messages doc) as [|m msgs].
  - run_cbn. eexists _, _, srcs. split; [reflexivity|].
    cbn [Script.p_html Script.p_rawText Script.p_embeddedImages fst snd].
    split; [solve_events|].
    rewrite app_nil_r.
    destruct dry; repeat split; assumption || lia.
  - destruct (log_all_shape dry
                (map (fun m => lit "  " ++ fst m ++ lit ": " ++ snd m)
                   (m :: msgs))) as (t2 & E2 & F2 & U2).
    rewrite E2. run_cbn. eexists _, _, srcs. split; [reflexivity|].
    cbn [Script.p_html Script.p_rawText Script.p_embeddedImages fst snd].
    split; [solve_events|].
    rewrite app_nil_r.
    change (?a :: t2) with ([a] ++ t2).
    rewrite !uploads_app, U2.
    cbn [uploads List.filter isUpload length]. rewrite !Nat.add_0_r.
    destruct dry; repeat split; assumption || lia.
Qed.

(** Whatever the file, the only way out of [processDocx] besides a result
    is an exception, and what it sent before are uploads. *)
Lemma processDocx_outcomes (filePath : jsstring) (dry : bool) :
  exists t,
    Forall (before_publish dry) t
    /\ ((exists r, Script.processDocx w domain apiKey filePath dry
                   = (t, Return r))
        \/ exists e, Script.processDocx w domain apiKey filePath dry
                     = (t, Throw e)).
Proof.
  destruct (Script.files w filePath) as [f|] eqn:Hf.
  - destruct (Script.file_docx f) as [doc|] eqn:Hdoc.
    + destruct (processDocx_shape filePath dry f doc Hf Hdoc)
        as (t & r & _ & E & F & _).
      exists t. split; [exact F|]. left. eauto.
    + exists []. split; [constructor|]. right.
      unfold Script.processDocx, Script.readFileSync. rewrite Hf. run_cbn.
      rewrite Hdoc. run_cbn. eauto.
  - exists []. split; [constructor|]. right.
    unfold Script.processDocx, Script.readFileSync. rewrite Hf. run_cbn. eauto.
Qed.

End DocxRuns.

(** ** The shape of a run of [main] *)

Section MainRuns.

Variable w : Script.world.
Variables domain apiKey : jsstring.

(** [publish] sends nothing in a dry run, and otherwise exactly the
    creation of the record; only a refused creation ends the run badly. *)
Lemma publish_cases (o : Script.opts)
  (title content category description : jsstring)
  (eyecatch : option jsstring) :
  let p := Script.publish w domain apiKey o title content category
             description eyecatch in
  let record := assemble o title content category description eyecatch in
  List.filter Script.isNetwork (trace p)
  = (if Script.dryRun o then []
     else [Script.CmsCreate domain apiKey record])
  /\ result p
     = (if Script.dryRun o then Return tt
        else match Script.cms w record with
             | inl _ => Return tt
             | inr _ => Exit 1
             end).
Proof.
  cbv zeta. unfold Script.publish. fold (assemble o title content category
                                          description eyecatch).
  destruct (Script.dryRun o).
  - run_cbn. split; reflexivity.
  - run_cbn. destruct (Script.cms w _) as [id | message]; run_cbn;
      split; reflexivity.
Qed.

Lemma TextOnly_main_shape :
  main_shape w domain apiKey (Script.TextOnly.main w domain apiKey).
Proof.
  destruct (parseArgs_returns w) as (t0 & E & Ht0).
  apply (offline_before_publish (Script.dryRun (parsed w))) in Ht0.
  unfold main_shape, Script.TextOnly.main. rewrite E. cbn [Eff.bind].
  destruct (truthy (Script.text (parsed w))); cbn [negb].
  2:{ run_cbn. eexists. split; [|left; reflexivity]. solve_events. }
  destruct (Script.files w (show (Script.text (parsed w)))) as [f|].
  2:{ run_cbn. eexists. split; [|left; reflexivity]. solve_events. }
  destruct (includes _ CATEGORIES) eqn:Hcat; cbn [negb].
  2:{ run_cbn. eexists. split; [|left; reflexivity]. solve_events. }
  destruct (eyecatchUpload_returns w domain apiKey (parsed w)
              (lit "アイキャッチ: ")) as (te & ey & Ee & Fe).
  rewrite Ee. run_cbn.
  destruct (Script.publish w domain apiKey (parsed w) _ _ _ _ ey)
    as [tp rp] eqn:Ep.
  eexists. split; [|right; right].
  2:{ exists (Script.file_text f), (textToHtml (Script.file_text f)), ey.
      cbv zeta. split; [exact Hcat|]. rewrite Ep. cbn [trace result fst snd].
      rewrite !app_comm_cons, !app_assoc. reflexivity. }
  solve_events.
Qed.

Lemma Docx_main_shape :
  main_shape w domain apiKey (Script.Docx.main w domain apiKey).
Proof.
  destruct (parseArgs_returns w) as (t0 & E & Ht0).
  apply (offline_before_publish (Script.dryRun (parsed w))) in Ht0.
  unfold main_shape, Script.Docx.main. rewrite E. cbn [Eff.bind].
  destruct (truthy (Script.text (parsed w))); cbn [negb].
  2:{ run_cbn. eexists. split; [|left; reflexivity]. solve_events. }
  destruct (Script.files w (show (Script.text (parsed w)))) as [f|] eqn:Hf.
  2:{ run_cbn. eexists. split; [|left; reflexivity]. solve_events. }
  assert (Hsource : exists ts,
    Forall (before_publish (Script.dryRun (parsed w))) ts
    /\ ((exists r,
           (if eqb (toLowerCase (extname (show (Script.text (parsed w)))))
                 (lit ".docx")
            then Script.processDocx w domain apiKey
                   (show (Script.text (parsed w))) (Script.dryRun (parsed w))
            else Script.processText w (show (Script.text (parsed w))))
           = (ts, Return r))
        \/ (exists e,
              eqb (toLowerCase (extname (show (Script.text (parsed w)))))
                (lit ".docx") = true
              /\ Script.processDocx w domain apiKey
                   (show (Script.text (parsed w))) (Script.dryRun (parsed w))
                 = (ts, Throw e)))).
  { destruct (eqb _ (lit ".docx")).
    - destruct (processDocx_outcomes w domain apiKey
                  (show (Script.text (parsed w))) (Script.dryRun (parsed w)))
        as (ts & Fs & [[r Er] | [e Er]]); exists ts; (split; [exact Fs|]);
        [left | right]; eauto.
    - exists []. split; [constructor|]. left.
      unfold Script.processText, Script.readFileSync. rewrite Hf. run_cbn.
      eauto. }
  destruct Hsource as (ts & Fs & [[r Er] | (e & Hx & Er)]).
  - destruct (eqb _ (lit ".docx")); rewrite Er; run_cbn;
      (destruct (includes _ CATEGORIES) eqn:Hcat; cbn [negb];
       [| run_cbn; eexists; (split; [|left; reflexivity]); solve_events]);
      (destruct (eyecatchUpload_returns w domain apiKey (parsed w)
                   (lit "アイキャッチ選定: ")) as (te & ey & Ee & Fe));
      rewrite Ee; run_cbn;
      (destruct (Script.publish w domain apiKey (parsed w) _ _ _ _ ey)
         as [tp rp] eqn:Ep);
      (eexists; split; [|right; right;
         exists (Script.p_rawText r), (Script.p_html r), ey;
         cbv zeta; split; [exact Hcat|]; rewrite Ep;
         cbn [trace result fst snd];
         rewrite ?app_comm_cons, ?app_assoc; reflexivity]);
      solve_events.
  - rewrite Hx, Er. run_cbn. eexists.
    split; [|right; left; eexists; reflexivity]. solve_events.
Qed.

End MainRuns.

(** ** Whole runs of the script *)

Lemma start_cases
  (main : Script.world -> jsstring -> jsstring -> Script.run unit)
  (w : Script.world) :
  Script.start main w = ([Script.ConsoleError Script.CONFIG_ERROR], Exit 1)
  \/ exists domain apiKey, Script.start main w = main w domain apiKey.
Proof.
  unfold Script.start. cbv zeta.
  destruct (negb _ || negb _); [left; reflexivity | right; eauto].
Qed.

Lemma start_shape (w : Script.world)
  (main : Script.world -> jsstring -> jsstring -> Script.run unit) :
  (forall domain apiKey, main_shape w domain apiKey (main w domain apiKey)) ->
  exists domain apiKey, main_shape w domain apiKey (Script.start main w).
Proof.
  intros Hmain. destruct (start_cases main w) as [E | (d & k & E)].
  - exists [], []. rewrite E. eexists. split; [|left; reflexivity].
    solve_events.
  - exists d, k. rewrite E. apply Hmain.
Qed.

Lemma script_shapes (w : Script.world) :
  (exists domain apiKey,
     main_shape w domain apiKey (Script.TextOnly.script w))
  /\ (exists domain apiKey,
        main_shape w domain apiKey (Script.Docx.script w)).
Proof.
  split; apply start_shape; intros d k;
    [apply TextOnly_main_shape | apply Docx_main_shape].
Qed.

Lemma filter_network_before_publish (dry : bool) (t : list Script.event) :
  Forall (before_publish dry) t ->
  List.filter Script.isNetwork t = List.filter isUpload t
  /\ (dry = true -> List.filter Script.isNetwork t = []).
Proof.
  induction 1 as [|e t He Ht [IH1 IH2]]; [split; reflexivity|].
  destruct e; cbn in He |- *; try (split; assumption); try contradiction.
  split; [now rewrite IH1 | intros ->; discriminate].
Qed.




Lemma generateDescription_length (text : jsstring) :
  (length (generateDescription text) <= 120)%nat.
Proof. rewrite generateDescription_spec. apply truncated_length. lia. Qed.

Lemma creations_satisfy_app (P : Script.postData -> Prop)
  (a b : list Script.event) :
  creations_satisfy P a -> creations_satisfy P b ->
  creations_satisfy P (a ++ b).
Proof. intros Ha Hb. apply List.Forall_app. now split. Qed.

Lemma before_publish_no_creation (P : Script.postData -> Prop) (dry : bool)
  (t : list Script.event) :
  Forall (before_publish dry) t -> creations_satisfy P t.
Proof.
  intros H. eapply List.Forall_impl; [|exact H].
  intros [ | | | | | ]; cbn; tauto.
Qed.

(** The creations in the trace of [publish] are the one of its record. *)
Lemma publish_creations (P : Script.postData -> Prop) (w : Script.world)
  (domain apiKey : jsstring) (o : Script.opts)
  (title content category description : jsstring)
  (eyecatch : option jsstring) :
  P (assemble o title content category description eyecatch) ->
  creations_satisfy P
    (trace (Script.publish w domain apiKey o title content category
              description eyecatch)).
Proof.
  intros HP. unfold Script.publish.
  fold (assemble o title content category description eyecatch).
  destruct (Script.dryRun o).
  - run_cbn. unfold creations_satisfy. solve_events.
  - run_cbn. destruct (Script.cms w _); run_cbn;
      unfold creations_satisfy; solve_events.
Qed.

Lemma main_shape_creations (P : Script.postData -> Prop) (w : Script.world)
  (domain apiKey : jsstring) (m : Script.run unit) :
  main_shape w domain apiKey m ->
  (forall raw content eyecatch,
     let category :=
       or_else (Script.category (parsed w)) (detectCategory raw) in
     includes category CATEGORIES = true ->
     P (assemble (parsed w)
          (or_else (Script.title (parsed w)) (generateTitle raw)) content
          category (generateDescription raw) eyecatch)) ->
  creations_satisfy P (trace m).
Proof.
  intros (t & Ft & Hm) HP.
  pose proof (before_publish_no_creation P _ t Ft) as Ht.
  destruct Hm as [-> | [[e ->] | (raw & content & ey & Hm)]];
    try exact Ht.
  cbv zeta in Hm. destruct Hm as [Hcat ->]. cbn [trace fst].
  apply creations_satisfy_app; [exact Ht|].
  apply publish_creations. now apply HP.
Qed.

(** X2. Whatever the command line, the files and the answers of the network,
    every record either revision submits for creation carries exactly one
    category, one of the four labels, and a description of at most 120
    characters. *)
Theorem submitted_record_is_valid (w : Script.world) :
  creations_satisfy (fun d => valid_record d = true)
    (trace (Script.TextOnly.script w))
  /\ creations_satisfy (fun d => valid_record d = true)
       (trace (Script.Docx.script w)).
Proof.
  destruct (script_shapes w) as [(d1 & k1 & H1) (d2 & k2 & H2)].
  split; eapply main_shape_creations; try eassumption;
    intros raw content ey category Hcat; unfold valid_record, assemble;
    cbn [Script.pd_category Script.pd_description];
    rewrite Hcat; cbn [andb];
    apply Nat.leb_le, generateDescription_length.
Qed.

(** X3. When no title is given on the command line, the title of every
    submitted record has at most 60 characters. *)
Theorem submitted_title_is_short (w : Script.world) :
  truthy (Script.title (parsed w)) = false ->
  creations_satisfy (fun d => (length (Script.pd_title d) <= 60)%nat)
    (trace (Script.TextOnly.script w))
  /\ creations_satisfy (fun d => (length (Script.pd_title d) <= 60)%nat)
       (trace (Script.Docx.script w)).
Proof.
  intros Htitle.
  destruct (script_shapes w) as [(d1 & k1 & H1) (d2 & k2 & H2)].
  split; eapply main_shape_creations; try eassumption;
    intros raw content ey category Hcat; unfold assemble;
    cbn [Script.pd_title];
    rewrite (or_else_falsy _ _ Htitle), generateTitle_spec;
    (destruct (first_non_blank raw);
     [apply truncated_length; lia
     |change (length UNTITLED) with 5%nat; lia]).
Qed.

Lemma submitted_title_is_short_witness :
  truthy (Script.title (parsed sample_world)) = false
  /\ creations_satisfy (fun d => (length (Script.pd_title d) <= 60)%nat)
       (trace (Script.Docx.script sample_world)).
Proof.
  split; [reflexivity|].
  apply (submitted_title_is_short sample_world). reflexivity.
Defined.

Lemma main_shape_network (w : Script.world) (domain apiKey : jsstring)
  (m : Script.run unit) :
  main_shape w domain apiKey m ->
  exists ups cr,
    List.filter Script.isNetwork (trace m) = ups ++ cr
    /\ forallb isUpload ups = true
    /\ (cr = []
        \/ exists d,
             cr = [Script.CmsCreate domain apiKey d]
             /\ Script.dryRun (parsed w) = false
             /\ result m = match Script.cms w d with
                           | inl _ => Return tt
                           | inr _ => Exit 1
                           end).
Proof.
  intros (t & Ft & Hm).
  destruct (filter_network_before_publish _ t Ft) as [Hups _].
  assert (Hall : forallb isUpload (List.filter isUpload t) = true).
  { apply forallb_forall. intros e He. now apply filter_In in He. }
  destruct Hm as [-> | [[e ->] | (raw & content & ey & Hm)]].
  - exists (List.filter isUpload t), []. cbn [trace fst].
    rewrite app_nil_r. auto.
  - exists (List.filter isUpload t), []. cbn [trace fst].
    rewrite app_nil_r. auto.
  - cbv zeta in Hm. destruct Hm as [_ ->]. cbn [trace result fst snd].
    destruct (publish_cases w domain apiKey (parsed w)
                (or_else (Script.title (parsed w)) (generateTitle raw)) content
                (or_else (Script.category (parsed w)) (detectCategory raw))
                (generateDescription raw) ey) as [Hn Hr].
    cbv zeta in Hn, Hr. rewrite List.filter_app, Hn, Hr, Hups.
    destruct (Script.dryRun (parsed w)) eqn:Hdry.
    + exists (List.filter isUpload t), []. auto.
    + eexists (List.filter isUpload t), _. split; [reflexivity|].
      split; [exact Hall|]. right. eexists. repeat split.
Qed.

(** X4. The network traffic of a run is a series of image uploads followed
    by at most one creation; nothing is sent after the creation, and the run
    ends normally when the content service accepted it and with status 1
    when it refused. *)
Theorem uploads_then_one_creation (w : Script.world) :
  (exists domain apiKey ups cr,
     List.filter Script.isNetwork (trace (Script.TextOnly.script w))
     = ups ++ cr
     /\ forallb isUpload ups = true
     /\ (cr = []
         \/ exists d,
              cr = [Script.CmsCreate domain apiKey d]
              /\ Script.dryRun (parsed w) = false
              /\ result (Script.TextOnly.script w)
                 = match Script.cms w d with
                   | inl _ => Return tt
                   | inr _ => Exit 1
                   end))
  /\ (exists domain apiKey ups cr,
        List.filter Script.isNetwork (trace (Script.Docx.script w))
        = ups ++ cr
        /\ forallb isUpload ups = true
        /\ (cr = []
            \/ exists d,
                 cr = [Script.CmsCreate domain apiKey d]
                 /\ Script.dryRun (parsed w) = false
                 /\ result (Script.Docx.script w)
                    = match Script.cms w d with
                      | inl _ => Return tt
                      | inr _ => Exit 1
                      end)).
Proof.
  destruct (script_shapes w) as [(d1 & k1 & H1) (d2 & k2 & H2)].
  split; [exists d1, k1 | exists d2, k2]; now apply main_shape_network.
Qed.

Lemma main_shape_success (w : Script.world) (domain apiKey : jsstring)
  (m : Script.run unit) :
  main_shape w domain apiKey m ->
  result m = Return tt ->
  Script.dryRun (parsed w) = false ->
  exists d id,
    In (Script.CmsCreate domain apiKey d) (trace m)
    /\ Script.cms w d = inl id
    /\ valid_record d = true.
Proof.
  intros (t & Ft & Hm) Hres Hdry.
  destruct Hm as [-> | [[e ->] | (raw & content & ey & Hm)]];
    try discriminate.
  cbv zeta in Hm. destruct Hm as [Hcat ->].
  cbn [trace result fst snd] in *.
  revert Hres. unfold Script.publish.
  fold (assemble (parsed w)
          (or_else (Script.title (parsed w)) (generateTitle raw)) content
          (or_else (Script.category (parsed w)) (detectCategory raw))
          (generateDescription raw) ey).
  rewrite Hdry. run_cbn.
  destruct (Script.cms w _) as [id | message] eqn:Hcms; run_cbn;
    [|discriminate].
  intros _. eexists _, id. split; [|split; [exact Hcms|]].
  - apply in_or_app. right. right. now left.
  - unfold valid_record, assemble.
    cbn [Script.pd_category Script.pd_description]. rewrite Hcat.
    apply Nat.leb_le, generateDescription_length.
Qed.

(** X5. A run without [--dry-run] that ends normally has created a record:
    its trace holds the creation of a valid record which the content service
    answered with an id. *)
Theorem normal_end_means_created (w : Script.world) :
  result (Script.Docx.script w) = Return tt ->
  Script.dryRun (parsed w) = false ->
  exists domain apiKey d id,
    In (Script.CmsCreate domain apiKey d) (trace (Script.Docx.script w))
    /\ Script.cms w d = inl id
    /\ valid_record d = true.
Proof.
  intros Hres Hdry. destruct (script_shapes w) as [_ (d2 & k2 & H2)].
  exists d2, k2. now apply main_shape_success.
Qed.

Lemma normal_end_means_created_witness :
  result (Script.Docx.script sample_world) = Return tt
  /\ Script.dryRun (parsed sample_world) = false
  /\ exists domain apiKey d id,
       In (Script.CmsCreate domain apiKey d)
          (trace (Script.Docx.script sample_world))
       /\ Script.cms sample_world d = inl id
       /\ valid_record d = true.
Proof.
  split; [vm_compute; reflexivity|]. split; [reflexivity|].
  apply (normal_end_means_created sample_world);
    [vm_compute; reflexivity | reflexivity].
Defined.

Lemma missing_source_main (w : Script.world) (domain apiKey : jsstring) :
  truthy (Script.text (parsed w)) = false
  \/ Script.files w (show (Script.text (parsed w))) = None ->
  (result (Script.TextOnly.main w domain apiKey) = Exit 1
   /\ offline (trace (Script.TextOnly.main w domain apiKey)))
  /\ (result (Script.Docx.main w domain apiKey) = Exit 1
      /\ offline (trace (Script.Docx.main w domain apiKey))).
Proof.
  intros H. destruct (parseArgs_returns w) as (t & E & Ht).
  unfold Script.TextOnly.main, Script.Docx.main. rewrite E. cbn [Eff.bind].
  destruct (truthy (Script.text (parsed w))) eqn:Htext; cbn [negb].
  - destruct H as [H | H]; [discriminate|]. rewrite H. run_cbn.
    repeat split; try reflexivity;
      (apply offline_app; [exact Ht | reflexivity]).
  - run_cbn. repeat split; try reflexivity;
      (apply offline_app; [exact Ht | reflexivity]).
Qed.

(** X6. When the command line names no source ([--text] absent, last, or
    with an empty value) or names a file that does not exist, both revisions
    end with status 1 and nothing has gone to the network. *)
Theorem missing_source_is_fatal (w : Script.world) :
  truthy (Script.text (parsed w)) = false
  \/ Script.files w (show (Script.text (parsed w))) = None ->
  (result (Script.TextOnly.script w) = Exit 1
   /\ offline (trace (Script.TextOnly.script w)))
  /\ (result (Script.Docx.script w) = Exit 1
      /\ offline (trace (Script.Docx.script w))).
Proof.
  intros H. unfold Script.TextOnly.script, Script.Docx.script.
  split.
  - destruct (start_cases Script.TextOnly.main w) as [E | (d & k & E)];
      rewrite E; [split; reflexivity|].
    apply (missing_source_main w d k H).
  - destruct (start_cases Script.Docx.main w) as [E | (d & k & E)];
      rewrite E; [split; reflexivity|].
    apply (missing_source_main w d k H).
Qed.

Lemma missing_source_is_fatal_witness :
  truthy (Script.text (parsed no_source_world)) = false
  /\ result (Script.Docx.script no_source_world) = Exit 1
  /\ offline (trace (Script.Docx.script no_source_world)).
Proof.
  assert (H : truthy (Script.text (parsed no_source_world)) = false)
    by reflexivity.
  split; [exact H|].
  exact (proj2 (missing_source_is_fatal no_source_world (or_introl H))).
Defined.

Lemma uploadImageFile_accepted (w : Script.world) (domain apiKey : jsstring)
  (imagePath url : jsstring) :
  result (Script.uploadImageFile w domain apiKey imagePath) = Return url ->
  exists f status text,
    Script.files w imagePath = Some f
    /\ Script.media w (basename imagePath) (Script.file_bytes f)
       = Script.Responded status text url
    /\ ok status = true.
Proof.
  unfold Script.uploadImageFile, Script.readFileSync.
  destruct (Script.files w imagePath) as [f|] eqn:Hf; [|discriminate].
  rewrite bind_ret_l.
  match goal with
  | |- result (Script.uploadImageBuffer _ _ _ ?b ?ct ?fn) = _ -> _ =>
    destruct (uploadImageBuffer_sent w domain apiKey b ct fn)
      as [_ [(u & status & text & Hm & Hok & _ & ->) | [e ->]]]
  end; [|discriminate].
  intros [= ->]. exists f, status, text. auto.
Qed.

(** X7. The choice and upload of the eyecatch never ends the run. It makes
    at most one request, none in a dry run; and it yields a URL only when
    the media endpoint answered the upload of one of the candidate files
    with a success status and that URL. Every failure (missing file, a
    request [fetch] does not send, unreachable endpoint, error status)
    yields no eyecatch. *)
Theorem eyecatch_failure_is_not_fatal (w : Script.world)
  (domain apiKey : jsstring) (o : Script.opts) (label : jsstring) :
  exists t v,
    Script.eyecatchUpload w domain apiKey o label = (t, Return v)
    /\ (uploads t <= 1)%nat
    /\ (if Script.dryRun o then v = None /\ uploads t = 0%nat else True)
    /\ match v with
       | None => True
       | Some url =>
         exists best f status text,
           In best (Script.images o)
           /\ Script.files w best = Some f
           /\ Script.media w (basename best) (Script.file_bytes f)
              = Script.Responded status text url
           /\ ok status = true
       end.
Proof.
  unfold Script.eyecatchUpload.
  destruct (Script.images o) as [|i0 imgs] eqn:Himgs.
  { exists [], None. split; [reflexivity|].
    destruct (Script.dryRun o); cbn; auto. }
  pose proof (selectBestImage_member (Script.statSize w) (i0 :: imgs)) as Hsel.
  destruct (selectBestImage (Script.statSize w) (i0 :: imgs)) as [best|];
    [|discriminate].
  destruct (Script.dryRun o) eqn:Hdry; cbn [negb].
  { run_cbn. eexists _, None. split; [reflexivity|].
    cbn [uploads List.filter isUpload length]. auto. }
  destruct (Script.uploadImageFile w domain apiKey best) as [tu ru] eqn:Eu.
  pose proof (uploadImageFile_cases w domain apiKey best) as Hu.
  pose proof (uploadImageFile_accepted w domain apiKey best) as Hacc.
  rewrite Eu in Hu, Hacc. cbn [trace result fst snd] in Hu, Hacc.
  assert (Htu : (uploads tu <= 1)%nat).
  { destruct Hu as [(_ & -> & _) | (f & ct & _ & _ & -> & _)];
      [cbn; lia|]. destruct (sent _ _ _ _ _); cbn; lia. }
  destruct ru as [url | c | e].
  - run_cbn. eexists _, (Some url). split; [reflexivity|].
    split.
    + change (?a :: tu ++ ?b) with ([a] ++ tu ++ b).
      rewrite !uploads_app. cbn [uploads List.filter isUpload length]. lia.
    + split; [exact I|].
      destruct (Hacc url eq_refl) as (f & status & text & Hf & Hm & Hok).
      exists best, f, status, text. auto.
  - exfalso.
    destruct Hu as [(_ & _ & e & He)
                   | (f & ct & _ & _ & _ & [[u Hu] | [e He]])];
      discriminate.
  - run_cbn. eexists _, None. split; [reflexivity|].
    split; [|auto].
    change (?a :: tu ++ ?b) with ([a] ++ tu ++ b).
    rewrite !uploads_app. cbn [uploads List.filter isUpload length]. lia.
Qed.

Lemma images_sent_le_readable (w : Script.world) (apiKey : jsstring)
  (imgs : list Script.docx_image) :
  forall idx, (images_sent w apiKey idx imgs <= readable imgs)%nat.
Proof.
  unfold readable.
  induction imgs as [|image imgs IH]; intros idx; [reflexivity|].
  cbn [images_sent List.filter]. specialize (IH (idx + 1)).
  unfold image_sent. destruct (Script.img_data image); [|exact IH].
  cbn [length]. destruct (sent _ _ _ _ _); lia.
Qed.

Lemma latin1_app (a b : jsstring) : latin1 (a ++ b) = latin1 a && latin1 b.
Proof. apply forallb_app. Qed.

Lemma latin1_decimal (n : N) : latin1 (decimal n) = true.
Proof.
  unfold decimal. generalize (DecimalString.NilZero.string_of_uint (N.to_uint n)).
  intros s. induction s as [|a s IH]; [reflexivity|].
  cbn [bytes_of latin1 forallb]. fold (latin1 (bytes_of s)). rewrite IH.
  pose proof (N_ascii_bounded a) as Ha. apply N.ltb_lt in Ha. now rewrite Ha.
Qed.

Lemma latin1_docx_image_name (idx : N) (image : Script.docx_image) :
  latin1 (docx_image_name idx image) = true.
Proof.
  unfold docx_image_name. rewrite !latin1_app, latin1_decimal.
  now destruct (eqb _ _).
Qed.

(** With a key and content types that can stand in headers, and a [fetch]
    that refuses nothing, every image that can be read is sent; with a key
    that cannot stand in a header none is. *)
Lemma images_sent_all (w : Script.world) (apiKey : jsstring)
  (imgs : list Script.docx_image) :
  latin1 apiKey = true ->
  Forall (fun i => latin1 (Script.img_contentType i) = true) imgs ->
  accepting w ->
  forall idx, images_sent w apiKey idx imgs = readable imgs.
Proof.
  intros Hkey Himgs Hw. unfold readable.
  induction Himgs as [|image imgs Hct _ IH]; intros idx; [reflexivity|].
  cbn [images_sent List.filter]. rewrite (IH (idx + 1)).
  unfold image_sent. destruct (Script.img_data image) as [data|];
    [|reflexivity].
  unfold sent. rewrite Hkey, Hct, latin1_docx_image_name.
  specialize (Hw (docx_image_name (idx + 1) image) data).
  destruct (Script.media w _ data); [reflexivity | reflexivity | destruct Hw].
Qed.

Lemma images_sent_bad_key (w : Script.world) (apiKey : jsstring)
  (imgs : list Script.docx_image) :
  latin1 apiKey = false ->
  forall idx, images_sent w apiKey idx imgs = 0%nat.
Proof.
  intros Hkey. induction imgs as [|image imgs IH]; intros idx; [reflexivity|].
  cbn [images_sent]. rewrite IH. unfold image_sent, sent. rewrite Hkey.
  now destruct (Script.img_data image).
Qed.

(** X8. On a file mammoth can read, [processDocx] always comes back with a
    result, whatever the uploads do. In a dry run it sends nothing.
    Otherwise it sends one upload for each embedded image whose data can be
    read and whose request [fetch] sends: never more than one per readable
    image; exactly one per readable image when the key and the content
    types of the images can stand in headers and [fetch] refuses nothing;
    none at all when the key cannot stand in a header. It makes no
    creation; mammoth gets one [src] per image, and the raw text is the one
    of the document. *)
Theorem docx_images_uploaded_once (w : Script.world) (domain apiKey : jsstring)
  (filePath : jsstring) (dry : bool) (f : Script.file)
  (doc : Script.docx_doc) :
  Script.files w filePath = Some f ->
  Script.file_docx f = Some doc ->
  exists t r srcs,
    Script.processDocx w domain apiKey filePath dry = (t, Return r)
    /\ uploads t
       = (if dry then 0
          else images_sent w apiKey 0 (Script.doc_images doc))%nat
    /\ (uploads t <= readable (Script.doc_images doc))%nat
    /\ (latin1 apiKey = true ->
        Forall (fun i => latin1 (Script.img_contentType i) = true)
          (Script.doc_images doc) ->
        accepting w ->
        uploads t = (if dry then 0 else readable (Script.doc_images doc))%nat)
    /\ (latin1 apiKey = false -> uploads t = 0%nat)
    /\ length (List.filter isCreate t) = 0%nat
    /\ length srcs = length (Script.doc_images doc)
    /\ Script.p_html r = Script.doc_html doc srcs
    /\ Script.p_rawText r = Script.doc_rawText doc
    /\ (if dry
        then length (Script.p_embeddedImages r)
             = length (Script.doc_images doc)
        else (length (Script.p_embeddedImages r) <= uploads t)%nat).
Proof.
  intros Hf Hdoc.
  destruct (processDocx_shape w domain apiKey filePath dry f doc Hf Hdoc)
    as (t & r & srcs & E & F & U & S & Hh & Hr & _ & D).
  exists t, r, srcs.
  split; [exact E|]. split; [exact U|].
  split.
  { rewrite U. destruct dry; [lia | apply images_sent_le_readable]. }
  split.
  { intros Hkey Himgs Hw. rewrite U. destruct dry; [reflexivity|].
    now apply images_sent_all. }
  split.
  { intros Hkey. rewrite U. destruct dry; [reflexivity|].
    now apply images_sent_bad_key. }
  repeat split; try assumption.
  clear -F. induction F as [|e t He Ht IH]; [reflexivity|].
  destruct e; cbn in He |- *; try exact IH. contradiction.
Qed.

Lemma docx_images_uploaded_once_witness :
  Script.files docx_world (lit "post.docx")
  = Some {| Script.file_bytes := [80; 75; 3; 4]; Script.file_text := [];
            Script.file_docx := Some one_image_doc |}
  /\ exists t r (srcs : list jsstring),
       Script.processDocx docx_world (lit "archeco") (lit "secret")
         (lit "post.docx") false = (t, Return r)
       /\ uploads t = 1%nat
       /\ length srcs = 1%nat.
Proof.
  split; [reflexivity|].
  destruct (docx_images_uploaded_once docx_world (lit "archeco")
              (lit "secret") (lit "post.docx") false _ one_image_doc
              eq_refl eq_refl)
    as (t & r & srcs & E & _ & _ & U & _ & _ & S & _).
  exists t, r, srcs. split; [exact E|]. split; [|exact S].
  apply U; [reflexivity | repeat constructor | intros name body; exact I].
Defined.

(** ** The two revisions on a text source *)

Lemma filter_skip (e : Script.event) (l : list Script.event) :
  observable e = false ->
  List.filter observable (e :: l) = List.filter observable l.
Proof. intros H. cbn [List.filter]. now rewrite H. Qed.

Ltac filter_norm :=
  cbn [Eff.trace Eff.result fst snd];
  repeat first [ rewrite List.filter_app
               | rewrite filter_skip by reflexivity ].

Lemma eyecatchUpload_label (w : Script.world) (domain apiKey : jsstring)
  (o : Script.opts) (l1 l2 : jsstring) :
  result (Script.eyecatchUpload w domain apiKey o l1)
  = result (Script.eyecatchUpload w domain apiKey o l2)
  /\ List.filter observable (trace (Script.eyecatchUpload w domain apiKey o l1))
     = List.filter observable
         (trace (Script.eyecatchUpload w domain apiKey o l2)).
Proof.
  unfold Script.eyecatchUpload.
  destruct (Script.images o); [split; reflexivity|].
  destruct (selectBestImage _ _) as [best|]; [|split; reflexivity].
  destruct (Script.dryRun o); cbn [negb]; [run_cbn; split; reflexivity|].
  destruct (Script.uploadImageFile w domain apiKey best) as [tu [url | c | e]];
    run_cbn; (split; [reflexivity|]); filter_norm; reflexivity.
Qed.

(** X9. On a source that is not a Word file, the revision with Word support
    behaves like the first one: the runs end the same way, send the same
    requests in the same order, and print the same record in a dry run. *)
Theorem revisions_agree_on_text (w : Script.world) (domain apiKey : jsstring) :
  eqb (toLowerCase (extname (show (Script.text (parsed w))))) (lit ".docx")
  = false ->
  result (Script.Docx.main w domain apiKey)
  = result (Script.TextOnly.main w domain apiKey)
  /\ List.filter observable (trace (Script.Docx.main w domain apiKey))
     = List.filter observable (trace (Script.TextOnly.main w domain apiKey)).
Proof.
  intros Hext. destruct (parseArgs_returns w) as (t0 & E & Ht0).
  unfold Script.Docx.main, Script.TextOnly.main. rewrite E. cbn [Eff.bind].
  destruct (truthy (Script.text (parsed w))); cbn [negb].
  2:{ run_cbn. split; [reflexivity|]. filter_norm. reflexivity. }
  destruct (Script.files w (show (Script.text (parsed w)))) as [f|] eqn:Hf.
  2:{ run_cbn. split; reflexivity. }
  rewrite Hext. unfold Script.processText, Script.readFileSync. rewrite Hf.
  run_cbn. cbn [Script.p_rawText Script.p_html].
  destruct (includes _ CATEGORIES); cbn [negb].
  2:{ run_cbn. split; [reflexivity|]. filter_norm. reflexivity. }
  destruct (eyecatchUpload_label w domain apiKey (parsed w)
              (lit "アイキャッチ選定: ") (lit "アイキャッチ: ")) as [Hr Ht].
  destruct (eyecatchUpload_returns w domain apiKey (parsed w)
              (lit "アイキャッチ選定: ")) as (te2 & ey2 & Ee2 & _).
  destruct (eyecatchUpload_returns w domain apiKey (parsed w)
              (lit "アイキャッチ: ")) as (te1 & ey1 & Ee1 & _).
  rewrite Ee1, Ee2 in Hr, Ht. cbn [trace result fst snd] in Hr, Ht.
  injection Hr as ->. rewrite Ee1, Ee2. run_cbn.
  destruct (Script.publish w domain apiKey (parsed w) _ _ _ _ ey1) as [tp rp].
  split; [reflexivity|]. filter_norm. now rewrite Ht.
Qed.

Lemma revisions_agree_on_text_witness :
  eqb (toLowerCase (extname (show (Script.text (parsed sample_world)))))
    (lit ".docx") = false
  /\ result (Script.Docx.main sample_world (lit "archeco") (lit "secret"))
     = result (Script.TextOnly.main sample_world (lit "archeco")
                 (lit "secret")).
Proof.
  split; [reflexivity|].
  apply (revisions_agree_on_text sample_world (lit "archeco") (lit "secret")).
  reflexivity.
Defined.

(** ** The [.env] file *)

Lemma loadEnv_line_keeps (env : gmap (list N) (list N)) (line : jsstring)
  (k v : jsstring) :
  env !! k = Some v -> truthy (Some v) = true ->
  Script.loadEnv_line env line !! k = Some v.
Proof.
  intros Hk Hv. unfold Script.loadEnv_line.
  destruct (trim line) as [|c r]; [exact Hk|].
  destruct (startsWith (lit "#") (c :: r)); [exact Hk|].
  destruct (indexOf 61 (c :: r)) as [idx|]; [|exact Hk].
  destruct (truthy (env !! trim (firstn idx (c :: r)))) eqn:Ht; [exact Hk|].
  rewrite lookup_insert_ne; [exact Hk|].
  intros <-. rewrite Hk in Ht. congruence.
Qed.

(** X10. The process environment wins over the [.env] file: a variable that
    is set and not empty when the script starts keeps its value, whatever
    the file says. *)
Theorem environment_wins_over_dotenv (w : Script.world) (k v : jsstring) :
  Script.environ w !! k = Some v ->
  truthy (Some v) = true ->
  Script.loadEnv w !! k = Some v.
Proof.
  intros Hk Hv. unfold Script.loadEnv.
  destruct (Script.dotenv w) as [content|]; [|exact Hk].
  generalize dependent (Script.environ w).
  induction (split 10 content) as [|line lines IH]; intros env Hk;
    [exact Hk|].
  cbn [fold_left]. apply IH. now apply loadEnv_line_keeps.
Qed.

Lemma environment_wins_over_dotenv_witness :
  Script.environ override_world !! Script.KEY_VAR = Some (lit "secret")
  /\ Script.loadEnv override_world !! Script.KEY_VAR = Some (lit "secret").
Proof.
  assert (H : Script.environ override_world !! Script.KEY_VAR
              = Some (lit "secret")) by (vm_compute; reflexivity).
  split; [exact H|].
  apply (environment_wins_over_dotenv override_world _ _ H). reflexivity.
Defined.

Lemma dropWhile_app_stop (p : char16 -> bool) (x y : jsstring) (c : char16) :
  p c = false -> dropWhile p (x ++ c :: y) = dropWhile p x ++ c :: y.
Proof.
  intros Hc. induction x as [|z x IH]; cbn [app dropWhile].
  - now rewrite Hc.
  - destruct (p z); [exact IH | reflexivity].
Qed.

Lemma trimEnd_app_stop (a b : jsstring) (c : char16) :
  isWhite c = false -> trimEnd (a ++ c :: b) = a ++ c :: trimEnd b.
Proof.
  intros Hc. unfold trimEnd.
  rewrite rev_app_distr. cbn [rev]. rewrite <- app_assoc. cbn [app].
  rewrite dropWhile_app_stop by exact Hc.
  rewrite rev_app_distr. cbn [rev]. rewrite rev_involutive.
  now rewrite <- app_assoc.
Qed.

Lemma dropWhile_idem (p : char16 -> bool) (s : jsstring) :
  dropWhile p (dropWhile p s) = dropWhile p s.
Proof.
  induction s as [|c s IH]; [reflexivity|].
  cbn [dropWhile]. destruct (p c) eqn:E; [exact IH|].
  cbn [dropWhile]. now rewrite E.
Qed.

Lemma trimEnd_idem (s : jsstring) : trimEnd (trimEnd s) = trimEnd s.
Proof.
  unfold trimEnd. now rewrite rev_involutive, dropWhile_idem.
Qed.









(** ** The command line *)

Lemma add_images_images (imgs : list jsstring) (o : Script.opts) :
  Script.images (add_images imgs o) = Script.images o ++ imgs
  /\ Script.text (add_images imgs o) = Script.text o
  /\ Script.title (add_images imgs o) = Script.title o
  /\ Script.category (add_images imgs o) = Script.category o
  /\ Script.writer (add_images imgs o) = Script.writer o
  /\ Script.featured (add_images imgs o) = Script.featured o
  /\ Script.dryRun (add_images imgs o) = Script.dryRun o.
Proof.
  revert o. induction imgs as [|i imgs IH]; intros o.
  - cbn. now rewrite app_nil_r.
  - cbn [add_images fold_left]. fold (add_images imgs (Script.push_image i o)).
    destruct (IH (Script.push_image i o)) as (H1 & H2 & H3 & H4 & H5 & H6 & H7).
    rewrite H1, H2, H3, H4, H5, H6, H7. cbn. now rewrite <- app_assoc.
Qed.

Lemma parse_collecting (imgs rest : list jsstring) (o : Script.opts) :
  forallb (fun a => negb (dashed a)) imgs = true ->
  Script.parse_loop true (imgs ++ rest) o
  = Script.parse_loop true rest (add_images imgs o).
Proof.
  revert o. induction imgs as [|i imgs IH]; intros o H; [reflexivity|].
  cbn [forallb] in H. apply andb_true_iff in H as [Hi Himgs].
  cbn [app Script.parse_loop]. unfold dashed in Hi. rewrite Hi.
  cbn [andb]. now apply IH.
Qed.

(** At the end of the images, the inner loop hands over to the outer one. *)
Lemma parse_collecting_done (rest : list jsstring) (o : Script.opts) :
  match rest with
  | [] => true
  | a :: _ => dashed a
  end = true ->
  Script.parse_loop true rest o = Script.parse_loop false rest o.
Proof.
  destruct rest as [|a rest]; [reflexivity|]. intros Ha.
  unfold dashed in Ha. cbn [Script.parse_loop]. rewrite Ha. reflexivity.
Qed.

(** X12. [--images] (or [-i]) takes every argument that follows as an image,
    in order, up to the first argument that starts with [-] or to the end;
    what comes next is read as if [--images] and its files had not been
    there, and no other option is touched. *)
Theorem images_option_collects (flag : jsstring)
  (imgs rest : list jsstring) (o : Script.opts) :
  flag = lit "--images" \/ flag = lit "-i" ->
  forallb (fun a => negb (dashed a)) imgs = true ->
  match rest with
  | [] => true
  | a :: _ => dashed a
  end = true ->
  Script.parse_loop false (flag :: imgs ++ rest) o
  = Script.parse_loop false rest (add_images imgs o)
  /\ Script.images (add_images imgs o) = Script.images o ++ imgs.
Proof.
  intros Hflag Himgs Hrest.
  split; [|apply add_images_images].
  transitivity (Script.parse_loop true (imgs ++ rest) o).
  - destruct Hflag as [-> | ->]; reflexivity.
  - rewrite parse_collecting by exact Himgs.
    now apply parse_collecting_done.
Qed.

Lemma images_option_collects_witness :
  Script.images (parsed images_world) = [lit "a.png"; lit "b.png"]
  /\ Script.parse_loop false (Script.argv images_world) Script.opts0
     = Script.parse_loop false [lit "--dry-run"; lit "--text"; lit "post.md"]
         (add_images [lit "a.png"; lit "b.png"] Script.opts0).
Proof.
  split; [reflexivity|].
  apply (images_option_collects (lit "--images") [lit "a.png"; lit "b.png"]
           [lit "--dry-run"; lit "--text"; lit "post.md"] Script.opts0);
    [left; reflexivity | reflexivity | reflexivity].
Defined.

(** ** The notification handler, all requests *)

Ltac notify_cbn :=
  cbn [Eff.bind Eff.emit Eff.exit Eff.ret Eff.throw Eff.try_catch Eff.result
       Eff.trace Notify.respond negb fst snd app].

(** X13. Whatever the request and the state of the webhook, the handler
    answers exactly once, as the last thing it does, with status 200, 405,
    500 or 502; it posts to the webhook at most once, and no exception
    leaves it. The body is [{ ok: true }] exactly for status 200. *)
Theorem handler_responds_once (w : Notify.world) (req : Notify.request) :
  exists before status payload,
    Notify.handler w req
    = (before ++ [Notify.Respond status payload], Return tt)
    /\ List.filter isRespond before = []
    /\ (length (List.filter isPost before) <= 1)%nat
    /\ In status [200; 405; 500; 502]
    /\ (payload = Notify.OkJson <-> status = 200).
Proof.
  unfold Notify.handler.
  destruct (eqb (Notify.method req) (lit "POST")); cbn [negb].
  2:{ exists [], 405, (Notify.ErrorJson (lit "Method not allowed")).
      repeat split; try reflexivity; try discriminate; cbn; auto. }
  destruct (truthy (Notify.SLACK_WEBHOOK_URL w)); cbn [negb].
  2:{ notify_cbn. eexists [_], 500, _. split; [reflexivity|].
      repeat split; try reflexivity; try discriminate; cbn; auto. }
  destruct (Notify.req_body req) as [b|]; notify_cbn.
  2:{ eexists [_], 500, _. split; [reflexivity|].
      repeat split; try reflexivity; try discriminate; cbn; auto. }
  destruct (Notify.fields b) as [fs|]; notify_cbn.
  2:{ eexists [_], 500, _. split; [reflexivity|].
      repeat split; try reflexivity; try discriminate; cbn; auto. }
  destruct (Notify.webhook w _ _) as [status text | message]; notify_cbn.
  - destruct (ok status); notify_cbn.
    + eexists [_], 200, _. split; [reflexivity|].
      repeat split; try reflexivity; cbn; auto.
    + eexists [_; _], 502, _. split; [reflexivity|].
      repeat split; try reflexivity; try discriminate; cbn; auto.
  - eexists [_; _], 500, _. split; [reflexivity|].
    repeat split; try reflexivity; try discriminate; cbn; auto.
Qed.

(** X14. The handler posts to the webhook only for a POST request and only
    to the configured, non-empty URL, and then answers by what the webhook
    did: 200 for a success status, 502 for another status, 500 when the call
    failed. It answers 200 in no other case. *)
Theorem ok_means_delivered (w : Notify.world) (req : Notify.request) :
  Forall (fun e =>
    match e with
    | Notify.WebhookPost url message =>
      Notify.method req = lit "POST"
      /\ Notify.SLACK_WEBHOOK_URL w = Some url
      /\ url <> []
      /\ exists payload,
           In (Notify.Respond (reply_status (Notify.webhook w url message))
                 payload)
              (trace (Notify.handler w req))
    | Notify.Respond status _ =>
      status = 200 -> delivered w (trace (Notify.handler w req))
    | _ => True
    end) (trace (Notify.handler w req)).
Proof.
  unfold Notify.handler.
  destruct (eqb (Notify.method req) (lit "POST")) eqn:Hm; cbn [negb].
  2:{ notify_cbn. repeat constructor. discriminate. }
  apply eqb_eq in Hm.
  destruct (Notify.SLACK_WEBHOOK_URL w) as [[|c url]|] eqn:Hurl;
    cbn [truthy negb].
  1,3: notify_cbn; repeat constructor; discriminate.
  destruct (Notify.req_body req) as [b|]; notify_cbn.
  2:{ repeat constructor. discriminate. }
  destruct (Notify.fields b) as [fs|]; notify_cbn.
  2:{ repeat constructor. discriminate. }
  cbn [show].
  destruct (Notify.webhook w (c :: url) _) as [status text | message] eqn:Hw;
    notify_cbn.
  - destruct (ok status) eqn:Hok; notify_cbn.
    + constructor; [|constructor; [|constructor]].
      * repeat split; try assumption; try discriminate.
        rewrite Hw. cbn [reply_status]. rewrite Hok. eexists. right. now left.
      * intros _. eexists (c :: url), _, status, text.
        repeat split; try eassumption. now left.
    + constructor; [|constructor; [exact I | constructor; [|constructor]]].
      * repeat split; try assumption; try discriminate.
        rewrite Hw. cbn [reply_status]. rewrite Hok. eexists.
        right. right. now left.
      * discriminate.
  - constructor; [|constructor; [exact I | constructor; [|constructor]]].
    + repeat split; try assumption; try discriminate.
      rewrite Hw. cbn [reply_status]. eexists. right. right. now left.
    + discriminate.
Qed.

(** ** The structure of the HTML *)

Lemma classify_wrap (tag content : jsstring) :
  In tag block_tags ->
  classify (wrap tag content)
  = if eqb tag (lit "li") then KItem else KBlock.
Proof.
  intros Htag. rewrite wrap_unfold.
  change block_tags
    with [[104; 49]; [104; 50]; [104; 51]; [108; 105]; [112]] in Htag.
  cbn [In] in Htag.
  destruct Htag as [<- | [<- | [<- | [<- | [<- | []]]]]]; reflexivity.
Qed.

Lemma reads_to_closeList (st : conv_state) :
  reads_to st -> reads_to (closeList st) /\ inList (closeList st) = false.
Proof.
  unfold reads_to, closeList. intros H.
  destruct (inList st) eqn:Hin; cbn [html inList].
  - split; [|reflexivity]. rewrite fold_left_app, H. reflexivity.
  - rewrite Hin. auto.
Qed.

Lemma reads_to_push_block (st : conv_state) (tag content : jsstring) :
  In tag block_tags -> eqb tag (lit "li") = false ->
  reads_to st -> inList st = false ->
  reads_to (push (wrap tag content) st).
Proof.
  unfold reads_to, push. intros Htag Hli H Hin. cbn [html inList].
  rewrite fold_left_app, H, Hin. cbn [fold_left]. unfold read.
  now rewrite classify_wrap, Hli.
Qed.

Lemma reads_to_convert_line (st : conv_state) (raw : jsstring) :
  reads_to st -> reads_to (convert_line st raw).
Proof.
  intros Hst. unfold convert_line.
  destruct (reads_to_closeList st Hst) as [Hc Hcin].
  destruct (match_prefix_ws_group (lit "###") (trimEnd raw)).
  { apply reads_to_push_block; auto. cbn; tauto. }
  destruct (match_prefix_ws_group (lit "##") (trimEnd raw)).
  { apply reads_to_push_block; auto. cbn; tauto. }
  destruct (match_prefix_ws_group (lit "#") (trimEnd raw)).
  { apply reads_to_push_block; auto. cbn; tauto. }
  destruct (match_list_item (trimEnd raw)).
  { unfold reads_to in *. unfold push. cbn [html inList].
    destruct (inList st) eqn:Hin; cbn [html inList].
    - rewrite Hin, fold_left_app, Hst. cbn [fold_left]. unfold read.
      rewrite classify_wrap by (cbn; tauto). reflexivity.
    - rewrite !fold_left_app, Hst. cbn [fold_left]. unfold read.
      change (classify UL_OPEN) with KOpen. cbn iota.
      rewrite classify_wrap by (cbn; tauto). reflexivity. }
  assert (H1 : reads_to (if inList st then closeList st else st)
               /\ inList (if inList st then closeList st else st) = false).
  { destruct (inList st) eqn:Hin; [now split | split; assumption]. }
  destruct H1 as [H1 H1in].
  destruct (eqb (trim (trimEnd raw)) []).
  - now apply reads_to_closeList.
  - apply reads_to_push_block; auto. cbn; tauto.
Qed.

(** X15. The array [textToHtml] builds is a sequence of headings, paragraphs
    and lists, where every list is [<ul>], at least one [<li>] item, and
    [</ul>]: lists are never nested or left open, and no item stands outside
    a list. *)
Theorem html_is_well_nested (text : jsstring) :
  well_nested (html_array text) = true.
Proof.
  unfold well_nested, html_array.
  assert (H : reads_to (fold_left convert_line (split NEWLINE text)
                          {| html := []; inList := false |})).
  { generalize (split NEWLINE text).
    assert (H0 : reads_to {| html := []; inList := false |}) by reflexivity.
    revert H0. generalize {| html := []; inList := false |}.
    intros st Hst lines. revert st Hst.
    induction lines as [|l lines IH]; intros st Hst; [exact Hst|].
    cbn [fold_left]. apply IH. now apply reads_to_convert_line. }
  destruct (reads_to_closeList _ H) as [Hc Hin].
  unfold reads_to in Hc. rewrite Hc, Hin. reflexivity.
Qed.

Section ForeignTag.

(** A character that starts none of the tags. *)
Variable c : char16.
Hypothesis c_foreign : existsb (N.eqb c) tag_letters = false.

Lemma c_cases :
  (c =? 104) = false /\ (c =? 108) = false /\ (c =? 112) = false
  /\ (c =? 117) = false /\ (c =? 47) = false.
Proof.
  unfold tag_letters in c_foreign. cbn [existsb] in c_foreign.
  repeat (apply orb_false_iff in c_foreign as [? c_foreign]).
  auto.
Qed.

Lemma foreign_skip (s r : jsstring) :
  (forall x, In x s -> x <> 60) ->
  occurrences [60; c] (s ++ r) = occurrences [60; c] r.
Proof.
  induction s as [|x s IH]; intros Hs; [reflexivity|].
  cbn [app occurrences]. rewrite IH by (intros y Hy; apply Hs; now right).
  cbn [startsWith].
  assert (Hx : (60 =? x) = false).
  { apply N.eqb_neq. intros E. apply (Hs x); [now left | congruence]. }
  now rewrite Hx.
Qed.

Lemma foreign_element (e r : jsstring) :
  element e -> occurrences [60; c] (e ++ r) = occurrences [60; c] r.
Proof.
  destruct c_cases as (H104 & H108 & H112 & H117 & H47).
  intros He. destruct He as [ | | tag content Htag].
  - change UL_OPEN with [60; 117; 108; 62].
    cbn [app occurrences startsWith N.eqb Pos.eqb andb Nat.add].
    now rewrite H117.
  - change UL_CLOSE with [60; 47; 117; 108; 62].
    cbn [app occurrences startsWith N.eqb Pos.eqb andb Nat.add].
    now rewrite H47.
  - assert (Hesc : forall t,
      occurrences [60; c] (esc content ++ t) = occurrences [60; c] t).
    { intros t. apply foreign_skip. intros x. apply esc_no_lt. }
    rewrite wrap_unfold.
    change block_tags
      with [[104; 49]; [104; 50]; [104; 51]; [108; 105]; [112]] in Htag.
    cbn [In] in Htag.
    destruct Htag as [<- | [<- | [<- | [<- | [<- | []]]]]];
      cbn -[esc occurrences];
      rewrite <- ?app_assoc;
      cbn [occurrences startsWith N.eqb Pos.eqb andb Nat.add app];
      rewrite ?H104, ?H108, ?H112, ?H47; cbn [andb Nat.add];
      rewrite Hesc;
      cbn [occurrences startsWith N.eqb Pos.eqb andb Nat.add app];
      rewrite ?H104, ?H108, ?H112, ?H47; reflexivity.
Qed.

Lemma foreign_join (l : list jsstring) :
  Forall element l -> occurrences [60; c] (join [NEWLINE] l) = 0%nat.
Proof.
  induction 1 as [|e l He Hl IH]; [reflexivity|].
  destruct l as [|e' l'].
  - cbn [join]. rewrite <- (app_nil_r e). now rewrite foreign_element.
  - change (join [NEWLINE] (e :: e' :: l'))
      with (e ++ [NEWLINE] ++ join [NEWLINE] (e' :: l')).
    rewrite foreign_element by assumption.
    rewrite foreign_skip; [exact IH|]. intros x [<- | []]. discriminate.
Qed.

End ForeignTag.

(** X16. Every [<] in the output of [textToHtml] starts one of its own tags:
    it is followed by [h], [l], [p], [u] or [/]. In particular the output
    never contains [<script], [<img] or [<a], whatever the text. *)
Theorem html_has_no_foreign_tag (text : jsstring) (c : char16) :
  existsb (N.eqb c) tag_letters = false ->
  occurrences [60; c] (textToHtml text) = 0%nat.
Proof.
  intros Hc. unfold textToHtml. apply foreign_join; [exact Hc|].
  apply html_array_balanced.
Qed.

Lemma html_has_no_foreign_tag_witness :
  existsb (N.eqb 115) tag_letters = false
  /\ occurrences (lit "<s")
       (textToHtml (lit "<script>alert(1)</script>")) = 0%nat.
Proof.
  split; [reflexivity|].
  apply (html_has_no_foreign_tag (lit "<script>alert(1)</script>") 115).
  reflexivity.
Defined.

(** ** Lines of the text *)

Lemma split_forallb (p : char16 -> bool) (sep : char16) (s : jsstring) :
  forallb p s = true -> Forall (fun l => forallb p l = true) (split sep s).
Proof.
  induction s as [|c s IH]; intros H.
  - repeat constructor.
  - cbn [forallb] in H. apply andb_true_iff in H as [Hc Hs].
    specialize (IH Hs). cbn [split].
    destruct (c =? sep).
    + constructor; [reflexivity | exact IH].
    + destruct (split sep s) as [|l ls]; [repeat constructor; cbn; now rewrite Hc|].
      inversion IH; subst. constructor; [|assumption].
      cbn [forallb]. now rewrite Hc.
Qed.

Lemma trimEnd_blank (l : jsstring) : forallb isWhite l = true -> trimEnd l = [].
Proof.
  intros H. unfold trimEnd.
  now rewrite (proj2 (dropWhile_nil_iff isWhite (rev l))
                 (proj2 (forallb_rev_true isWhite l) H)).
Qed.

Lemma convert_blank_line (st : conv_state) (l : jsstring) :
  forallb isWhite l = true -> convert_line st l = closeList st.
Proof.
  intros H. unfold convert_line. rewrite (trimEnd_blank l H).
  change (match_prefix_ws_group (lit "###") []) with (@None jsstring).
  change (match_prefix_ws_group (lit "##") []) with (@None jsstring).
  change (match_prefix_ws_group (lit "#") []) with (@None jsstring).
  cbn [match_list_item]. change (eqb (trim []) []) with true. cbv iota.
  unfold closeList. destruct (inList st) eqn:Hin; cbn [inList html];
    now rewrite ?Hin.
Qed.

(** X17. A text that holds nothing but white space (spaces, tabs, empty
    lines) gives no element and the empty string. *)
Theorem blank_text_gives_nothing (text : jsstring) :
  forallb isWhite text = true ->
  html_array text = [] /\ textToHtml text = [].
Proof.
  intros H. assert (Ha : html_array text = []).
  { unfold html_array.
    pose proof (split_forallb isWhite NEWLINE text H) as Hlines.
    assert (Hfold : fold_left convert_line (split NEWLINE text)
                      {| html := []; inList := false |}
                    = {| html := []; inList := false |}).
    { induction Hlines as [|l lines Hl _ IH]; [reflexivity|].
      cbn [fold_left]. now rewrite (convert_blank_line _ l Hl). }
    now rewrite Hfold. }
  split; [exact Ha|]. unfold textToHtml. now rewrite Ha.
Qed.

Lemma blank_text_gives_nothing_witness :
  forallb isWhite [32; 10; 9; 13; 10; 12288] = true
  /\ textToHtml [32; 10; 9; 13; 10; 12288] = [].
Proof.
  split; [reflexivity|].
  apply (blank_text_gives_nothing [32; 10; 9; 13; 10; 12288]). reflexivity.
Defined.

Lemma plain_content_facts (s : jsstring) :
  plain_content s = true ->
  trimEnd s = s
  /\ (exists c r, s = c :: r /\ isWhite c = false)
  /\ re_dot_plus s = Some s.
Proof.
  unfold plain_content. destruct s as [|c r]; [discriminate|].
  destruct (rev (c :: r)) as [|d r'] eqn:Hrev; [discriminate|].
  intros H. repeat (apply andb_true_iff in H as [H ?]).
  apply negb_true_iff in H, H1.
  split; [|split; [eauto|]].
  - apply (f_equal (@rev N)) in Hrev. rewrite rev_involutive in Hrev.
    rewrite Hrev. cbn [rev]. now rewrite trimEnd_app_stop by exact H1.
  - unfold re_dot_plus.
    assert (Ht : forall x, forallb (fun y => negb (isLineTerminator y)) x = true ->
                 takeWhile (fun y => negb (isLineTerminator y)) x = x).
    { induction x as [|y x IH]; [reflexivity|]. cbn [forallb takeWhile].
      intros Hx. apply andb_true_iff in Hx as [Hy Hx].
      now rewrite Hy, IH. }
    now rewrite Ht.
Qed.

Lemma re_ws_plus_group_space (s : jsstring) :
  plain_content s = true -> re_ws_plus_group (32 :: s) = Some s.
Proof.
  intros H. destruct (plain_content_facts s H) as (_ & (c & r & -> & Hc) & Hd).
  cbn [re_ws_plus_group]. change (isWhite 32) with true. cbv iota.
  cbn [re_ws_star_group]. rewrite Hc. exact Hd.
Qed.

Lemma trimEnd_heading (marks content : jsstring) :
  plain_content content = true ->
  trimEnd (marks ++ 32 :: content) = marks ++ 32 :: content.
Proof.
  intros H. destruct (plain_content_facts content H) as (Ht & (c & r & E & Hc) & _).
  rewrite E in *.
  replace (marks ++ 32 :: c :: r) with ((marks ++ [32]) ++ c :: r)
    by now rewrite <- app_assoc.
  rewrite trimEnd_app_stop by exact Hc.
  pose proof (eq_trans (eq_sym (trimEnd_app_stop [] r c Hc)) Ht) as H2.
  injection H2 as H2. now rewrite H2.
Qed.

(** X18. A line of one, two or three [#], a space and a text becomes the
    heading of that level, the text escaped, after any open list has been
    closed; a line that starts with four [#] or more is a paragraph. *)
Theorem heading_levels (st : conv_state) (n : nat) (content rest : jsstring) :
  plain_content content = true ->
  (1 <= n <= 3)%nat ->
  convert_line st (repeat 35 n ++ 32 :: content)
  = push (wrap (heading_tag n) content) (closeList st)
  /\ convert_line st (lit "####" ++ rest)
     = push (wrap (lit "p") (trimEnd (lit "####" ++ rest))) (closeList st).
Proof.
  intros Hc Hn. split.
  - unfold convert_line. rewrite trimEnd_heading by exact Hc.
    pose proof (re_ws_plus_group_space content Hc) as Hg.
    destruct n as [|[|[|[|n]]]]; try lia; cbn [repeat app];
      unfold match_prefix_ws_group;
      change (lit "###") with [35; 35; 35];
      change (lit "##") with [35; 35];
      change (lit "#") with [35];
      cbn [startsWith N.eqb Pos.eqb andb length skipn];
      rewrite ?Hg; reflexivity.
  - unfold convert_line.
    change (lit "####" ++ rest) with ([35; 35; 35] ++ 35 :: rest).
    rewrite trimEnd_app_stop by reflexivity. cbn [app].
    unfold match_prefix_ws_group.
    change (lit "###") with [35; 35; 35];
      change (lit "##") with [35; 35];
      change (lit "#") with [35].
    cbn [startsWith N.eqb Pos.eqb andb length skipn re_ws_plus_group
         match_list_item orb].
    change (isWhite 35) with false. cbv iota.
    destruct (eqb (trim _) []) eqn:Hb.
    { apply eqb_eq, trim_nil_iff in Hb. discriminate Hb. }
    unfold closeList.
    destruct (inList st) eqn:Hin; cbn [inList]; rewrite ?Hin; reflexivity.
Qed.

Lemma heading_levels_witness :
  plain_content (lit "Our culture") = true
  /\ convert_line {| html := []; inList := false |} (lit "## Our culture")
     = {| html := [lit "<h2>Our culture</h2>"]; inList := false |}.
Proof.
  split; [reflexivity|].
  apply (heading_levels {| html := []; inList := false |} 2
           (lit "Our culture") [] eq_refl). lia.
Defined.

(** ** More on [detectCategory] *)

(** X19. Whatever the text, the detected category is one of the four
    labels: without [--category] the check of the category cannot fail. *)
Theorem detected_category_is_valid (text : jsstring) :
  includes (detectCategory text) CATEGORIES = true.
Proof.
  unfold detectCategory. rewrite compute_scores_score.
  destruct (pick_best_four
              (lit "インタビュー") (lit "社風") (lit "制度") (lit "イベント")
              (score text 0) (score text 1) (score text 2) (score text 3))
    as (i & Hi & Hbest & _).
  change (nth 0 CATEGORIES []) with (lit "インタビュー").
  rewrite Hbest.
  destruct i as [|[|[|[|i]]]]; try lia; reflexivity.
Qed.

Section CaseOfText.

(** A change of the text that the [i] flag does not see. *)
Variable f : char16 -> char16.
Hypothesis f_same_case : forall c, canonicalize (f c) = canonicalize c.

Lemma matches_here_ci_map (kw s : jsstring) :
  matches_here_ci kw (map f s) = matches_here_ci kw s.
Proof.
  revert s. induction kw as [|a kw IH]; intros [|b s]; try reflexivity.
  cbn [map matches_here_ci]. now rewrite f_same_case, IH.
Qed.

Lemma regex_matches_ci_map (kw s : jsstring) :
  forall skip,
    length (regex_matches_ci kw skip (map f s))
    = length (regex_matches_ci kw skip s).
Proof.
  induction s as [|c s IH]; intros skip; [reflexivity|].
  cbn [map regex_matches_ci]. destruct skip as [|k]; [|apply IH].
  change (f c :: map f s) with (map f (c :: s)).
  rewrite matches_here_ci_map.
  destruct (matches_here_ci kw (c :: s)); [|apply IH].
  cbn [length]. now rewrite IH.
Qed.

Lemma compute_scores_map (text : jsstring) :
  compute_scores (map f text) = compute_scores text.
Proof.
  rewrite !compute_scores_spec. apply map_ext. intros [cat kws].
  cbn [fst snd]. f_equal. unfold label_score. f_equal.
  apply map_ext. intros kw. unfold keyword_count.
  apply regex_matches_ci_map.
Qed.

Lemma detectCategory_map (text : jsstring) :
  detectCategory (map f text) = detectCategory text.
Proof. unfold detectCategory. now rewrite compute_scores_map. Qed.

End CaseOfText.

Lemma canonicalize_idem (c : char16) :
  canonicalize (canonicalize c) = canonicalize c.
Proof.
  unfold canonicalize.
  destruct ((97 <=? c) && (c <=? 122)) eqn:E; [|now rewrite E].
  apply andb_true_iff in E as [E1 E2].
  apply N.leb_le in E1, E2.
  destruct (N.leb_spec 97 (c - 32)); [|reflexivity].
  destruct (N.leb_spec (c - 32) 122); cbn [andb]; [lia | reflexivity].
Qed.

Lemma canonicalize_lower (c : char16) :
  canonicalize (if (65 <=? c) && (c <=? 90) then c + 32 else c)
  = canonicalize c.
Proof.
  destruct ((65 <=? c) && (c <=? 90)) eqn:E; [|reflexivity].
  apply andb_true_iff in E as [E1 E2]. apply N.leb_le in E1, E2.
  unfold canonicalize.
  destruct (N.leb_spec 97 (c + 32)); [|lia].
  destruct (N.leb_spec (c + 32) 122); [|lia]. cbn [andb].
  destruct (N.leb_spec 97 c); [lia|]. cbn [andb]. lia.
Qed.

(** X20. The category does not depend on the case of the ASCII letters of
    the text: the text in lower case, or with every letter in upper case,
    gets the category of the text itself. *)
Theorem category_ignores_case (text : jsstring) :
  detectCategory (toLowerCase text) = detectCategory text
  /\ detectCategory (map canonicalize text) = detectCategory text.
Proof.
  split.
  - unfold toLowerCase. apply detectCategory_map. exact canonicalize_lower.
  - apply detectCategory_map. exact canonicalize_idem.
Qed.

(** ** More on [selectBestImage] *)

(** X21. [selectBestImage] returns nothing only for no path at all, and
    otherwise one of the paths it was given. *)
Theorem selected_image_is_a_candidate (stat : jsstring -> option N)
  (paths : list jsstring) :
  match selectBestImage stat paths with
  | Some p => In p paths
  | None => paths = []
  end.
Proof. apply selectBestImage_member. Qed.

(** X22. A path whose size is strictly above the size of every other path
    is the one returned, wherever it stands among the paths. *)
Theorem largest_image_wins (stat : jsstring -> option N)
  (paths : list jsstring) (p : jsstring) :
  In p paths ->
  Forall (fun q => q = p \/ size_or_zero stat q < size_or_zero stat p) paths ->
  selectBestImage stat paths = Some p.
Proof.
  intros Hin Hall.
  destruct paths as [|p0 [|p1 rest]].
  - destruct Hin.
  - destruct Hin as [-> | []]. reflexivity.
  - destruct (selectBestImage_first_largest stat p0 p1 rest)
      as (r & Hsel & i & Hi & _ & Hmax & _).
    cbn [fst snd] in *. rewrite Hsel. f_equal.
    apply nth_error_In in Hi.
    rewrite List.Forall_forall in Hall, Hmax.
    destruct (Hall r Hi) as [-> | Hlt]; [reflexivity|].
    specialize (Hmax p Hin). lia.
Qed.

Lemma largest_image_wins_witness :
  selectBestImage stat_10_20 [lit "small.png"; lit "large.png"]
  = Some (lit "large.png")
  /\ selectBestImage stat_10_20 [lit "large.png"; lit "small.png"]
     = Some (lit "large.png").
Proof.
  split.
  - apply (largest_image_wins stat_10_20 [lit "small.png"; lit "large.png"]);
      [right; now left|].
    constructor; [right; reflexivity | constructor; [now left | constructor]].
  - apply (largest_image_wins stat_10_20 [lit "large.png"; lit "small.png"]);
      [now left|].
    constructor; [now left | constructor; [right; reflexivity | constructor]].
Defined.

(** ** More on the title *)

Lemma split_no_sep (sep : char16) (s : jsstring) :
  Forall (fun l => ~ In sep l) (split sep s).
Proof.
  induction s as [|c s IH]; [constructor; [intros [] | constructor]|].
  cbn [split]. destruct (N.eqb_spec c sep) as [-> | Hne].
  - constructor; [intros [] | exact IH].
  - destruct (split sep s) as [|l ls].
    + constructor; [|constructor]. intros [E | []]. congruence.
    + inversion IH; subst. constructor; [|assumption].
      intros [E | Hin]; [congruence | contradiction].
Qed.

Lemma dropWhile_In (p : char16 -> bool) (s : jsstring) (x : char16) :
  In x (dropWhile p s) -> In x s.
Proof.
  induction s as [|c s IH]; [auto|]. cbn [dropWhile].
  destruct (p c); [intros H; right; now apply IH | auto].
Qed.

Lemma trim_In (s : jsstring) (x : char16) : In x (trim s) -> In x s.
Proof.
  unfold trim, trimEnd, trimStart. intros H.
  apply in_rev, dropWhile_In, in_rev in H. now apply dropWhile_In in H.
Qed.

Lemma strip_heading_marks_In (s : jsstring) (x : char16) :
  In x (strip_heading_marks s) -> In x s.
Proof.
  unfold strip_heading_marks. destruct s as [|c r]; [auto|].
  destruct (c =? 35); [|auto]. intros H.
  now apply dropWhile_In, dropWhile_In in H.
Qed.

(** What [trim] returns is empty or has no white space at either end, and
    trimming it again changes nothing. *)
Lemma trim_shape (s : jsstring) :
  trim s = []
  \/ exists c r, trim s = c :: trimEnd r /\ isWhite c = false.
Proof.
  unfold trim, trimStart.
  destruct (dropWhile isWhite s) as [|c r] eqn:E; [left; reflexivity|].
  right. exists c, r. pose proof (dropWhile_head _ _ _ _ E) as Hc.
  split; [|exact Hc]. apply (trimEnd_app_stop [] r c Hc).
Qed.

Lemma trim_fixed (c : char16) (r : jsstring) :
  isWhite c = false -> trim (c :: trimEnd r) = c :: trimEnd r.
Proof.
  intros Hc. unfold trim, trimStart. cbn [dropWhile]. rewrite Hc.
  etransitivity; [exact (trimEnd_app_stop [] (trimEnd r) c Hc)|].
  cbn [app]. now rewrite trimEnd_idem.
Qed.

(** X23. The generated title is a single line and has no white space at
    either end: it contains no newline, and trimming it changes nothing. *)
Theorem title_is_one_trimmed_line (text : jsstring) :
  ~ In NEWLINE (generateTitle text)
  /\ trim (generateTitle text) = generateTitle text.
Proof.
  rewrite generateTitle_spec. unfold first_non_blank. rewrite <- split_lines.
  destruct (find _ (split NEWLINE text)) as [l|] eqn:Hfind.
  2:{ split; [|reflexivity]. vm_compute. intuition discriminate. }
  apply find_some in Hfind as [Hl _].
  pose proof (split_no_sep NEWLINE text) as Hsep.
  rewrite List.Forall_forall in Hsep. specialize (Hsep l Hl).
  assert (Hno : ~ In NEWLINE (trim (strip_heading_marks l))).
  { intros H. now apply trim_In, strip_heading_marks_In in H. }
  unfold truncated.
  destruct (Nat.leb_spec (length (trim (strip_heading_marks l))) 60) as [Hs | Hlong].
  - split; [exact Hno|].
    destruct (trim_shape (strip_heading_marks l)) as [-> | (c & r & -> & Hc)];
      [reflexivity | now apply trim_fixed].
  - split.
    + intros H. apply in_app_or in H as [H | H].
      * apply Hno.
        rewrite <- (firstn_skipn (60 - 3) (trim (strip_heading_marks l))).
        apply in_or_app. now left.
      * revert H. vm_compute. intuition discriminate.
    + destruct (trim_shape (strip_heading_marks l)) as [E | (c & r & E & Hc)];
        rewrite E in *; [cbn in Hlong; lia|].
      cbn [Nat.sub firstn app].
      unfold trim, trimStart. cbn [dropWhile]. rewrite Hc.
      change (c :: firstn 56 (trimEnd r) ++ ellipsis)
        with ((c :: firstn 56 (trimEnd r)) ++ 46 :: [46; 46]).
      now rewrite trimEnd_app_stop by reflexivity.
Qed.

(** ** The request for the eyecatch *)

Lemma eqb_sym (a b : jsstring) : eqb a b = eqb b a.
Proof.
  revert b. induction a as [|x a IH]; intros [|y b]; try reflexivity.
  cbn [eqb]. now rewrite N.eqb_sym, IH.
Qed.

(** The table [mimeMap] with its default, by cases on the extension. *)
Lemma mimeMap_image_type (ext : jsstring) :
  or_else (Script.lookup_str ext Script.mimeMap) (lit "image/jpeg")
  = image_type ext.
Proof.
  unfold Script.mimeMap, image_type. cbn [Script.lookup_str].
  rewrite (eqb_sym ext (lit ".png")), (eqb_sym ext (lit ".webp")),
    (eqb_sym ext (lit ".gif")).
  destruct (eqb (lit ".jpg") ext) eqn:E1.
  { apply eqb_eq in E1. subst ext. vm_compute. reflexivity. }
  destruct (eqb (lit ".jpeg") ext) eqn:E2.
  { apply eqb_eq in E2. subst ext. vm_compute. reflexivity. }
  destruct (eqb (lit ".png") ext); [vm_compute; reflexivity|].
  destruct (eqb (lit ".webp") ext); [vm_compute; reflexivity|].
  destruct (eqb (lit ".gif") ext); vm_compute; reflexivity.
Qed.

Lemma image_type_is_image (ext : jsstring) : In (image_type ext) image_types.
Proof.
  unfold image_type.
  destruct (eqb ext (lit ".png")); [vm_compute; tauto|].
  destruct (eqb ext (lit ".webp")); [vm_compute; tauto|].
  destruct (eqb ext (lit ".gif")); vm_compute; tauto.
Qed.

(** A cover whose name is ASCII is sent as PNG, whatever the case of its
    extension; under a Japanese name [fetch] takes no header from it, and
    nothing is sent. *)
Example cover_under_two_names :
  Script.uploadImageFile cover_world (lit "archeco") (lit "secret")
    (lit "img/cover.PNG")
  = ([Script.MediaUpload (lit "archeco") (lit "secret") (lit "image/png")
        (lit "cover.PNG") [137; 80; 78; 71]],
     Return (lit "https://images.example/1.png"))
  /\ Script.uploadImageFile cover_world (lit "archeco") (lit "secret")
       (lit "img/表紙.PNG")
     = ([], Throw Script.NOT_A_BYTE_STRING).
Proof. split; vm_compute; reflexivity. Qed.

(** X24. [uploadImageFile] sends at most one request: the one for its file,
    when the file exists and [fetch] sends the request, which it does only
    if the key and the base name of the file can stand in headers. The
    request carries the bytes of that file under its base name, with the
    credentials of the script and the content type of its extension, case
    ignored: PNG, WebP or GIF, and JPEG for every other extension and for
    none. *)
Theorem eyecatch_request_is_an_image (w : Script.world)
  (domain apiKey imagePath : jsstring) :
  let contentType := image_type (toLowerCase (extname imagePath)) in
  trace (Script.uploadImageFile w domain apiKey imagePath)
  = match Script.files w imagePath with
    | Some f =>
      if sent w apiKey contentType (basename imagePath) (Script.file_bytes f)
      then [Script.MediaUpload domain apiKey contentType
              (basename imagePath) (Script.file_bytes f)]
      else []
    | None => []
    end
  /\ (if latin1 apiKey && latin1 (basename imagePath) then True
      else trace (Script.uploadImageFile w domain apiKey imagePath) = [])
  /\ In contentType image_types
  /\ map image_type [lit ".jpg"; lit ".jpeg"; lit ".png"; lit ".webp";
                     lit ".gif"; lit ".bmp"; []]
     = [lit "image/jpeg"; lit "image/jpeg"; lit "image/png";
        lit "image/webp"; lit "image/gif"; lit "image/jpeg";
        lit "image/jpeg"].
Proof.
  cbv zeta.
  assert (Ht : trace (Script.uploadImageFile w domain apiKey imagePath)
               = match Script.files w imagePath with
                 | Some f =>
                   if sent w apiKey
                        (image_type (toLowerCase (extname imagePath)))
                        (basename imagePath) (Script.file_bytes f)
                   then [Script.MediaUpload domain apiKey
                           (image_type (toLowerCase (extname imagePath)))
                           (basename imagePath) (Script.file_bytes f)]
                   else []
                 | None => []
                 end).
  { destruct (uploadImageFile_cases w domain apiKey imagePath)
      as [(Hf & Ht & _) | (f & ct & Hf & Hct & Ht & _)]; cbv zeta in Ht;
      rewrite Hf, Ht; [reflexivity|].
    rewrite Hct, mimeMap_image_type. reflexivity. }
  split; [exact Ht|]. split.
  - destruct (latin1 apiKey && latin1 (basename imagePath)) eqn:Hl;
      [exact I|].
    rewrite Ht. destruct (Script.files w imagePath) as [f|]; [|reflexivity].
    unfold sent.
    destruct (latin1 apiKey); cbn [andb] in Hl |- *; [|reflexivity].
    rewrite Hl, andb_false_r. reflexivity.
  - split; [apply image_type_is_image | vm_compute; reflexivity].
Qed.

(** ** [optimizeImage] *)

Lemma count_char_app (c : char16) (a b : jsstring) :
  Imgix.count_char c (a ++ b)
  = (Imgix.count_char c a + Imgix.count_char c b)%nat.
Proof.
  unfold Imgix.count_char. now rewrite List.filter_app, length_app.
Qed.

Lemma count_char_absent (c : char16) (s : jsstring) :
  forallb (fun x => negb (c =? x)) s = true -> Imgix.count_char c s = 0%nat.
Proof.
  unfold Imgix.count_char. induction s as [|x s IH]; [reflexivity|].
  cbn [forallb List.filter]. intros H. apply andb_true_iff in H as [Hx Hs].
  apply negb_true_iff in Hx. rewrite Hx. now apply IH.
Qed.

Lemma hex_digit_unreserved (n : N) :
  n < 16 -> Imgix.unreserved (Imgix.hex_digit n) = true.
Proof.
  intros H.
  assert (Hn : In n [0; 1; 2; 3; 4; 5; 6; 7; 8; 9; 10; 11; 12; 13; 14; 15]).
  { cbn [In]. lia. }
  cbn [In] in Hn.
  repeat (destruct Hn as [<- | Hn]; [reflexivity|]). destruct Hn.
Qed.

Lemma land_15_lt (b : N) : N.land b 15 < 16.
Proof.
  change 15 with (N.ones 4). rewrite N.land_ones.
  apply N.mod_lt. discriminate.
Qed.

Lemma encode_byte_chars (b : N) :
  forallb Imgix.value_char (Imgix.encode_byte b) = true.
Proof.
  unfold Imgix.encode_byte.
  destruct (b =? 32); [reflexivity|].
  destruct (Imgix.unreserved b) eqn:Hb.
  - cbn [forallb]. unfold Imgix.value_char. now rewrite Hb.
  - cbn [forallb]. unfold Imgix.value_char at 2 3.
    rewrite !hex_digit_unreserved by apply land_15_lt. reflexivity.
Qed.

Lemma form_encode_chars (s : jsstring) :
  forallb Imgix.value_char (Imgix.form_encode s) = true.
Proof.
  unfold Imgix.form_encode.
  induction (Imgix.utf8_of_utf16 s) as [|b bs IH]; [reflexivity|].
  cbn [flat_map]. rewrite forallb_app, encode_byte_chars. exact IH.
Qed.

Lemma value_char_not_separator (c : char16) :
  Imgix.value_char c = true ->
  (38 =? c) = false /\ (61 =? c) = false /\ (63 =? c) = false.
Proof.
  intros H. repeat split; apply N.eqb_neq; intros <-; discriminate H.
Qed.

Lemma form_encode_count (s : jsstring) :
  Imgix.count_char 38 (Imgix.form_encode s) = 0%nat
  /\ Imgix.count_char 61 (Imgix.form_encode s) = 0%nat
  /\ Imgix.count_char 63 (Imgix.form_encode s) = 0%nat.
Proof.
  pose proof (form_encode_chars s) as H. rewrite forallb_forall in H.
  repeat split; apply count_char_absent, forallb_forall; intros x Hx;
    apply negb_true_iff; now apply value_char_not_separator, H.
Qed.

Lemma forallb_weaken {A} (p q : A -> bool) (l : list A) :
  (forall x, p x = true -> q x = true) ->
  forallb p l = true -> forallb q l = true.
Proof.
  intros Hpq H. rewrite forallb_forall in *. auto.
Qed.

(** The serialized parameters: one [=] each, one [&] between two, no [?],
    and nothing but the characters of a query. *)
Lemma serialize_counts (params : list (jsstring * jsstring)) :
  Imgix.count_char 61 (Imgix.serialize params) = length params
  /\ Imgix.count_char 38 (Imgix.serialize params) = (length params - 1)%nat
  /\ Imgix.count_char 63 (Imgix.serialize params) = 0%nat
  /\ forallb Imgix.query_char (Imgix.serialize params) = true.
Proof.
  unfold Imgix.serialize. change (lit "&") with [38]. change (lit "=") with [61].
  induction params as [|[n v] params (IH1 & IH2 & IH3 & IH4)];
    [repeat split; reflexivity|].
  destruct (form_encode_count n) as (Hn38 & Hn61 & Hn63).
  destruct (form_encode_count v) as (Hv38 & Hv61 & Hv63).
  assert (Hq : forall s, forallb Imgix.query_char (Imgix.form_encode s) = true).
  { intros s. eapply forallb_weaken; [|apply form_encode_chars].
    intros x Hx. unfold Imgix.query_char. now rewrite Hx. }
  cbn [map fst snd length].
  destruct params as [|p params].
  - cbn [map join]. rewrite !count_char_app, Hn38, Hn61, Hn63, Hv38, Hv61, Hv63.
    rewrite !forallb_app, !Hq. repeat split; reflexivity.
  - cbn [map] in *.
    match goal with
    | |- context [join [38] (?x :: ?y :: ?l)] =>
      change (join [38] (x :: y :: l)) with (x ++ [38] ++ join [38] (y :: l))
    end.
    rewrite !count_char_app, IH1, IH2, IH3.
    rewrite Hn38, Hn61, Hn63, Hv38, Hv61, Hv63.
    rewrite !forallb_app, !Hq.
    change (forallb Imgix.query_char [61]) with true.
    change (forallb Imgix.query_char [38]) with true.
    change (Imgix.count_char 61 [38]) with 0%nat.
    change (Imgix.count_char 61 [61]) with 1%nat.
    change (Imgix.count_char 38 [38]) with 1%nat.
    change (Imgix.count_char 38 [61]) with 0%nat.
    change (Imgix.count_char 63 [38]) with 0%nat.
    change (Imgix.count_char 63 [61]) with 0%nat.
    cbn [length andb] in *. repeat split; try lia; exact IH4.
Qed.

Section AnyNumber.

Variable number : Type.
Variable String_of : number -> jsstring.
Variable truthy_number : number -> bool.
Variable eighty : number.

Lemma build_params_length (o : Imgix.options number) :
  (3 <= length (Imgix.build_params number String_of truthy_number eighty o)
   <= 5)%nat.
Proof.
  unfold Imgix.build_params, Imgix.set_if_truthy, Imgix.set.
  destruct (Imgix.w number o) as [n|]; [destruct (truthy_number n)|];
    (destruct (Imgix.h number o) as [m|]; [destruct (truthy_number m)|]);
    cbn; lia.
Qed.

(** X25. [optimizeImage] appends a query to the URL with [?], or with [&]
    when the URL already has a [?]. The query holds three to five
    parameters, [fm], [q] and [fit] always, and consists of URL-safe
    characters only: whatever the strings given for [fm] and [fit], it has
    one [=] per parameter, one [&] between two parameters and no [?], so a
    value cannot add a parameter or start another query. *)
Theorem optimizeImage_query_is_well_formed (url : jsstring)
  (o : Imgix.options number) :
  let params := Imgix.build_params number String_of truthy_number eighty o in
  let query := Imgix.serialize params in
  Imgix.optimizeImage number String_of truthy_number eighty url o
  = url ++ (if existsb (N.eqb 63) url then [38] else [63]) ++ query
  /\ (3 <= length params <= 5)%nat
  /\ forallb Imgix.query_char query = true
  /\ Imgix.count_char 61 query = length params
  /\ Imgix.count_char 38 query = (length params - 1)%nat
  /\ Imgix.count_char 63
       (Imgix.optimizeImage number String_of truthy_number eighty url o)
     = (if existsb (N.eqb 63) url then Imgix.count_char 63 url else 1%nat).
Proof.
  cbv zeta.
  destruct (serialize_counts
              (Imgix.build_params number String_of truthy_number eighty o))
    as (H61 & H38 & H63 & Hq).
  split; [unfold Imgix.optimizeImage; now destruct (existsb _ url)|].
  split; [apply build_params_length|].
  split; [exact Hq|]. split; [exact H61|]. split; [exact H38|].
  unfold Imgix.optimizeImage. cbv zeta.
  rewrite !count_char_app, H63.
  destruct (existsb (N.eqb 63) url) eqn:Hurl.
  - change (Imgix.count_char 63 (lit "&")) with 0%nat. lia.
  - change (Imgix.count_char 63 (lit "?")) with 1%nat.
    rewrite count_char_absent; [lia|].
    apply forallb_forall. intros x Hx. apply negb_true_iff.
    destruct (63 =? x) eqn:E; [|reflexivity].
    assert (Hex : existsb (N.eqb 63) url = true)
      by (apply existsb_exists; eauto).
    congruence.
Qed.

End AnyNumber.

Example optimizeImage_escapes_values :
  Imgix.optimizeImageN (lit "https://images.microcms-assets.io/a/b.png")
    Imgix.cover_options
  = lit "https://images.microcms-assets.io/a/b.png?w=640&fm=avif%26w%3D9&q=80&fit=fill+max"
  /\ Imgix.optimizeImageN (lit "https://x/y?dpr=2") (Imgix.no_options N)
     = lit "https://x/y?dpr=2&fm=webp&q=80&fit=crop".
Proof. split; vm_compute; reflexivity. Qed.
